(** * pw_presubmit/tools.py: the presubmit orchestrator

    A shallow embedding of the check-filtering and check-running engine of
    [pw_presubmit/py/pw_presubmit/tools.py]: the path filter, the resolver
    ([_apply_filters], [_map_checks_to_paths]), the check wrapper ([_Check],
    [filter_paths]) and the runner ([Presubmit.run], [_execute_checks],
    [_context]).

    Conventions.
    - A Python [str] is a [string]; a character is a code point below 256
      (Latin-1), classified and lower-cased as Python does for those code
      points.
    - Python integers are [Z].
    - Effects (log records, directory creation, calls into the supplied check
      functions) are events appended to a trace that is threaded through the
      code; an exception that leaves a function is an [Outcome].
    - Report rendering (boxes, colours), debug-level logging and wall-clock
      timing write to the terminal only and are left out; [file_summary] is
      modelled as a function of its arguments, its lines are not printed.

    The second part models the functions around the engine: [plural], the
    summary of [_log_summary], [list_git_files], [run_presubmit],
    [find_python_packages], [file_summary] and the check [pragma_once]. *)

From Stdlib Require Import List String Ascii ZArith NArith Bool Arith Lia DecimalString Sorted.
Import ListNotations.
Open Scope string_scope.
Open Scope list_scope.

Set Implicit Arguments.

(* ------------------------------------------------------------------ *)
(** ** Characters and strings *)

Module Str.

Definition code (c : ascii) : N := N_of_ascii c.

Definition between (lo hi : N) (n : N) : bool := ((lo <=? n) && (n <=? hi))%N.

(** [str.isalnum] on one code point below 256. *)
Definition isalnum (c : ascii) : bool :=
  let n := code c in
  between 48 57 n || between 65 90 n || between 97 122 n
  || (n =? 170)%N || between 178 179 n || (n =? 181)%N
  || between 185 186 n || between 188 190 n
  || between 192 214 n || between 216 246 n || between 248 255 n.

(** The regular-expression class [\w] on a [str] pattern: alphanumeric or
    underscore. *)
Definition is_word (c : ascii) : bool := isalnum c || (c =? "_")%char.

(** [str.lower] on one code point below 256. *)
Definition lower_char (c : ascii) : ascii :=
  let n := code c in
  if between 65 90 n || between 192 214 n || between 216 222 n
  then ascii_of_N (n + 32) else c.

Fixpoint lower (s : string) : string :=
  match s with
  | EmptyString => EmptyString
  | String c s' => String (lower_char c) (lower s')
  end.

(** [s.endswith(e)]: [e] is one of the tails of [s]. *)
Fixpoint endswith (s e : string) : bool :=
  (s =? e) ||
  match s with
  | EmptyString => false
  | String _ s' => endswith s' e
  end.

(** [s.startswith(p)]. *)
Definition startswith (s p : string) : bool := prefix p s.

(** [sep.join(l)]. *)
Definition join (sep : string) (l : list string) : string := concat sep l.

(** [s.split(sep)] for a one-character separator: the fields between the
    separators, empty fields included. *)
Fixpoint split (sep : ascii) (s : string) : list string :=
  match s with
  | EmptyString => [EmptyString]
  | String c s' =>
      if (c =? sep)%char then EmptyString :: split sep s'
      else match split sep s' with
           | f :: fs => String c f :: fs
           | [] => [String c EmptyString]
           end
  end.

(** [re.sub('[cls]+', repl, s)] for a character class [cls]: every maximal
    run of characters of the class is replaced by [repl]. [in_run] tells
    that the previous character already belonged to the run being
    replaced. *)
Fixpoint sub_class_plus (cls : ascii -> bool) (repl : string)
         (in_run : bool) (s : string) : string :=
  match s with
  | EmptyString => EmptyString
  | String c s' =>
      if cls c
      then if in_run then sub_class_plus cls repl true s'
           else repl ++ sub_class_plus cls repl true s'
      else String c (sub_class_plus cls repl false s')
  end.

(** The decomposition of a string into its maximal runs with respect to a
    predicate: each run is tagged with the value of the predicate on its
    characters. *)
Fixpoint runs (P : ascii -> bool) (s : string) : list (bool * string) :=
  match s with
  | EmptyString => []
  | String c s' =>
      match runs P s' with
      | (b, r) :: rest =>
          if Bool.eqb b (P c) then (b, String c r) :: rest
          else (P c, String c EmptyString) :: (b, r) :: rest
      | [] => [(P c, String c EmptyString)]
      end
  end.

(** Collapse every maximal run of characters satisfying [P] into one
    underscore. *)
Fixpoint render (l : list (bool * string)) : string :=
  match l with
  | [] => EmptyString
  | (b, r) :: l' => (if b then "_" else r) ++ render l'
  end.

Definition collapse_runs (P : ascii -> bool) (s : string) : string :=
  render (runs P s).

Definition of_nat (n : nat) : string := NilEmpty.string_of_uint (Nat.to_uint n).

End Str.

(* ------------------------------------------------------------------ *)
(** ** Paths

    A [pathlib.PurePosixPath]: whether it is anchored at the root, and its
    components. (A path that starts with exactly two slashes keeps them in
    [pathlib]; such paths are not modelled.) *)

Record Path : Type := mkPath { has_root : bool; parts : list string }.

Definition is_component (s : string) : bool := negb ((s =? "") || (s =? ".")).

(** [Path(s)]. *)
Definition Path_of (s : string) : Path :=
  {| has_root := Str.startswith s "/";
     parts := List.filter is_component (Str.split "/" s) |}.

(** [str(path)]. *)
Definition str (p : Path) : string :=
  match has_root p, parts p with
  | false, [] => "."
  | r, ps => (if r then "/" else "") ++ Str.join "/" ps
  end.

(** [path.joinpath(other)]. *)
Definition joinpath (p q : Path) : Path :=
  if has_root q then q
  else {| has_root := has_root p; parts := parts p ++ parts q |}.

(** [path.absolute()], in the working directory [cwd]. *)
Definition absolute (cwd p : Path) : Path :=
  if has_root p then p else joinpath cwd p.

(* ------------------------------------------------------------------ *)
(** ** Exceptions and outcomes *)

(** The exceptions that matter to the runner, by class. [PresubmitFailure],
    [TypeError], [re_error] and [ExceptionSubclass] derive from [Exception];
    [KeyboardInterrupt] and [BaseExceptionSubclass] (such as [SystemExit])
    derive from [BaseException] only. The string is [str(exception)]. *)
Inductive Exc : Type :=
| PresubmitFailure (message : string)
| TypeError (message : string)
| re_error (pattern : string)
| ExceptionSubclass (cls message : string)
| KeyboardInterrupt
| BaseExceptionSubclass (cls : string).

(** [isinstance(e, Exception)]. *)
Definition is_Exception (e : Exc) : bool :=
  match e with
  | PresubmitFailure _ | TypeError _ | re_error _ | ExceptionSubclass _ _ => true
  | KeyboardInterrupt | BaseExceptionSubclass _ => false
  end.

Inductive PathOrStr : Type :=
| APath (p : Path)
| AStr (s : string).

(** Truth value of the optional [path] argument of [PresubmitFailure]: [None]
    and the empty string are false, every [Path] object is true. *)
Definition truthy (path : option PathOrStr) : bool :=
  match path with
  | None => false
  | Some (APath _) => true
  | Some (AStr s) => negb (s =? "")
  end.

Definition format_path (path : option PathOrStr) : string :=
  match path with
  | None => "None"
  | Some (APath p) => str p
  | Some (AStr s) => s
  end.

(** [PresubmitFailure.__init__(description='', path=None)]. *)
Definition PresubmitFailure_init (description : string)
           (path : option PathOrStr) : Exc :=
  PresubmitFailure (if truthy path then format_path path ++ ": " ++ description
                    else description).

(** What a call does: it returns, or an exception leaves it. *)
Inductive Outcome (A : Type) : Type :=
| Normal (a : A)
| Propagates (e : Exc).
Arguments Normal {A} a.
Arguments Propagates {A} e.

(** [class _Result(enum.Enum)]. *)
Inductive _Result : Type := PASS | FAIL | CANCEL.

Definition _Result_eqb (a b : _Result) : bool :=
  match a, b with
  | PASS, PASS | FAIL, FAIL | CANCEL, CANCEL => true
  | _, _ => false
  end.

(* ------------------------------------------------------------------ *)
(** ** Data model *)

(** [class _PathFilter(NamedTuple)]: compared by value, as tuples are. *)
Record _PathFilter : Type := mk_PathFilter {
  endswith : list string;
  exclude : list string
}.

(** [_PathFilter()]: the field defaults. *)
Definition _PathFilter_default : _PathFilter :=
  {| endswith := [""]; exclude := [] |}.

(** Parameter kinds of [inspect.signature]. *)
Inductive ParamKind : Type :=
| POSITIONAL_ONLY | POSITIONAL_OR_KEYWORD | VAR_POSITIONAL
| KEYWORD_ONLY | VAR_KEYWORD.

Record Param : Type := mkParam {
  kind : ParamKind;
  has_default : bool
}.

(** A check function supplied by the caller: a function object, known by its
    address [fn_id], its [__name__] and its signature. What it does when it
    is called is given by the environment (see [Env]). *)
Record Callable : Type := mkCallable {
  fn_id : nat;
  __name__ : string;
  parameters : list Param
}.

(** [class _Check]: an object, known by its address [id]. The field
    [path_filter] is the attribute [filter] of the source. *)
Record _Check : Type := mk_Check {
  id : nat;
  _check : Callable;
  path_filter : _PathFilter;
  always_run : bool
}.

(** [_Check.__init__(check_function, path_filter=_PathFilter(),
    always_run=True)], for the object allocated at [addr]. *)
Definition _Check_init (addr : nat) (check_function : Callable)
           (path_filter : _PathFilter) (always_run : bool) : _Check :=
  {| id := addr; _check := check_function;
     path_filter := path_filter; always_run := always_run |}.

(** The property [_Check.name]. *)
Definition name (c : _Check) : string := __name__ (_check c).

(** An entry of the program handed to [Presubmit.run]: a [_Check] built
    beforehand, or a plain callable. *)
Inductive ProgramItem : Type :=
| IsCheck (c : _Check)
| Plain (f : Callable).

(** [class PresubmitContext]. *)
Record PresubmitContext : Type := mkPresubmitContext {
  repository_root : Path;
  output_directory : Path;
  paths : list Path
}.

(** [class Presubmit]. *)
Record Presubmit : Type := mkPresubmit {
  _repository_root : Path;
  _output_directory : Path;
  _paths : list Path
}.

(** Decidable equalities: tuple equality for filters, object identity
    together with the fields for checks. *)
Definition Path_eq_dec (a b : Path) : {a = b} + {a <> b}.
Proof. decide equality; [apply (list_eq_dec string_dec) | apply bool_dec]. Defined.

Definition _PathFilter_eq_dec (a b : _PathFilter) : {a = b} + {a <> b}.
Proof. decide equality; apply (list_eq_dec string_dec). Defined.

Definition Param_eq_dec (a b : Param) : {a = b} + {a <> b}.
Proof. decide equality; [apply bool_dec | decide equality]. Defined.

Definition Callable_eq_dec (a b : Callable) : {a = b} + {a <> b}.
Proof.
  decide equality;
    [apply (list_eq_dec Param_eq_dec) | apply string_dec | apply Nat.eq_dec].
Defined.

Definition _Check_eq_dec (a b : _Check) : {a = b} + {a <> b}.
Proof.
  decide equality;
    [apply bool_dec | apply _PathFilter_eq_dec | apply Callable_eq_dec
     | apply Nat.eq_dec].
Defined.

(* ------------------------------------------------------------------ *)
(** ** Events and the trace monad *)

Inductive Event : Type :=
| Makedirs (directory : Path)             (* os.makedirs(..., exist_ok=True) *)
| OpenLog (file : Path)                   (* logging.FileHandler(file, mode='w'), added to _LOG *)
| RemoveHandler (file : Path)             (* _LOG.removeHandler *)
| Started (c : _Check) (count total : nat) (files : nat)  (* upper box of _Check.run *)
| Invoke (c : _Check) (ctx : PresubmitContext)            (* self._check(ctx) *)
| LogWarning (message : string)           (* _LOG.warning('%s', failure) *)
| LogException (check_name : string) (e : Exc)  (* _LOG.exception: message and traceback *)
| PrintLine                               (* print() *)
| Finished (c : _Check) (result : _Result)      (* lower box of _Check.run *)
| Summary (passed failed skipped : Z).    (* _log_summary *)

Definition Trace : Type := list Event.

Definition M (A : Type) : Type := Trace -> Outcome A * Trace.

Definition ret {A} (a : A) : M A := fun tr => (Normal a, tr).

Definition bind {A B} (m : M A) (k : A -> M B) : M B :=
  fun tr =>
    match m tr with
    | (Normal a, tr') => k a tr'
    | (Propagates e, tr') => (Propagates e, tr')
    end.

Definition emit (e : Event) : M unit := fun tr => (Normal tt, tr ++ [e]).

Definition raise {A} (e : Exc) : M A := fun tr => (Propagates e, tr).

(** [try: m finally: cleanup]. *)
Definition finally {A} (m : M A) (cleanup : M unit) : M A :=
  fun tr =>
    match m tr with
    | (r, tr') =>
        match cleanup tr' with
        | (Normal _, tr'') => (r, tr'')
        | (Propagates e, tr'') => (Propagates e, tr'')
        end
    end.

(** A pure computation that may raise, run inside the trace monad. *)
Definition lift {A} (o : Outcome A) : M A := fun tr => (o, tr).

Declare Scope monad_scope.
Delimit Scope monad_scope with monad.
Notation "x <- m ;; k" := (bind m (fun x => k))
  (at level 61, m at next level, right associativity) : monad_scope.
Notation "m ;;; k" := (bind m (fun _ => k))
  (at level 61, right associativity) : monad_scope.

(** The same for pure computations that may raise. *)
Definition obind {A B} (o : Outcome A) (k : A -> Outcome B) : Outcome B :=
  match o with
  | Normal a => k a
  | Propagates e => Propagates e
  end.

Fixpoint omap {A B} (f : A -> Outcome B) (l : list A) : Outcome (list B) :=
  match l with
  | [] => Normal []
  | x :: l' => obind (f x) (fun y => obind (omap f l') (fun ys => Normal (y :: ys)))
  end.

(* ------------------------------------------------------------------ *)
(** ** The environment

    What the module takes from outside: the [re] module, the behaviour of the
    supplied check functions and the working directory. *)

(** The part of [re] that the module uses. [compile] is [None] when
    [re.compile] raises [re.error]. *)
Class ReEngine : Type := {
  Pattern : Type;
  compile : string -> option Pattern;
  fullmatch : Pattern -> string -> bool;
  search : Pattern -> string -> bool
}.

(** What the body of a check function does. *)
Inductive Raised : Type :=
| Returns
| Raises (e : Exc).

Record Env : Type := mkEnv {
  cwd : Path;
  (** the body of a function, run with the context bound to its parameter;
      it may depend on everything that happened before *)
  body : Callable -> Trace -> PresubmitContext -> Raised
}.

(* ------------------------------------------------------------------ *)
(** ** Dictionaries

    A Python [dict]: an association list in insertion order, with one entry
    per key. *)

Section Dict.
Variables K V : Type.
Variable eq_dec : forall a b : K, {a = b} + {a <> b}.

Definition dict : Type := list (K * V).

(** [d.get(k)]; [k in d] is [get d k <> None]. *)
Fixpoint get (d : dict) (k : K) : option V :=
  match d with
  | [] => None
  | (k', v) :: d' => if eq_dec k k' then Some v else get d' k
  end.

(** [d[k] = v]: the value of an existing key is replaced where it stands,
    a new key goes to the end. *)
Fixpoint set (d : dict) (k : K) (v : V) : dict :=
  match d with
  | [] => [(k, v)]
  | (k', v') :: d' =>
      if eq_dec k k' then (k', v) :: d' else (k', v') :: set d' k v
  end.
End Dict.

(* ------------------------------------------------------------------ *)
(** ** The check wrapper *)

Inductive StrOrIterable : Type :=
| OneStr (s : string)
| Strs (l : list string).

(** [_make_tuple(value)]. *)
Definition _make_tuple (value : StrOrIterable) : list string :=
  match value with
  | OneStr s => [s]
  | Strs l => l
  end.

(** [filter_paths(endswith, exclude, always_run)(function)]; the defaults of
    the decorator are [OneStr ""], [Strs []] and [false]. [addr] is the
    address of the [_Check] that is allocated. *)
Definition filter_paths (endswith exclude : StrOrIterable) (always_run : bool)
           (addr : nat) (function : Callable) : Outcome _Check :=
  if negb (Nat.eqb (List.length (parameters function)) 1)
  then Propagates
         (TypeError ("Functions wrapped with @filter_paths must take exactly one argument: "
                       ++ __name__ function ++ " takes "
                       ++ Str.of_nat (List.length (parameters function)) ++ "."))
  else Normal (_Check_init addr function
                 (mk_PathFilter (_make_tuple endswith) (_make_tuple exclude))
                 always_run).

(** Whether the call [function(ctx)], with one positional argument and no
    keyword, can be bound to the signature: the first positional parameter
    (or [*args]) takes the argument, and every other parameter that is not
    [*args] or [**kwargs] needs a default. *)
Definition is_positional (p : Param) : bool :=
  match kind p with
  | POSITIONAL_ONLY | POSITIONAL_OR_KEYWORD => true
  | _ => false
  end.

Definition is_var_positional (p : Param) : bool :=
  match kind p with
  | VAR_POSITIONAL => true
  | _ => false
  end.

Definition is_keyword_only (p : Param) : bool :=
  match kind p with
  | KEYWORD_ONLY => true
  | _ => false
  end.

Definition binds_one_positional (ps : list Param) : bool :=
  match List.filter is_positional ps with
  | [] => existsb is_var_positional ps
  | _ :: others => forallb has_default others
  end
  && forallb has_default (List.filter is_keyword_only ps).

(** The sanitization as the specification words it: runs of characters that
    are neither alphanumeric nor underscore are collapsed, then the result is
    lower-cased. *)
Definition spec_sanitized_name (name : string) : string :=
  Str.lower
    (Str.collapse_runs
       (fun c => negb (Str.isalnum c) && negb (c =? "_")%char) name).

(** [re.sub(r'[\W_]+', '_', name).lower()] of [Presubmit._context]. *)
Definition sanitized_name (name : string) : string :=
  Str.lower
    (Str.sub_class_plus (fun c => negb (Str.is_word c) || (c =? "_")%char)
                        "_" false name).

Section Presubmit.
Context {re : ReEngine}.
Variable env : Env.

Local Open Scope monad_scope.

(* ---------------------------------------------------------------- *)
(** *** Resolution of the filters *)

(** [[re.compile(exp) for exp in filt.exclude]]. *)
Definition compile_all (exps : list string) : Outcome (list Pattern) :=
  omap (fun exp => match compile exp with
                   | Some p => Normal p
                   | None => Propagates (re_error exp)
                   end) exps.

(** The condition of the generator expression of [_map_checks_to_paths]. *)
Definition selects (filt : _PathFilter) (exclude : list Pattern)
           (path : Path) : bool :=
  existsb (fun e => Str.endswith (str path) e) (endswith filt)
  && negb (existsb (fun exp => fullmatch exp (str path)) exclude).

(** The local [filtered_paths] of [_map_checks_to_paths], for one filter. *)
Definition filtered_paths (filt : _PathFilter) (paths : list Path)
  : Outcome (list Path) :=
  obind (compile_all (exclude filt))
        (fun exclude => Normal (List.filter (selects filt exclude) paths)).

Definition is_empty {A} (l : list A) : bool :=
  match l with [] => true | _ => false end.

(** The inner loop [for check in checks] of [_map_checks_to_paths]. *)
Fixpoint assign (checks : list _Check) (filtered : list Path)
         (checks_to_paths : dict _Check (list Path))
  : dict _Check (list Path) :=
  match checks with
  | [] => checks_to_paths
  | check :: rest =>
      assign rest filtered
             (if negb (is_empty filtered) || always_run check
              then set _Check_eq_dec checks_to_paths check filtered
              else checks_to_paths)
  end.

(** The outer loop [for filt, checks in filter_to_checks.items()]. *)
Fixpoint _map_loop (items : dict _PathFilter (list _Check))
         (paths : list Path) (checks_to_paths : dict _Check (list Path))
  : Outcome (dict _Check (list Path)) :=
  match items with
  | [] => Normal checks_to_paths
  | (filt, checks) :: rest =>
      obind (filtered_paths filt paths)
            (fun filtered =>
               _map_loop rest paths (assign checks filtered checks_to_paths))
  end.

Definition _map_checks_to_paths (filter_to_checks : dict _PathFilter (list _Check))
           (paths : list Path) : Outcome (dict _Check (list Path)) :=
  _map_loop filter_to_checks paths [].

(** [filter_to_checks[check.filter].append(check)] on a
    [defaultdict(list)]. *)
Definition append_to (filter_to_checks : dict _PathFilter (list _Check))
           (check : _Check) : dict _PathFilter (list _Check) :=
  set _PathFilter_eq_dec filter_to_checks (path_filter check)
      (match get _PathFilter_eq_dec filter_to_checks (path_filter check) with
       | Some l => l ++ [check]
       | None => [check]
       end).

(** [[c if isinstance(c, _Check) else _Check(c) for c in program]]; the
    wrappers are allocated at the addresses [next], [next + 1], ... *)
Fixpoint wrap_all (next : nat) (program : list ProgramItem) : list _Check :=
  match program with
  | [] => []
  | IsCheck c :: rest => c :: wrap_all next rest
  | Plain f :: rest =>
      _Check_init next f _PathFilter_default true :: wrap_all (S next) rest
  end.

(** An address above those of the checks of the program. *)
Definition first_free (program : list ProgramItem) : nat :=
  S (fold_right (fun item m => match item with
                               | IsCheck c => Nat.max (id c) m
                               | Plain _ => m
                               end) 0 program).

Definition _apply_filters (program : list ProgramItem) (paths : list Path)
  : Outcome (list (_Check * list Path)) :=
  let checks := wrap_all (first_free program) program in
  let filter_to_checks := fold_left append_to checks [] in
  obind (_map_checks_to_paths filter_to_checks paths)
        (fun check_to_paths =>
           Normal (flat_map (fun c => match get _Check_eq_dec check_to_paths c with
                                      | Some ps => [(c, ps)]
                                      | None => []
                                      end) checks)).

(* ---------------------------------------------------------------- *)
(** *** Running one check *)

(** [try: m except ...]: [handlers] gives the first [except] clause that
    matches the exception, if any. *)
Definition try_except {A} (m : M A) (handlers : Exc -> option (M A)) : M A :=
  fun tr =>
    match m tr with
    | (Normal a, tr') => (Normal a, tr')
    | (Propagates e, tr') =>
        match handlers e with
        | Some h => h tr'
        | None => (Propagates e, tr')
        end
    end.

(** The call [self._check(ctx)]. The wording of the [TypeError] of a call
    that cannot be bound is not modelled. *)
Definition call (self : _Check) (ctx : PresubmitContext) : M unit :=
  emit (Invoke self ctx) ;;;
  fun tr =>
    if binds_one_positional (parameters (_check self))
    then match body env (_check self) tr ctx with
         | Returns => (Normal tt, tr)
         | Raises e => (Propagates e, tr)
         end
    else (Propagates (TypeError (name self ++ "() cannot take 1 positional argument")), tr).

(** [_Check._call_function]. *)
Definition _call_function (self : _Check) (ctx : PresubmitContext) : M _Result :=
  try_except
    (call self ctx ;;; ret PASS)
    (fun failure =>
       match failure with
       | PresubmitFailure message =>
           Some ((if negb (message =? "")%string
                  then emit (LogWarning message) else ret tt) ;;;
                 ret FAIL)
       | _ =>
           if is_Exception failure
           then Some (emit (LogException (name self) failure) ;;; ret FAIL)
           else match failure with
                | KeyboardInterrupt => Some (emit PrintLine ;;; ret CANCEL)
                | _ => None
                end
       end).

(** [_Check.run]. *)
Definition _Check_run (self : _Check) (ctx : PresubmitContext)
           (count total : nat) : M _Result :=
  emit (Started self count total (List.length (paths ctx))) ;;;
  result <- _call_function self ctx ;;
  emit (Finished self result) ;;;
  ret result.

(* ---------------------------------------------------------------- *)
(** *** The runner *)

(** The directory and the log file that [Presubmit._context] uses. *)
Definition check_directory (self : Presubmit) (name : string) : Path :=
  joinpath (_output_directory self) (Path_of (sanitized_name name)).

Definition log_file (self : Presubmit) (name : string) : Path :=
  joinpath (check_directory self name) (Path_of "step.log").

(** [with self._context(name, paths) as ctx: with_body(ctx)]. Errors of the
    file system are not modelled. *)
Definition _context {A} (self : Presubmit) (name : string)
           (paths : list Path) (with_body : PresubmitContext -> M A) : M A :=
  let output_directory := check_directory self name in
  emit (Makedirs output_directory) ;;;
  emit (OpenLog (log_file self name)) ;;;
  finally
    (with_body {| repository_root := absolute (cwd env) (_repository_root self);
                  output_directory := absolute (cwd env) output_directory;
                  paths := paths |})
    (emit (RemoveHandler (log_file self name))).

(** The loop of [_execute_checks]: [i] is the index that [enumerate]
    gives, [total] is [len(program)]. *)
Fixpoint _execute_loop (self : Presubmit) (keep_going : bool) (total i : nat)
         (rest : list (_Check * list Path)) (passed failed : Z) : M (Z * Z) :=
  match rest with
  | [] => ret (passed, failed)
  | (check, paths) :: rest' =>
      let paths := map (joinpath (_repository_root self)) paths in
      result <- _context self (name check) paths
                         (fun ctx => _Check_run check ctx i total) ;;
      match result with
      | PASS => _execute_loop self keep_going total (S i) rest' (passed + 1)%Z failed
      | CANCEL => ret (passed, failed)
      | FAIL =>
          if negb keep_going then ret (passed, (failed + 1)%Z)
          else _execute_loop self keep_going total (S i) rest' passed (failed + 1)%Z
      end
  end.

(** [Presubmit._execute_checks]. *)
Definition _execute_checks (self : Presubmit)
           (program : list (_Check * list Path)) (keep_going : bool)
  : M (Z * Z * Z) :=
  pf <- _execute_loop self keep_going (List.length program) 1 program 0%Z 0%Z ;;
  ret (fst pf, snd pf, Z.of_nat (List.length program) - fst pf - snd pf)%Z.

(** [Presubmit.run]. *)
Definition run (self : Presubmit) (full_program : list ProgramItem)
           (keep_going : bool) : M bool :=
  program <- lift (_apply_filters full_program (_paths self)) ;;
  counts <- _execute_checks self program keep_going ;;
  let '(passed, failed, skipped) := counts in
  emit (Summary passed failed skipped) ;;;
  ret ((failed =? 0)%Z && (skipped =? 0)%Z).

End Presubmit.

(* ------------------------------------------------------------------ *)
(** ** A regular-expression engine for examples

    An engine for the patterns made of literal characters, [.] and [*]; it
    rejects every pattern that uses another metacharacter. *)

Module Fragment.

Inductive atom : Type := Lit (c : ascii) | AnyChar.
Inductive item : Type := One (a : atom) | Star (a : atom).

Definition is_meta (c : ascii) : bool :=
  existsb (fun m => (c =? m)%char)
          (list_ascii_of_string "\^$+?{}[]|()").

Fixpoint parse (last : option atom) (s : string) : option (list item) :=
  let flush := match last with Some a => [One a] | None => [] end in
  match s with
  | EmptyString => Some flush
  | String c s' =>
      if (c =? "*")%char then
        match last with
        | Some a => option_map (cons (Star a)) (parse None s')
        | None => None
        end
      else if is_meta c then None
      else option_map (app flush)
             (parse (Some (if (c =? ".")%char then AnyChar else Lit c)) s')
  end.

(** [.] matches every character but the newline. *)
Definition atom_matches (a : atom) (c : ascii) : bool :=
  match a with
  | Lit x => (x =? c)%char
  | AnyChar => negb (c =? "010")%char
  end.

Fixpoint star_match (a : atom) (k : string -> bool) (s : string) : bool :=
  k s ||
  match s with
  | EmptyString => false
  | String c s' => atom_matches a c && star_match a k s'
  end.

Fixpoint match_items (items : list item) (s : string) : bool :=
  match items with
  | [] => (s =? "")%string
  | One a :: r =>
      match s with
      | String c s' => atom_matches a c && match_items r s'
      | EmptyString => false
      end
  | Star a :: r => star_match a (match_items r) s
  end.

Fixpoint tails (s : string) : list string :=
  s :: match s with EmptyString => [] | String _ s' => tails s' end.

Fixpoint match_prefix (items : list item) (s : string) : bool :=
  match items with
  | [] => true
  | One a :: r =>
      match s with
      | String c s' => atom_matches a c && match_prefix r s'
      | EmptyString => false
      end
  | Star a :: r => star_match a (match_prefix r) s
  end.

#[export] Instance engine : ReEngine :=
  {| Pattern := list item;
     compile := parse None;
     fullmatch := match_items;
     search := fun p s => existsb (match_prefix p) (tails s) |}.

End Fragment.

(* ------------------------------------------------------------------ *)
(** ** Notions used in the statements, and example data *)

Fixpoint string_forallb (f : ascii -> bool) (s : string) : bool :=
  match s with
  | EmptyString => true
  | String c s' => f c && string_forallb f s'
  end.

(** Neighbouring runs carry different tags. *)
Fixpoint alternating (l : list (bool * string)) : Prop :=
  match l with
  | (b1, _) :: (((b2, _) :: _) as l') => b1 <> b2 /\ alternating l'
  | _ => True
  end.

Definition uniform (P : ascii -> bool) (br : bool * string) : Prop :=
  snd br <> EmptyString
  /\ string_forallb (fun c => Bool.eqb (P c) (fst br)) (snd br) = true.

(** The calls into check functions recorded in a trace, and the results of
    the checks that completed. *)
Definition invoked_of (tr : Trace) : list (_Check * PresubmitContext) :=
  flat_map (fun e => match e with Invoke c ctx => [(c, ctx)] | _ => [] end) tr.

Definition results_of (tr : Trace) : list (_Check * _Result) :=
  flat_map (fun e => match e with Finished c r => [(c, r)] | _ => [] end) tr.

(** The context that [_execute_checks] builds for a check of the executed
    program. *)
Definition context_for (env : Env) (self : Presubmit) (check : _Check)
           (paths : list Path) : PresubmitContext :=
  {| repository_root := absolute (cwd env) (_repository_root self);
     output_directory := absolute (cwd env) (check_directory self (name check));
     paths := map (joinpath (_repository_root self)) paths |}.

(** One iteration of the loop of [_execute_checks], up to the result of the
    check. *)
Definition run_one (env : Env) (self : Presubmit) (check : _Check)
           (paths : list Path) (i total : nat) : M _Result :=
  _context env self (name check) (map (joinpath (_repository_root self)) paths)
           (fun ctx => _Check_run env check ctx i total).

(** An exception that the runner does not catch: it left the body of a check
    function and is neither an [Exception] nor a [KeyboardInterrupt]. *)
Definition escaping (env : Env) (e : Exc) : Prop :=
  is_Exception e = false /\ e <> KeyboardInterrupt
  /\ exists f tr ctx, body env f tr ctx = Raises e.

(** The check functions raise nothing but [Exception]s and
    [KeyboardInterrupt]. *)
Definition contained (env : Env) : Prop :=
  forall f tr ctx e, body env f tr ctx = Raises e ->
                     is_Exception e = true \/ e = KeyboardInterrupt.

Definition check_named (n : string) : _Check :=
  mk_Check 0 (mkCallable 0 n [mkParam POSITIONAL_OR_KEYWORD false])
           _PathFilter_default true.

Definition quiet_env : Env :=
  mkEnv (mkPath true ["home"%string]) (fun _ _ _ => Returns).

Definition sample_presubmit : Presubmit :=
  mkPresubmit (mkPath true ["repo"%string])
              (mkPath true ["repo"; ".presubmit"]%string)
              [Path_of "a.h"; Path_of "b.c"; Path_of "c.H"].

Definition generated_filter : _PathFilter :=
  mk_PathFilter [".h"%string] [".*generated.*"%string].


Definition empty_context : PresubmitContext :=
  mkPresubmitContext (mkPath true []) (mkPath true []) [].


(** Whether the loop goes on after a result. *)
Definition continuing (keep_going : bool) (r : _Result) : bool :=
  match r with
  | PASS => true
  | FAIL => keep_going
  | CANCEL => false
  end.

(** [Stopped keep_going rs len]: [rs] are the results of a loop over [len]
    checks that came to its end: every result but the last lets the loop go
    on, and the last one stops it or belongs to the last check. *)
Inductive Stopped (keep_going : bool) : list _Result -> nat -> Prop :=
| stopped_end : Stopped keep_going [] 0
| stopped_halt r len :
    continuing keep_going r = false -> Stopped keep_going [r] (S len)
| stopped_go r rs len :
    continuing keep_going r = true -> Stopped keep_going rs len ->
    Stopped keep_going (r :: rs) (S len).

Definition count (x : _Result) (rs : list _Result) : Z :=
  Z.of_nat (List.length (List.filter (_Result_eqb x) rs)).

Definition planned (env : Env) (self : Presubmit)
           (program : list (_Check * list Path))
  : list (_Check * PresubmitContext) :=
  map (fun cp => (fst cp, context_for env self (fst cp) (snd cp))) program.

Definition one_parameter : list Param := [mkParam POSITIONAL_OR_KEYWORD false].

Definition fA : Callable := mkCallable 1 "A" one_parameter.
Definition fB : Callable := mkCallable 2 "B" one_parameter.
Definition fC : Callable := mkCallable 3 "C" one_parameter.

(** The program [A(pass), B(fail), C(pass)]. *)
Definition abc_program : list ProgramItem := [Plain fA; Plain fB; Plain fC].

Definition abc_env : Env :=
  mkEnv (mkPath true ["home"%string])
        (fun f _ _ => if (__name__ f =? "B")%string
                      then Raises (PresubmitFailure_init "B failed" None)
                      else Returns).

Definition invoked_names (tr : Trace) : list string :=
  map (fun ci => name (fst ci)) (invoked_of tr).

Definition abc_run (keep_going : bool) : Outcome bool * Trace :=
  run (re := Fragment.engine) abc_env sample_presubmit abc_program keep_going [].

Definition abc_checks : list (_Check * list Path) :=
  [(_Check_init 1 fA _PathFilter_default true, []);
   (_Check_init 2 fB _PathFilter_default true, []);
   (_Check_init 3 fC _PathFilter_default true, [])].

Definition cancel_env : Env :=
  mkEnv (mkPath true ["home"%string])
        (fun f _ _ => if (__name__ f =? "B")%string
                      then Raises KeyboardInterrupt else Returns).

(** The condition under which [_map_checks_to_paths] records a check. *)
Definition keeps (subset : list Path) (c : _Check) : bool :=
  negb (is_empty subset) || always_run c.

(** Resolution as the specification words it: every check resolves its own
    filter, and the checks without paths that are not [always_run] are
    dropped. *)
Definition resolve_independently {re : ReEngine} (checks : list _Check)
           (paths : list Path) : Outcome (list (_Check * list Path)) :=
  obind (omap (fun c => obind (filtered_paths (path_filter c) paths)
                              (fun subset => Normal (c, subset))) checks)
        (fun resolved =>
           Normal (List.filter (fun cp => keeps (snd cp) (fst cp)) resolved)).

Definition mem (c : _Check) (cs : list _Check) : bool :=
  if in_dec _Check_eq_dec c cs then true else false.

(** The check is in one of the groups. *)
Definition grouped (items : dict _PathFilter (list _Check)) (c : _Check) : bool :=
  existsb (fun fc => mem c (snd fc)) items.

(** Every group holds checks of its own filter. *)
Definition consistent (items : dict _PathFilter (list _Check)) : Prop :=
  forall f cs, In (f, cs) items -> forall c, In c cs -> path_filter c = f.

Definition add_key (ks : list _PathFilter) (f : _PathFilter) : list _PathFilter :=
  if in_dec _PathFilter_eq_dec f ks then ks else ks ++ [f].

Section GroupingDefinitions.
Context {re : ReEngine}.
Variable paths : list Path.

(** The first error that resolving the filters in turn raises. *)
Fixpoint first_error (fs : list _PathFilter) : option Exc :=
  match fs with
  | [] => None
  | f :: fs' =>
      match filtered_paths f paths with
      | Propagates e => Some e
      | Normal _ => first_error fs'
      end
  end.

Definition subset_of (f : _PathFilter) : list Path :=
  match filtered_paths f paths with
  | Normal subset => subset
  | Propagates _ => []
  end.

Definition kept (checks : list _Check) : list (_Check * list Path) :=
  List.filter (fun cp => keeps (snd cp) (fst cp))
              (map (fun c => (c, subset_of (path_filter c))) checks).

End GroupingDefinitions.

(** Two checks with equal filters that are not the same object. *)
Definition header_check : _Check :=
  mk_Check 10 fA (mk_PathFilter [".h"%string] []) false.
Definition header_check' : _Check :=
  mk_Check 11 fB (mk_PathFilter [".h"%string] []) true.
Definition source_check : _Check :=
  mk_Check 12 fC (mk_PathFilter [".py"%string] []) false.

Definition always_check : _Check :=
  mk_Check 13 fC (mk_PathFilter [".py"%string] []) true.

(* ------------------------------------------------------------------ *)
(** ** Notions used in the further properties *)

(** The events that a check leaves between its call and the removal of its
    log. *)
Definition tail_event (e : Event) : bool :=
  match e with
  | LogWarning _ | LogException _ _ | PrintLine | Finished _ _ => true
  | _ => false
  end.

(** The events of one iteration of the loop of [_execute_checks], given the
    events [tail] that follow the call. *)
Definition block (env : Env) (self : Presubmit) (total i : nat)
           (cp : _Check * list Path) (tail : list Event) : list Event :=
  [Makedirs (check_directory self (name (fst cp)));
   OpenLog (log_file self (name (fst cp)));
   Started (fst cp) i total (List.length (snd cp));
   Invoke (fst cp) (context_for env self (fst cp) (snd cp))]
  ++ tail ++ [RemoveHandler (log_file self (name (fst cp)))].

Fixpoint blocks (env : Env) (self : Presubmit) (total i : nat)
         (program : list (_Check * list Path)) (tails : list (list Event))
  : list Event :=
  match program, tails with
  | cp :: program', tail :: tails' =>
      block env self total i cp tail ++ blocks env self total (S i) program' tails'
  | _, _ => []
  end.

(** The discipline of the log handlers. [attached] is the log that is
    attached before the events; the result is the log attached after them,
    or [None] when a log is opened while another is attached, a log is
    removed that is not the attached one, or a check is announced, called or
    logs while no log is attached. *)
Fixpoint handlers (attached : option Path) (tr : Trace) : option (option Path) :=
  match tr with
  | [] => Some attached
  | e :: tr' =>
      match e with
      | OpenLog f =>
          match attached with
          | None => handlers (Some f) tr'
          | Some _ => None
          end
      | RemoveHandler f =>
          match attached with
          | Some g => if Path_eq_dec f g then handlers None tr' else None
          | None => None
          end
      | Makedirs _ | Summary _ _ _ => handlers attached tr'
      | _ =>
          match attached with
          | Some _ => handlers attached tr'
          | None => None
          end
      end
  end.

(** The calls of a trace, each with the log that is attached when it is
    made. *)
Fixpoint calls_with_log (attached : option Path) (tr : Trace)
  : list (_Check * option Path) :=
  match tr with
  | [] => []
  | OpenLog f :: tr' => calls_with_log (Some f) tr'
  | RemoveHandler _ :: tr' => calls_with_log None tr'
  | Invoke c _ :: tr' => (c, attached) :: calls_with_log attached tr'
  | _ :: tr' => calls_with_log attached tr'
  end.

(** What the upper boxes of a trace announce: the check, its index, the
    total and the number of files. *)
Definition announced_of (tr : Trace) : list (_Check * nat * nat * nat) :=
  flat_map (fun e => match e with
                     | Started c count total files => [(c, count, total, files)]
                     | _ => []
                     end) tr.

(** The announcements of the first checks of a program, numbered from [i]. *)
Fixpoint numbered (total i : nat) (program : list (_Check * list Path))
  : list (_Check * nat * nat * nat) :=
  match program with
  | [] => []
  | cp :: program' =>
      (fst cp, i, total, List.length (snd cp)) :: numbered total (S i) program'
  end.

(** Whether the string holds two underscores in a row. *)
Fixpoint has_double_underscore (s : string) : bool :=
  match s with
  | String a ((String b _) as s') =>
      ((a =? "_")%char && (b =? "_")%char) || has_double_underscore s'
  | _ => false
  end.

(** Whether the first character of the string, if any, satisfies [cls]. *)
Definition starts_in (cls : ascii -> bool) (s : string) : bool :=
  match s with
  | EmptyString => false
  | String c _ => cls c
  end.

(** Every character of [cls] in the string is an underscore that no
    character of [cls] follows. *)
Fixpoint collapsed (cls : ascii -> bool) (s : string) : bool :=
  match s with
  | EmptyString => true
  | String c s' =>
      (if cls c then (c =? "_")%char && negb (starts_in cls s') else true)
      && collapsed cls s'
  end.

Definition flaky_env : Env :=
  mkEnv (mkPath true ["home"%string])
        (fun f _ _ => if (__name__ f =? "C")%string then Returns
                      else Raises (ExceptionSubclass "ValueError" "bad")).

(** A check function that reports a path without a description. *)
Definition reporting_env (p : Path) : Env :=
  mkEnv (mkPath true ["home"%string])
        (fun _ _ _ => Raises (PresubmitFailure_init "" (Some (APath p)))).

Definition keyword_only_function : Callable :=
  mkCallable 6 "keyword_only" [mkParam KEYWORD_ONLY false].

Definition broken_check : _Check :=
  mk_Check 14 fA (mk_PathFilter [".rs"%string] ["*"%string]) false.

(* ------------------------------------------------------------------ *)
(** ** Words and summaries *)

(** [str(n)] of an integer. *)
Definition decimal (n : Z) : string := NilZero.string_of_int (Z.to_int n).

(** The first argument of [plural]: an object with a length, known by its
    length, or a count. *)
Inductive ItemsOrCount : Type :=
| Items (len : nat)
| Count (n : Z).

(** [s[:-1]]. *)
Fixpoint drop_last (s : string) : string :=
  match s with
  | EmptyString => EmptyString
  | String c s' =>
      match s' with
      | EmptyString => EmptyString
      | _ => String c (drop_last s')
      end
  end.

(** [plural(items_or_count, singular, count_format)]; [render] is the
    formatting [f'{count:{count_format}}'] of the count, which is [decimal]
    for the default [count_format]. *)
Definition plural (render : Z -> string) (items_or_count : ItemsOrCount)
           (singular : string) : string :=
  let count := match items_or_count with
               | Items len => Z.of_nat len
               | Count n => n
               end in
  let num := render count in
  if Str.endswith singular "y"
  then num ++ " " ++ drop_last singular ++ (if (count =? 1)%Z then "y" else "ies")
  else if Str.endswith singular "s"
  then num ++ " " ++ singular ++ (if (count =? 1)%Z then "" else "es")
  else num ++ " " ++ singular ++ (if (count =? 1)%Z then "" else "s").

(** The local [summary] of [Presubmit._log_summary]. *)
Definition summary_of (passed failed skipped : Z) : string :=
  let summary_items :=
    (if (passed =? 0)%Z then [] else [(decimal passed ++ " passed")%string])
    ++ (if (failed =? 0)%Z then [] else [(decimal failed ++ " failed")%string])
    ++ (if (skipped =? 0)%Z then [] else [(decimal skipped ++ " not run")%string]) in
  let joined := Str.join ", " summary_items in
  if (joined =? "")%string then "nothing was done" else joined.

(** What [Presubmit._log_summary] puts in the summary box: the result shown
    on the left and the text in the middle (the elapsed time on the right
    and the drawing of the box are left out). *)
Record SummaryBox : Type := mkSummaryBox {
  box_result : _Result;
  box_text : string
}.

Definition _log_summary (self : Presubmit) (passed failed skipped : Z)
  : SummaryBox :=
  let result := if negb (failed =? 0)%Z || negb (skipped =? 0)%Z
                then FAIL else PASS in
  let total := (passed + failed + skipped)%Z in
  {| box_result := result;
     box_text := decimal total ++ " checks on "
                 ++ plural decimal (Items (List.length (_paths self))) "file"
                 ++ ": " ++ summary_of passed failed skipped |}.

(* ------------------------------------------------------------------ *)
(** ** Git and the file system

    What the module asks of git and of [os.path], given from outside: the
    lines that the two git listings print (turned into absolute paths, as
    [_git_ls_files] and [git_diff_names] return them) and [os.path.abspath]. *)

Record System : Type := mkSystem {
  _git_ls_files : list string -> string -> list string;
  git_diff_names : string -> list string -> string -> list string;
  abspath : string -> string
}.

(** [p[:p.rfind('/') + 1]]: the string up to its last slash, included. *)
Fixpoint upto_last_slash (p : string) : string :=
  match p with
  | EmptyString => EmptyString
  | String c p' =>
      if (c =? "/")%char || negb (string_forallb (fun x => negb (x =? "/")%char) p')
      then String c (upto_last_slash p')
      else EmptyString
  end.

(** [s.rstrip('/')]. *)
Fixpoint rstrip_slash (s : string) : string :=
  match s with
  | EmptyString => EmptyString
  | String c s' =>
      match rstrip_slash s' with
      | EmptyString => if (c =? "/")%char then EmptyString else String c EmptyString
      | r => String c r
      end
  end.

(** [os.path.dirname] of [posixpath]. *)
Definition dirname (p : string) : string :=
  let head := upto_last_slash p in
  if negb (head =? "")%string && negb (string_forallb (fun x => (x =? "/")%char) head)
  then rstrip_slash head
  else head.

(** [max] of a non-empty sequence of strings: a later element replaces the
    current one when it is greater. *)
Definition max_string (first : string) (rest : list string) : string :=
  fold_left (fun best x => if String.ltb best x then x else best) rest first.

(** [max(setup for setup in setup_pys if path.startswith(setup))]; [None]
    when the sequence is empty and [max] raises [ValueError]. *)
Definition best_setup (setup_pys : list string) (path : string) : option string :=
  match List.filter (Str.startswith path) setup_pys with
  | [] => None
  | first :: rest => Some (max_string first rest)
  end.

(** [package_dirs[key].append(path)] on a [defaultdict(list)]. *)
Definition append_path (package_dirs : dict string (list string))
           (key path : string) : dict string (list string) :=
  set string_dec package_dirs key
      (match get string_dec package_dirs key with
       | Some l => l ++ [path]
       | None => [path]
       end).

(** The loop of [find_python_packages]. *)
Definition file_package (sys : System) (setup_pys : list string)
           (package_dirs : dict string (list string)) (path : string)
  : dict string (list string) :=
  match best_setup setup_pys path with
  | Some setup_dir => append_path package_dirs (abspath sys setup_dir) path
  | None => package_dirs
  end.

Definition setup_dirs (sys : System) (repo : string) : list string :=
  map dirname (_git_ls_files sys ["setup.py"; "*/setup.py"]%string repo).

(** [find_python_packages(python_paths, repo)]. *)
Definition find_python_packages (sys : System) (python_paths : list string)
           (repo : string) : dict string (list string) :=
  fold_left (file_package sys (setup_dirs sys repo))
            (map (abspath sys) python_paths) [].

(** A system with two packages, one inside the other. *)
Definition nested_packages : System :=
  mkSystem (fun _ _ => ["/repo/setup.py"; "/repo/pw_cli/py/setup.py"]%string)
           (fun _ _ _ => [])
           (fun p => p).

(* ------------------------------------------------------------------ *)
(** ** Listing the files *)

(** What [pathlib] compares paths by: the root, if any, then the
    components. *)
Definition cparts (p : Path) : list string :=
  (if has_root p then ["/"%string] else []) ++ parts p.

(** The order of Python lists of strings. *)
Fixpoint list_compare (a b : list string) : comparison :=
  match a, b with
  | [], [] => Eq
  | [], _ :: _ => Lt
  | _ :: _, [] => Gt
  | x :: a', y :: b' =>
      match (x ?= y)%string with
      | Eq => list_compare a' b'
      | c => c
      end
  end.

(** [p < q] on paths. *)
Definition Path_ltb (p q : Path) : bool :=
  match list_compare (cparts p) (cparts q) with
  | Lt => true
  | _ => false
  end.

Definition Path_le (p q : Path) : Prop := Path_ltb q p = false.

Fixpoint insert_sorted (p : Path) (l : list Path) : list Path :=
  match l with
  | [] => [p]
  | q :: l' => if Path_ltb p q then p :: q :: l' else q :: insert_sorted p l'
  end.

(** [sorted(s)] for a set [s] of paths, given by its elements. *)
Definition sorted (l : list Path) : list Path := fold_right insert_sorted [] l.

(** The files that [list_git_files] starts from: those of [git diff] when a
    commit is given (and is not the empty string), those of [git ls-files]
    otherwise. *)
Definition listed_files (sys : System) (commit : option string)
           (paths : list string) (repo : string) : list string :=
  match commit with
  | Some c => if (c =? "")%string then _git_ls_files sys paths repo
              else git_diff_names sys c paths repo
  | None => _git_ls_files sys paths repo
  end.

(** [list_git_files(commit, paths, exclude, repo)]; [exclude] holds compiled
    patterns. *)
Definition list_git_files {re : ReEngine} (sys : System)
           (commit : option string) (paths : list string)
           (exclude : list Pattern) (repo : string) : list Path :=
  sorted
    (nodup Path_eq_dec
       (map Path_of
          (List.filter
             (fun path => negb (existsb (fun exp => search exp path) exclude))
             (listed_files sys commit paths repo)))).

Definition sample_system : System :=
  mkSystem (fun _ _ => ["/repo/src/b.py"; "/repo/docs/generated/a.md";
                        "/repo/src/a.py"; "/repo/src/b.py"]%string)
           (fun _ _ _ => ["/repo/src/a.py"]%string)
           (fun p => p).

Definition generated_pattern : list (list Fragment.item) :=
  match compile (ReEngine := Fragment.engine) "generated" with
  | Some pat => [pat]
  | None => []
  end.

(* ------------------------------------------------------------------ *)
(** ** The check [pragma_once] *)

(** A text file as the check reads it: it opens or not, and reading its
    lines in turn gives a line or fails. *)
Inductive FileLine : Type :=
| Line (text : string)
| ReadError (e : Exc).

Inductive FileState : Type :=
| CannotOpen (e : Exc)
| Opened (lines : list FileLine).

(** How the loop [for line in file] of [pragma_once] ends: by [break], by
    its [else] branch, or by an error. *)
Inductive Scan : Type :=
| Found
| Missing
| Failed (e : Exc).

Fixpoint scan (lines : list FileLine) : Scan :=
  match lines with
  | [] => Missing
  | ReadError e :: _ => Failed e
  | Line text :: rest =>
      if Str.startswith text "#pragma once" then Found else scan rest
  end.

(** The body of [pragma_once], on the paths of its context. *)
Fixpoint pragma_once_body (fs : Path -> FileState) (paths : list Path) : Raised :=
  match paths with
  | [] => Returns
  | path :: rest =>
      match fs path with
      | CannotOpen e => Raises e
      | Opened lines =>
          match scan lines with
          | Found => pragma_once_body fs rest
          | Missing =>
              Raises (PresubmitFailure_init "#pragma once is missing!"
                                            (Some (APath path)))
          | Failed e => Raises e
          end
      end
  end.

Definition pragma_once_function : Callable :=
  mkCallable 0 "pragma_once" [mkParam POSITIONAL_OR_KEYWORD false].

(** The check that [@filter_paths(endswith='.h')] makes of it. *)
Definition pragma_once (addr : nat) : _Check :=
  _Check_init addr pragma_once_function (mk_PathFilter [".h"%string] []) false.

(** The header has its pragma. *)
Definition header_ok (fs : Path -> FileState) (path : Path) : Prop :=
  exists lines, fs path = Opened lines /\ scan lines = Found.

Definition sample_files (p : Path) : FileState :=
  if (str p =? "/repo/a.h")%string
  then Opened [Line "// header"; Line "#pragma once"; ReadError (ExceptionSubclass "UnicodeDecodeError" "")]
  else if (str p =? "/repo/b.h")%string
  then Opened [Line "#include <x>"]
  else CannotOpen (ExceptionSubclass "FileNotFoundError" (str p)).


(* ------------------------------------------------------------------ *)
(** ** [run_presubmit] *)

(** What [run_presubmit] asks of git and of the file system about the
    repository: whether it is one, its root, and whether the root and the
    given directory are the same file. (The git commands are taken to
    succeed inside a repository.) *)
Record Repository : Type := mkRepository {
  is_git_repo : string -> bool;
  git_repo_path : string -> Path;
  samefile : Path -> string -> bool
}.

(** The log records of [run_presubmit] itself. *)
Inductive Notice : Type :=
| Critical (message : string)
| Info (subdirectory root : Path).

Fixpoint list_prefix (a b : list string) : bool :=
  match a, b with
  | [], _ => true
  | x :: a', y :: b' => (x =? y)%string && list_prefix a' b'
  | _ :: _, [] => false
  end.

(** [path.relative_to(other)]. *)
Definition relative_to (path other : Path) : Outcome Path :=
  if Bool.eqb (has_root path) (has_root other)
     && list_prefix (parts other) (parts path)
  then Normal {| has_root := false;
                 parts := skipn (List.length (parts other)) (parts path) |}
  else Propagates (ExceptionSubclass "ValueError"
                     (str path ++ " does not start with " ++ str other)).

(** [Path(output_directory)] for a path or a string. *)
Definition to_Path (p : PathOrStr) : Path :=
  match p with
  | APath q => q
  | AStr s => Path_of s
  end.

(** The [Presubmit] that [run_presubmit] builds. *)
Definition presubmit_of (root : Path) (output_directory : option PathOrStr)
           (files : list Path) : Presubmit :=
  {| _repository_root := root;
     _output_directory :=
       match output_directory with
       | Some d => if truthy output_directory then to_Path d
                   else joinpath root (Path_of ".presubmit")
       | None => joinpath root (Path_of ".presubmit")
       end;
     _paths := files |}.

(** [run_presubmit(program, base, paths, exclude, repository,
    output_directory, keep_going)]: the outcome and the trace of the run,
    and the records that [run_presubmit] logs before it. *)
Definition run_presubmit {re : ReEngine} (sys : System) (repo : Repository)
           (env : Env) (program : list ProgramItem) (base : option string)
           (paths : list string) (exclude : list Pattern) (repository : string)
           (output_directory : option PathOrStr) (keep_going : bool)
           (tr : Trace) : (Outcome bool * Trace) * list Notice :=
  if negb (is_git_repo repo repository)
  then ((Normal false, tr),
        [Critical "Presubmit checks must be run from a Git repo"])
  else
    let files := list_git_files sys base paths exclude repository in
    let root := git_repo_path repo repository in
    match (if samefile repo root repository then Normal []
           else obind (relative_to (cwd env) root)
                      (fun subdirectory => Normal [Info subdirectory root])) with
    | Propagates e => ((Propagates e, tr), [])
    | Normal notices =>
        match omap (fun path => relative_to path root) files with
        | Propagates e => ((Propagates e, tr), notices)
        | Normal files =>
            (run env (presubmit_of root output_directory files)
                 program keep_going tr,
             notices)
        end
    end.

Definition sample_repository : Repository :=
  mkRepository (fun _ => true) (fun _ => mkPath true ["repo"%string])
               (fun _ _ => true).

Definition other_repository : Repository :=
  mkRepository (fun _ => true) (fun _ => mkPath true ["elsewhere"%string])
               (fun _ _ => true).

(* ------------------------------------------------------------------ *)
(** ** [file_summary] *)

(** [s.rfind(c)] for a character [c]: the last position of [c], if any. *)
Fixpoint rfind (c : ascii) (s : string) : option nat :=
  match s with
  | EmptyString => None
  | String a s' =>
      match rfind c s' with
      | Some i => Some (S i)
      | None => if (a =? c)%char then Some 0 else None
      end
  end.

(** [path.suffix]: the last component from its last dot on, unless the dot
    is its first or its last character. *)
Definition suffix (path : Path) : string :=
  let name := last (parts path) ""%string in
  match rfind "." name with
  | Some i =>
      if ((0 <? i) && (i <? String.length name - 1))%nat
      then substring i (String.length name - i)%nat name
      else ""%string
  | None => ""%string
  end.

(** [path.parents]: the path without its last component, and so on up to
    the anchor. *)
Definition parents (path : Path) : list Path :=
  map (fun k => {| has_root := has_root path; parts := firstn k (parts path) |})
      (rev (seq 0 (List.length (parts path)))).

(** A [collections.Counter] with string keys. *)
Definition Counter : Type := dict string Z.

(** [counter[elem]]: zero for a missing element. *)
Definition lookup (counter : Counter) (elem : string) : Z :=
  match get string_dec counter elem with
  | Some n => n
  | None => 0%Z
  end.

(** [sum(counter.values())]. *)
Definition values_sum (counter : Counter) : Z :=
  fold_right Z.add 0%Z (map snd counter).

(** [del counter[elem]], which does nothing for a missing element. *)
Definition del (counter : Counter) (elem : string) : Counter :=
  List.filter (fun ec => negb (fst ec =? elem)%string) counter.

(** [Counter.__add__]: the counts are added and the positive ones kept;
    the elements of the first counter come first. *)
Definition Counter_add (self other : Counter) : Counter :=
  let result :=
    fold_left (fun result ec =>
                 let newcount := (snd ec + lookup other (fst ec))%Z in
                 if (0 <? newcount)%Z then set string_dec result (fst ec) newcount
                 else result)
              self [] in
  fold_left (fun result ec =>
               if match get string_dec self (fst ec) with
                  | Some _ => false
                  | None => true
                  end && (0 <? snd ec)%Z
               then set string_dec result (fst ec) (snd ec)
               else result)
            other result.

(** A stable sort: [x] is put before the first element that does not come
    strictly before it. *)
Fixpoint insert_by {A} (lt : A -> A -> bool) (x : A) (l : list A) : list A :=
  match l with
  | [] => [x]
  | y :: l' => if lt y x then y :: insert_by lt x l' else x :: y :: l'
  end.

Definition sorted_by {A} (lt : A -> A -> bool) (l : list A) : list A :=
  fold_right (insert_by lt) [] l.

(** [counter.most_common(n)] for an integer [n]: the [n] entries with the
    largest counts, the earlier entry first among equal counts. *)
Definition most_common (n : Z) (counter : Counter) : list (string * Z) :=
  if (n <=? 0)%Z then []
  else firstn (Z.to_nat n)
              (sorted_by (fun a b => (snd b <? snd a)%Z) counter).

(** The slices [l[:k]] and [l[k:]]; a negative [k] counts from the end. *)
Definition slice_to {A} (k : Z) (l : list A) : list A :=
  if (0 <=? k)%Z then firstn (Z.to_nat k) l
  else firstn (Z.to_nat (Z.of_nat (List.length l) + k)) l.

Definition slice_from {A} (k : Z) (l : list A) : list A :=
  if (0 <=? k)%Z then skipn (Z.to_nat k) l
  else skipn (Z.to_nat (Z.of_nat (List.length l) + k)) l.

(** [s.ljust(width, fillchar)]. *)
Definition ljust (s : string) (width : nat) (fillchar : string)
  : Outcome string :=
  match fillchar with
  | String c EmptyString =>
      Normal (s ++ string_of_list_ascii
                     (repeat c (width - String.length s)%nat))%string
  | _ => Propagates
           (TypeError "The fill character must be exactly one character long")
  end.

(** One round of the first loop of [file_summary]. *)
Definition tally (levels : Z) (all_counts : dict Path Counter) (path : Path)
  : Outcome (dict Path Counter) :=
  let index := Z.max (Z.of_nat (List.length (parents path)) - levels) 0 in
  match nth_error (parents path) (Z.to_nat index) with
  | None => Propagates (ExceptionSubclass "IndexError" (decimal index))
  | Some parent =>
      let counter := match get Path_eq_dec all_counts parent with
                     | Some counter => counter
                     | None => []
                     end in
      Normal (set Path_eq_dec all_counts parent
                  (set string_dec counter (suffix path)
                       (lookup counter (suffix path) + 1)%Z))
  end.

Fixpoint count_all (levels : Z) (paths : list Path)
         (all_counts : dict Path Counter) : Outcome (dict Path Counter) :=
  match paths with
  | [] => Normal all_counts
  | path :: rest => obind (tally levels all_counts path) (count_all levels rest)
  end.

(** The local [counts] of [file_summary], with the directories already
    turned into text, as every later use does. The directories of
    [all_counts] are distinct, so sorting the items compares the
    directories only. *)
Definition condensed (max_lines : Z) (all_counts : dict Path Counter)
  : list (string * Counter) :=
  if (max_lines <? Z.of_nat (List.length all_counts))%Z
  then
    let counts :=
      sorted_by (fun a b => (- values_sum (snd a) <? - values_sum (snd b))%Z)
                all_counts in
    let others := slice_from (max_lines - 1) counts in
    let counts :=
      sorted_by (fun a b => Path_ltb (fst a) (fst b))
                (slice_to (max_lines - 1) counts) in
    map (fun dc => (str (fst dc), snd dc)) counts
    ++ [(("(" ++ plural decimal (Items (List.length others)) "other" ++ ")")
           %string,
         fold_left Counter_add (map snd others) [])]
  else
    map (fun dc => (str (fst dc), snd dc))
        (sorted_by (fun a b => Path_ltb (fst a) (fst b)) all_counts).

(** The local [types] of [file_summary]; [total] counts the files without an
    extension too, [files] does not. *)
Definition types_of (max_types total : Z) (files : Counter) : string :=
  match files with
  | [] => ""
  | _ =>
      let extensions := most_common max_types files in
      let other_extensions :=
        (total - fold_right Z.add 0 (map snd extensions))%Z in
      let extensions :=
        if (other_extensions =? 0)%Z then extensions
        else extensions ++ [("other"%string, other_extensions)] in
      (" (" ++ Str.join ", "
                        (map (fun ec => decimal (snd ec) ++ " " ++ fst ec)
                             extensions) ++ ")")%string
  end.

(** One round of the second loop of [file_summary]. *)
Definition summary_line (max_types : Z) (pad pad_start pad_end : string)
           (width : nat) (entry : string * Counter) : Outcome string :=
  let total := values_sum (snd entry) in
  let files := del (snd entry) "" in
  let types := types_of max_types total files in
  obind (ljust (fst entry ++ "/" ++ pad_start) width pad)
        (fun root =>
           Normal (root ++ pad_end ++ plural decimal (Count total) "file"
                        ++ types)%string).

(** The local [width] of [file_summary]. *)
Definition width_of (pad_start : string) (counts : list (string * Counter))
  : nat :=
  (match counts with
   | [] => 0
   | _ => list_max (map (fun dc => String.length (fst dc) + 1) counts)
   end + String.length pad_start)%nat.

(** [file_summary(paths, levels, max_lines, max_types, pad, pad_start,
    pad_end)]; the defaults are 2, 12, 3 and three single spaces. *)
Definition file_summary (paths : list Path) (levels max_lines max_types : Z)
           (pad pad_start pad_end : string) : Outcome (list string) :=
  obind (count_all levels paths [])
        (fun all_counts =>
           let counts := condensed max_lines all_counts in
           omap (summary_line max_types pad pad_start pad_end
                              (width_of pad_start counts))
                counts).

(** The number of files that the entries of a summary account for. *)
Definition files_of {K} (counts : list (K * Counter)) : Z :=
  fold_right Z.add 0%Z (map (fun dc => values_sum (snd dc)) counts).

(** A counter as counting builds it: its elements are distinct and their
    counts positive. *)
Definition counted (counter : Counter) : Prop :=
  NoDup (map fst counter) /\ Forall (fun ec => (0 < snd ec)%Z) counter.

(* ================================================================== *)
(** * Properties *)

(* ------------------------------------------------------------------ *)
(** ** Strings *)

Lemma endswith_nil (e : string) :
  Str.endswith "" e = (("" =? e)%string || false).
Proof. reflexivity. Qed.

Lemma endswith_cons (c : ascii) (s e : string) :
  Str.endswith (String c s) e = ((String c s =? e)%string || Str.endswith s e).
Proof. reflexivity. Qed.

Lemma endswith_spec (s e : string) :
  Str.endswith s e = true <-> exists pre, s = (pre ++ e)%string.
Proof.
  induction s as [|c s IH].
  - rewrite endswith_nil, orb_false_r, String.eqb_eq. split.
    + intros <-. now exists ""%string.
    + intros [pre H]. destruct pre; simpl in H; [assumption | discriminate].
  - rewrite endswith_cons, orb_true_iff, String.eqb_eq, IH. split.
    + intros [<- | [pre ->]].
      * now exists ""%string.
      * now exists (String c pre).
    + intros [pre H]. destruct pre as [|c' pre]; simpl in H.
      * now left.
      * right. exists pre. now inversion H.
Qed.

Lemma append_empty_r (s : string) : (s ++ "")%string = s.
Proof. induction s; simpl; congruence. Qed.

Lemma endswith_empty (s : string) : Str.endswith s "" = true.
Proof. apply endswith_spec. exists s. now rewrite append_empty_r. Qed.

(** *** Maximal runs *)

Lemma runs_cons (P : ascii -> bool) (c : ascii) (s : string) :
  Str.runs P (String c s) =
  match Str.runs P s with
  | (b, r) :: rest =>
      if Bool.eqb b (P c) then (b, String c r) :: rest
      else (P c, String c EmptyString) :: (b, r) :: rest
  | [] => [(P c, String c EmptyString)]
  end.
Proof. reflexivity. Qed.

Lemma runs_concat (P : ascii -> bool) (s : string) :
  fold_right (fun br acc => (snd br ++ acc)%string) EmptyString (Str.runs P s) = s.
Proof.
  induction s as [|c s IH]; [reflexivity|].
  rewrite runs_cons. destruct (Str.runs P s) as [|[b r] rest].
  - simpl in *. now rewrite <- IH.
  - destruct (Bool.eqb b (P c)); simpl in *; now rewrite IH.
Qed.

Lemma runs_uniform (P : ascii -> bool) (s : string) :
  Forall (uniform P) (Str.runs P s).
Proof.
  induction s as [|c s IH]; [constructor|].
  rewrite runs_cons. destruct (Str.runs P s) as [|[b r] rest].
  - constructor; [|constructor]. split; [discriminate|].
    simpl. now rewrite eqb_reflx.
  - destruct (Bool.eqb b (P c)) eqn:E.
    + inversion IH as [|? ? [_ Hu] Hrest]; subst. constructor; [|assumption].
      split; [discriminate|]. simpl in *.
      apply eqb_prop in E. subst b. now rewrite eqb_reflx.
    + constructor; [|assumption]. split; [discriminate|].
      simpl. now rewrite eqb_reflx.
Qed.

Lemma runs_alternating (P : ascii -> bool) (s : string) :
  alternating (Str.runs P s).
Proof.
  induction s as [|c s IH]; [exact I|].
  rewrite runs_cons. destruct (Str.runs P s) as [|[b r] rest] eqn:R.
  - exact I.
  - destruct (Bool.eqb b (P c)) eqn:E.
    + destruct rest as [|[b2 r2] rest]; [exact I|]. exact IH.
    + split; [|exact IH]. intros H. rewrite H, eqb_reflx in E. discriminate.
Qed.

(** The scanning replacement of the code is the collapse of the maximal
    runs. *)
Lemma sub_class_plus_runs (P : ascii -> bool) (s : string) (b : bool) :
  Str.sub_class_plus P "_" b s =
  match Str.runs P s with
  | (true, _) :: rest => ((if b then "" else "_") ++ Str.render rest)%string
  | l => Str.render l
  end.
Proof.
  revert b. induction s as [|c s IH]; intros b; [reflexivity|].
  rewrite runs_cons. simpl Str.sub_class_plus.
  destruct (P c) eqn:Pc.
  - assert (H : Str.sub_class_plus P "_" true s =
                match Str.runs P s with
                | (true, _) :: rest => Str.render rest
                | l => Str.render l
                end).
    { rewrite IH. destruct (Str.runs P s) as [|[[] r] rest]; reflexivity. }
    destruct (Str.runs P s) as [|[[] r] rest]; simpl Bool.eqb; cbv iota;
      destruct b; simpl; rewrite H; reflexivity.
  - rewrite IH.
    destruct (Str.runs P s) as [|[[] r] rest]; simpl; reflexivity.
Qed.

Lemma sub_class_plus_collapse (P : ascii -> bool) (s : string) :
  Str.sub_class_plus P "_" false s = Str.collapse_runs P s.
Proof.
  rewrite sub_class_plus_runs. unfold Str.collapse_runs.
  destruct (Str.runs P s) as [|[[] r] rest]; reflexivity.
Qed.

Lemma sub_class_plus_ext (P Q : ascii -> bool) (repl : string) :
  (forall c, P c = Q c) ->
  forall s b, Str.sub_class_plus P repl b s = Str.sub_class_plus Q repl b s.
Proof.
  intros H. induction s as [|c s IH]; intros b; [reflexivity|].
  simpl. rewrite H, !IH. reflexivity.
Qed.

(** *** Character classes *)

Ltac all_chars c := destruct c as [[] [] [] [] [] [] [] []].

(** The class [[\W_]] of the sanitization is the class of the characters that
    are not alphanumeric. *)
Lemma class_W_underscore (c : ascii) :
  negb (Str.is_word c) || (c =? "_")%char = negb (Str.isalnum c).
Proof. all_chars c; reflexivity. Qed.

Lemma lower_char_word (c : ascii) :
  Str.is_word c = true -> Str.is_word (Str.lower_char c) = true.
Proof. all_chars c; vm_compute; intros H; exact H || reflexivity. Qed.

Lemma word_not_separator (c : ascii) :
  Str.is_word c = true -> (c =? "/")%char = false /\ (c =? ".")%char = false.
Proof. all_chars c; vm_compute; intros H; (split; reflexivity) || discriminate H. Qed.

Lemma lower_forall_word (s : string) :
  string_forallb Str.is_word s = true ->
  string_forallb Str.is_word (Str.lower s) = true.
Proof.
  induction s as [|c s IH]; [reflexivity|]. simpl.
  rewrite !andb_true_iff. intros [Hc Hs]. split; [now apply lower_char_word | auto].
Qed.

Lemma sub_forall_word (s : string) (b : bool) :
  string_forallb Str.is_word
    (Str.sub_class_plus (fun c => negb (Str.is_word c) || (c =? "_")%char)
                        "_" b s) = true.
Proof.
  revert b. induction s as [|c s IH]; intros b; [reflexivity|].
  simpl. destruct (negb (Str.is_word c) || (c =? "_")%char) eqn:E.
  - destruct b; [apply IH|]. simpl. apply IH.
  - simpl. rewrite IH, andb_true_r.
    apply orb_false_iff in E. destruct E as [E _].
    now apply negb_false_iff in E.
Qed.

(** The sanitized name is made of letters, digits and underscores only. *)
Lemma sanitized_name_word (name : string) :
  string_forallb Str.is_word (sanitized_name name) = true.
Proof. apply lower_forall_word, sub_forall_word. Qed.

Lemma sanitized_name_empty (name : string) :
  sanitized_name name = EmptyString <-> name = EmptyString.
Proof.
  split; [|intros ->; reflexivity].
  destruct name as [|c s]; [reflexivity|].
  unfold sanitized_name. simpl.
  destruct (negb (Str.is_word c) || (c =? "_")%char); discriminate.
Qed.

(* ------------------------------------------------------------------ *)
(** ** Paths *)

Lemma split_no_separator (s : string) :
  string_forallb (fun c => negb (c =? "/")%char) s = true ->
  Str.split "/" s = [s].
Proof.
  induction s as [|c s IH]; [reflexivity|].
  simpl. rewrite andb_true_iff, negb_true_iff. intros [Hc Hs].
  rewrite Hc, (IH Hs). reflexivity.
Qed.

Lemma string_forallb_impl (f g : ascii -> bool) (s : string) :
  (forall c, f c = true -> g c = true) ->
  string_forallb f s = true -> string_forallb g s = true.
Proof.
  intros H. induction s as [|c s IH]; [reflexivity|].
  simpl. rewrite !andb_true_iff. intros [Hc Hs]. auto.
Qed.

(** A non-empty name of letters, digits and underscores is one relative
    path component. *)
Lemma Path_of_word (s : string) :
  s <> EmptyString -> string_forallb Str.is_word s = true ->
  Path_of s = {| has_root := false; parts := [s] |}.
Proof.
  intros Hne Hw. unfold Path_of.
  rewrite split_no_separator.
  2:{ apply string_forallb_impl with (2 := Hw). intros c Hc.
      now destruct (word_not_separator c Hc) as [-> _]. }
  destruct s as [|c s]; [contradiction|].
  simpl in Hw. apply andb_true_iff in Hw. destruct Hw as [Hc _].
  destruct (word_not_separator c Hc) as [Hslash Hdot].
  f_equal.
  - unfold Str.startswith.
    change (prefix "/" (String c s))
      with (match ascii_dec "/" c with
            | left _ => prefix "" s
            | right _ => false
            end).
    destruct (ascii_dec "/" c) as [<-|]; [discriminate Hslash | reflexivity].
  - simpl. unfold is_component.
    replace (String c s =? ".")%string with false; [reflexivity|].
    symmetry. apply String.eqb_neq. intros H. inversion H. subst c.
    discriminate Hdot.
Qed.

(* ------------------------------------------------------------------ *)
(** ** Traces *)

Lemma invoked_of_app (a b : Trace) :
  invoked_of (a ++ b) = invoked_of a ++ invoked_of b.
Proof. apply flat_map_app. Qed.

Lemma results_of_app (a b : Trace) :
  results_of (a ++ b) = results_of a ++ results_of b.
Proof. apply flat_map_app. Qed.

Lemma contained_not_escaping (env : Env) (e : Exc) :
  contained env -> ~ escaping env e.
Proof.
  intros Hc (Hn & Hk & f & tr & ctx & Hb).
  destruct (Hc _ _ _ _ Hb) as [H|H]; congruence.
Qed.

Ltac norm_trace :=
  repeat rewrite <- app_assoc; simpl app.

Lemma run_one_spec (env : Env) (self : Presubmit) (check : _Check)
      (paths : list Path) (i total : nat) (tr : Trace) :
  exists new,
    snd (run_one env self check paths i total tr)
    = tr ++ Makedirs (check_directory self (name check))
         :: OpenLog (log_file self (name check)) :: new
    /\ invoked_of new = [(check, context_for env self check paths)]
    /\ ((exists r, fst (run_one env self check paths i total tr) = Normal r
                   /\ results_of new = [(check, r)])
        \/ (exists e, fst (run_one env self check paths i total tr) = Propagates e
                      /\ results_of new = [] /\ escaping env e)).
Proof.
  unfold run_one, _context, _Check_run, _call_function, try_except, call,
    finally, bind, emit, ret.
  fold (context_for env self check paths).
  destruct (binds_one_positional (parameters (_check check))).
  - match goal with
    | |- context [body env ?f ?t ?c] => destruct (body env f t c) as [|e] eqn:B
    end.
    + eexists. split; [norm_trace; reflexivity|].
      split; [reflexivity|]. left. eexists. split; reflexivity.
    + destruct e; simpl;
        try (eexists; split; [norm_trace; reflexivity|];
             split; [reflexivity|]; left; eexists; split; reflexivity).
      * destruct (message =? "")%string; simpl;
          eexists; (split; [norm_trace; reflexivity|]);
          (split; [reflexivity|]); left; eexists; split; reflexivity.
      * eexists. split; [norm_trace; reflexivity|].
        split; [reflexivity|]. right. eexists. split; [reflexivity|].
        split; [reflexivity|]. split; [reflexivity|]. split; [discriminate|].
        eauto.
  - simpl. eexists. split; [norm_trace; reflexivity|].
    split; [reflexivity|]. left. eexists. split; reflexivity.
Qed.

(* ------------------------------------------------------------------ *)
(** ** Log directory of a check *)

Lemma sub_class_plus_ext_in (P Q : ascii -> bool) (repl : string) (s : string) :
  string_forallb (fun c => Bool.eqb (P c) (Q c)) s = true ->
  forall b, Str.sub_class_plus P repl b s = Str.sub_class_plus Q repl b s.
Proof.
  induction s as [|c s IH]; intros H b; [reflexivity|].
  simpl in H. apply andb_true_iff in H. destruct H as [Hc Hs].
  apply eqb_prop in Hc. simpl. rewrite Hc, !(IH Hs). reflexivity.
Qed.

Lemma sanitized_name_collapse (name : string) :
  sanitized_name name
  = Str.lower (Str.collapse_runs (fun c => negb (Str.isalnum c)) name).
Proof.
  unfold sanitized_name. f_equal.
  rewrite <- sub_class_plus_collapse.
  apply sub_class_plus_ext. apply class_W_underscore.
Qed.

Lemma log_file_parts (self : Presubmit) (name : string) :
  has_root (log_file self name) = has_root (_output_directory self)
  /\ parts (log_file self name)
     = parts (_output_directory self)
         ++ List.filter is_component [sanitized_name name; "step.log"%string].
Proof.
  unfold log_file, check_directory.
  destruct (string_dec name "") as [->|Hne].
  - split; [reflexivity|]. unfold joinpath. simpl. now rewrite app_nil_r.
  - rewrite Path_of_word.
    + assert (C : is_component (sanitized_name name) = true).
      { pose proof (sanitized_name_word name) as W.
        pose proof (proj1 (sanitized_name_empty name)) as E.
        unfold is_component.
        destruct (sanitized_name name) as [|c s]; [now elim Hne; apply E|].
        simpl in W. apply andb_true_iff in W. destruct W as [Wc _].
        destruct (word_not_separator c Wc) as [_ Hdot].
        replace (String c s =? ".")%string with false; [reflexivity|].
        symmetry. apply String.eqb_neq. intros H. inversion H. subst c.
        discriminate Hdot. }
      simpl List.filter. rewrite C.
      unfold joinpath; simpl. rewrite <- app_assoc. split; reflexivity.
    + intros E. apply (proj1 (sanitized_name_empty _)) in E. contradiction.
    + apply sanitized_name_word.
Qed.

(** C9, as the code has it. Every executed check gets its directory created
    and its log opened at [<output_directory>/<sanitized_name>/step.log]; the
    sanitized name is the name with every maximal run of characters that are
    not alphanumeric (the underscore counts as such a character) collapsed
    into one underscore, then lower-cased, so that it is made of letters,
    digits and underscores; it agrees with the wording of the specification
    on the names without underscore, and a check named "My Check!!2" gets
    the directory "my_check_2". *)
Theorem log_file_of_sanitized_name (env : Env) (self : Presubmit)
        (check : _Check) (paths : list Path) (i total : nat) (tr : Trace) :
  (exists rest,
      snd (run_one env self check paths i total tr)
      = tr ++ Makedirs (check_directory self (name check))
           :: OpenLog (log_file self (name check)) :: rest)
  /\ has_root (log_file self (name check)) = has_root (_output_directory self)
  /\ parts (log_file self (name check))
     = parts (_output_directory self)
         ++ List.filter is_component
              [sanitized_name (name check); "step.log"%string]
  /\ (name check <> EmptyString ->
      parts (log_file self (name check))
      = parts (_output_directory self)
          ++ [sanitized_name (name check); "step.log"%string])
  /\ sanitized_name (name check)
     = Str.lower (Str.collapse_runs (fun c => negb (Str.isalnum c)) (name check))
  /\ string_forallb Str.is_word (sanitized_name (name check)) = true
  /\ (string_forallb (fun c => negb (c =? "_")%char) (name check) = true ->
      sanitized_name (name check) = spec_sanitized_name (name check))
  /\ sanitized_name "My Check!!2" = "my_check_2"%string.
Proof.
  destruct (log_file_parts self (name check)) as [Hr Hp].
  split; [|split; [exact Hr|split; [exact Hp|split; [|split; [|split;
    [apply sanitized_name_word|split]]]]]].
  - destruct (run_one_spec env self check paths i total tr) as (new & H & _).
    now exists new.
  - intros Hne. rewrite Hp. f_equal.
    destruct (log_file_parts (mkPresubmit (mkPath false []) (mkPath false []) [])
                             (name check)) as [_ Hq].
    unfold log_file, check_directory in Hq.
    rewrite Path_of_word in Hq.
    + simpl in Hq. symmetry. exact Hq.
    + intros E. apply (proj1 (sanitized_name_empty _)) in E. contradiction.
    + apply sanitized_name_word.
  - apply sanitized_name_collapse.
  - intros H. unfold sanitized_name, spec_sanitized_name. f_equal.
    rewrite <- sub_class_plus_collapse.
    apply sub_class_plus_ext_in.
    apply string_forallb_impl with (2 := H). intros c Hc.
    apply negb_true_iff in Hc. unfold Str.is_word. rewrite Hc.
    destruct (Str.isalnum c); reflexivity.
  - reflexivity.
Qed.

Lemma log_file_of_sanitized_name_witness :
  "My Check!!2"%string <> EmptyString
  /\ str (log_file sample_presubmit "My Check!!2")
     = "/repo/.presubmit/my_check_2/step.log"%string
  /\ parts (log_file sample_presubmit "My Check!!2")
     = ["repo"; ".presubmit"; "my_check_2"; "step.log"]%string.
Proof.
  split; [discriminate|]. split; [reflexivity|].
  apply (proj1 (proj2 (proj2 (proj2
           (log_file_of_sanitized_name quiet_env sample_presubmit
              (check_named "My Check!!2") [] 1 1 []))))).
  discriminate.
Defined.

(** C9 as worded fails on a name with two underscores in a row: the code
    collapses them, the wording keeps them. *)
Lemma sanitized_name_differs_from_wording :
  sanitized_name "pragma__once" = "pragma_once"%string
  /\ spec_sanitized_name "pragma__once" = "pragma__once"%string
  /\ sanitized_name "pragma__once" <> spec_sanitized_name "pragma__once".
Proof. split; [reflexivity|]. split; [reflexivity|]. discriminate. Qed.

(* ------------------------------------------------------------------ *)
(** ** Resolution of one filter *)

Section Resolution.
Context {re : ReEngine}.

Lemma compile_all_spec (exps : list string) :
  (forall x, In x exps -> compile x <> None) ->
  exists pats, compile_all exps = Normal pats
               /\ Forall2 (fun x pat => compile x = Some pat) exps pats.
Proof.
  induction exps as [|x exps IH]; intros H.
  - exists []. split; [reflexivity | constructor].
  - destruct IH as (pats & E & F); [intros y Hy; apply H; now right|].
    destruct (compile x) as [pat|] eqn:C; [|elim (H x); [now left | exact C]].
    exists (pat :: pats). split.
    + unfold compile_all in *. simpl. rewrite C. simpl. rewrite E. reflexivity.
    + constructor; assumption.
Qed.

Lemma compile_all_fails (exps : list string) :
  (exists x, In x exps /\ compile x = None) ->
  exists x, In x exps /\ compile x = None
            /\ compile_all exps = Propagates (re_error x).
Proof.
  induction exps as [|y exps IH]; intros (x & Hin & Hx); [destruct Hin|].
  unfold compile_all in *. simpl.
  destruct (compile y) as [pat|] eqn:C.
  - destruct Hin as [->|Hin]; [congruence|].
    destruct IH as (z & Hz & Cz & E); [eauto|].
    exists z. split; [now right|]. split; [exact Cz|].
    simpl. rewrite E. reflexivity.
  - exists y. split; [now left|]. split; [exact C | reflexivity].
Qed.

Lemma excluded_spec (exps : list string) (pats : list Pattern) (s : string) :
  Forall2 (fun x pat => compile x = Some pat) exps pats ->
  existsb (fun exp => fullmatch exp s) pats = true
  <-> exists x pat, In x exps /\ compile x = Some pat /\ fullmatch pat s = true.
Proof.
  induction 1 as [|x pat exps pats C F IH]; simpl.
  - split; [discriminate | intros (? & ? & [] & _)].
  - rewrite orb_true_iff, IH. split.
    + intros [H|(y & q & Hy & Cy & My)].
      * exists x, pat. auto.
      * exists y, q. auto.
    + intros (y & q & [<-|Hy] & Cy & My).
      * left. congruence.
      * right. eauto.
Qed.

(** A malformed exclude pattern: [re.compile] raises and nothing is
    resolved. *)
Lemma filtered_paths_error (filt : _PathFilter) (paths : list Path) :
  (exists x, In x (exclude filt) /\ compile x = None) ->
  exists x, In x (exclude filt) /\ compile x = None
            /\ filtered_paths filt paths = Propagates (re_error x).
Proof.
  intros H. destruct (compile_all_fails _ H) as (x & I & C & E).
  exists x. split; [exact I|]. split; [exact C|].
  unfold filtered_paths. now rewrite E.
Qed.

Lemma filtered_paths_default (paths : list Path) :
  filtered_paths _PathFilter_default paths = Normal paths.
Proof.
  unfold filtered_paths. simpl. f_equal.
  induction paths as [|p paths IH]; [reflexivity|].
  simpl. unfold selects at 1. simpl.
  rewrite endswith_empty. simpl. now rewrite IH.
Qed.

(** C3. For a filter whose exclude patterns are regular expressions, the
    resolved subset holds exactly the paths of the universe whose textual
    form ends with one of the strings of [endswith] and is fully matched by
    no pattern of [exclude]; the default filter keeps every path, and
    [endswith=('.h',)] keeps exactly [a.h] out of [a.h], [b.c], [c.H]. *)
Theorem filtered_paths_membership (filt : _PathFilter) (paths : list Path) :
  (forall x, In x (exclude filt) -> compile x <> None) ->
  exists subset,
    filtered_paths filt paths = Normal subset
    /\ (forall p,
           In p subset <->
           In p paths
           /\ (exists e, In e (endswith filt)
                         /\ exists pre, str p = (pre ++ e)%string)
           /\ ~ (exists x pat, In x (exclude filt) /\ compile x = Some pat
                               /\ fullmatch pat (str p) = true))
    /\ filtered_paths _PathFilter_default paths = Normal paths
    /\ filtered_paths (mk_PathFilter [".h"%string] [])
                      [Path_of "a.h"; Path_of "b.c"; Path_of "c.H"]
       = Normal [Path_of "a.h"].
Proof.
  intros H. destruct (compile_all_spec _ H) as (pats & E & F).
  exists (List.filter (selects filt pats) paths).
  split; [unfold filtered_paths; now rewrite E|].
  split; [|split; [apply filtered_paths_default | reflexivity]].
  intros p. rewrite filter_In. unfold selects.
  rewrite andb_true_iff, negb_true_iff, existsb_exists.
  rewrite <- not_true_iff_false, (excluded_spec _ F).
  split.
  - intros (Hp & (e & He & Hs) & Hx). split; [exact Hp|]. split; [|exact Hx].
    exists e. split; [exact He|]. now apply endswith_spec.
  - intros (Hp & (e & He & Hs) & Hx). split; [exact Hp|]. split; [|exact Hx].
    exists e. split; [exact He|]. now apply endswith_spec.
Qed.

End Resolution.

Lemma filtered_paths_membership_witness :
  (forall x, In x (exclude generated_filter) ->
             compile (ReEngine := Fragment.engine) x <> None)
  /\ exists subset,
      filtered_paths (re := Fragment.engine) generated_filter
                     [Path_of "x/generated/a.h"; Path_of "x/a.h"]
      = Normal subset
      /\ subset = [Path_of "x/a.h"].
Proof.
  assert (H : forall x, In x (exclude generated_filter) ->
                        compile (ReEngine := Fragment.engine) x <> None).
  { intros x [<-|[]]. discriminate. }
  split; [exact H|].
  destruct (filtered_paths_membership (re := Fragment.engine) generated_filter
              [Path_of "x/generated/a.h"; Path_of "x/a.h"] H)
    as (subset & E & _).
  exists subset. split; [exact E|].
  vm_compute in E. now inversion E.
Defined.

(** The exclusion is a full match: a pattern that only occurs inside the
    path does not exclude it. *)
Example exclusion_is_full_match :
  option_map (fun pat => search (ReEngine := Fragment.engine) pat "x/generated/a.h")
             (compile (ReEngine := Fragment.engine) "generated") = Some true
  /\ filtered_paths (re := Fragment.engine)
                    (mk_PathFilter [".h"%string] ["generated"%string])
                    [Path_of "x/generated/a.h"; Path_of "x/a.h"]
     = Normal [Path_of "x/generated/a.h"; Path_of "x/a.h"].
Proof. split; reflexivity. Qed.

(* ------------------------------------------------------------------ *)
(** ** Classification of the outcome of a check *)



(* ------------------------------------------------------------------ *)
(** ** Construction of a check *)




(* ------------------------------------------------------------------ *)
(** ** The loop of [_execute_checks] *)

Lemma run_one_step (env : Env) (self : Presubmit) (check : _Check)
      (paths : list Path) (i total : nat) (tr : Trace) :
  exists step,
    snd (run_one env self check paths i total tr) = tr ++ step
    /\ invoked_of step = [(check, context_for env self check paths)]
    /\ ((exists r, fst (run_one env self check paths i total tr) = Normal r
                   /\ results_of step = [(check, r)])
        \/ (exists e, fst (run_one env self check paths i total tr) = Propagates e
                      /\ results_of step = [] /\ escaping env e)).
Proof.
  destruct (run_one_spec env self check paths i total tr) as (new & S & I & R).
  eexists. split; [exact S|]. split; [exact I | exact R].
Qed.

Lemma _execute_loop_cons (env : Env) (self : Presubmit) (keep_going : bool)
      (total i : nat) (check : _Check) (paths : list Path)
      (rest : list (_Check * list Path)) (passed failed : Z) (tr : Trace) :
  _execute_loop env self keep_going total i ((check, paths) :: rest)
                passed failed tr
  = match run_one env self check paths i total tr with
    | (Normal PASS, tr') =>
        _execute_loop env self keep_going total (S i) rest (passed + 1) failed tr'
    | (Normal CANCEL, tr') => (Normal (passed, failed), tr')
    | (Normal FAIL, tr') =>
        if negb keep_going then (Normal (passed, (failed + 1)%Z), tr')
        else _execute_loop env self keep_going total (S i) rest
                           passed (failed + 1) tr'
    | (Propagates e, tr') => (Propagates e, tr')
    end.
Proof.
  simpl. unfold bind at 1. fold (run_one env self check paths i total).
  destruct (run_one env self check paths i total tr) as [[[]|e] tr'];
    try reflexivity.
  destruct keep_going; reflexivity.
Qed.

Ltac pair_eq :=
  match goal with
  | |- Normal (?a, ?b) = Normal (?c, ?d) =>
      replace a with c by lia; replace b with d by lia; reflexivity
  end.

Lemma count_cons (x r : _Result) (rs : list _Result) :
  count x (r :: rs) = ((if _Result_eqb x r then 1 else 0) + count x rs)%Z.
Proof.
  unfold count. simpl. destruct (_Result_eqb x r); simpl List.length; lia.
Qed.

Lemma count_nonneg (x : _Result) (rs : list _Result) : (0 <= count x rs)%Z.
Proof. unfold count. lia. Qed.


Lemma _execute_loop_spec (env : Env) (self : Presubmit) (keep_going : bool)
      (total : nat) (rest : list (_Check * list Path)) :
  forall (i : nat) (passed failed : Z) (tr : Trace),
  exists new rs,
    snd (_execute_loop env self keep_going total i rest passed failed tr)
    = tr ++ new
    /\ results_of new = combine (map fst rest) rs
    /\ ((fst (_execute_loop env self keep_going total i rest passed failed tr)
         = Normal ((passed + count PASS rs)%Z, (failed + count FAIL rs)%Z)
         /\ invoked_of new = planned env self (firstn (List.length rs) rest)
         /\ Stopped keep_going rs (List.length rest))
        \/ (exists e,
               fst (_execute_loop env self keep_going total i rest passed failed tr)
               = Propagates e
               /\ escaping env e
               /\ invoked_of new = planned env self (firstn (S (List.length rs)) rest)
               /\ List.length rs < List.length rest
               /\ Forall (fun r => continuing keep_going r = true) rs)).
Proof.
  induction rest as [|[check paths] rest IH]; intros i passed failed tr.
  - exists [], []. simpl. rewrite app_nil_r. split; [reflexivity|].
    split; [reflexivity|]. left. unfold count, ret. simpl. rewrite !Z.add_0_r.
    split; [reflexivity|]. split; [reflexivity | constructor].
  - rewrite _execute_loop_cons.
    destruct (run_one_step env self check paths i total tr)
      as (step & Hs & Hi & Hr).
    destruct (run_one env self check paths i total tr) as [o tr1].
    simpl in Hs, Hr. subst tr1.
    destruct Hr as [(r & -> & Hr)|(e & -> & Hr & He)].
    + assert (Go : forall p f,
                 (p = passed + (if _Result_eqb PASS r then 1 else 0))%Z ->
                 (f = failed + (if _Result_eqb FAIL r then 1 else 0))%Z ->
                 continuing keep_going r = true ->
                 exists new rs,
                   snd (_execute_loop env self keep_going total (S i) rest p f
                                      (tr ++ step)) = tr ++ new
                   /\ results_of new = combine (map fst ((check, paths) :: rest)) rs
                   /\ ((fst (_execute_loop env self keep_going total (S i) rest p f
                                           (tr ++ step))
                        = Normal ((passed + count PASS rs)%Z,
                                  (failed + count FAIL rs)%Z)
                        /\ invoked_of new
                           = planned env self
                               (firstn (List.length rs) ((check, paths) :: rest))
                        /\ Stopped keep_going rs (List.length ((check, paths) :: rest)))
                       \/ (exists e,
                              fst (_execute_loop env self keep_going total (S i) rest
                                                 p f (tr ++ step)) = Propagates e
                              /\ escaping env e
                              /\ invoked_of new
                                 = planned env self
                                     (firstn (S (List.length rs))
                                             ((check, paths) :: rest))
                              /\ List.length rs < List.length ((check, paths) :: rest)
                              /\ Forall (fun r => continuing keep_going r = true) rs))).
      { intros p f Hp Hf Hc.
        destruct (IH (S i) p f (tr ++ step)) as (new & rs & Sn & Rn & Cases).
        exists (step ++ new), (r :: rs).
        split; [rewrite Sn; now rewrite app_assoc|].
        split; [rewrite results_of_app, Hr, Rn; reflexivity|].
        destruct Cases as [(F & I & St)|(e & F & E & I & L & A)].
        - left. split; [|split].
          + rewrite F, !count_cons, Hp, Hf. pair_eq.
          + rewrite invoked_of_app, Hi, I. reflexivity.
          + now constructor.
        - right. exists e. split; [exact F|]. split; [exact E|].
          split; [rewrite invoked_of_app, Hi, I; reflexivity|].
          split; [simpl; lia | now constructor]. }
      assert (Halt : forall p f,
                 (p = passed + (if _Result_eqb PASS r then 1 else 0))%Z ->
                 (f = failed + (if _Result_eqb FAIL r then 1 else 0))%Z ->
                 continuing keep_going r = false ->
                 exists new rs,
                   tr ++ step = tr ++ new
                   /\ results_of new = combine (map fst ((check, paths) :: rest)) rs
                   /\ Normal (p, f)
                      = Normal ((passed + count PASS rs)%Z,
                                (failed + count FAIL rs)%Z)
                   /\ invoked_of new
                      = planned env self
                          (firstn (List.length rs) ((check, paths) :: rest))
                   /\ Stopped keep_going rs (List.length ((check, paths) :: rest))).
      { intros p f Hp Hf Hc. exists step, [r].
        split; [reflexivity|].
        split; [simpl; rewrite combine_nil; exact Hr|]. split; [|split].
        - rewrite !count_cons, Hp, Hf. unfold count. simpl. pair_eq.
        - rewrite Hi. reflexivity.
        - now constructor. }
      destruct r.
      * apply Go; simpl; auto; lia.
      * destruct keep_going; simpl.
        -- apply Go; simpl; auto; lia.
        -- destruct (Halt passed (failed + 1)%Z) as (new & rs & A & B & C & D & E);
             simpl; auto; try lia.
           exists new, rs. simpl. split; [exact A|]. split; [exact B|].
           left. split; [exact C|]. split; [exact D | exact E].
      * destruct (Halt passed failed) as (new & rs & A & B & C & D & E);
          simpl; auto; try lia.
        exists new, rs. simpl. split; [exact A|]. split; [exact B|].
        left. split; [exact C|]. split; [exact D | exact E].
    + exists step, []. simpl. split; [reflexivity|].
      split; [exact Hr|].
      right. exists e. split; [reflexivity|]. split; [exact He|].
      split; [rewrite Hi; reflexivity|]. split; [lia | constructor].
Qed.

Lemma Stopped_length (keep_going : bool) (rs : list _Result) (len : nat) :
  Stopped keep_going rs len -> List.length rs <= len.
Proof. induction 1; simpl; lia. Qed.

(** A result that stops the loop is the last one. *)
Lemma Stopped_halting (keep_going : bool) (rs : list _Result) (len : nat) :
  Stopped keep_going rs len ->
  forall j r, nth_error rs j = Some r -> continuing keep_going r = false ->
              List.length rs = S j.
Proof.
  induction 1 as [|r0 len H0|r0 rs len H0 St IH]; intros j r Hj Hc.
  - destruct j; discriminate.
  - destruct j as [|[|j]]; simpl in Hj; [reflexivity | discriminate..].
  - destruct j as [|j]; simpl in Hj.
    + inversion Hj; subst. congruence.
    + simpl. f_equal. eapply IH; eassumption.
Qed.

(** After a result that lets the loop go on, the next check runs. *)
Lemma Stopped_continuing (keep_going : bool) (rs : list _Result) (len : nat) :
  Stopped keep_going rs len ->
  forall j r, nth_error rs j = Some r -> continuing keep_going r = true ->
              S j < len -> S j < List.length rs.
Proof.
  induction 1 as [|r0 len H0|r0 rs len H0 St IH]; intros j r Hj Hc Hlen.
  - destruct j; discriminate.
  - destruct j as [|[|j]]; simpl in Hj; try discriminate.
    inversion Hj; subst. congruence.
  - destruct j as [|j]; simpl in Hj.
    + simpl. inversion St; subst; simpl; lia.
    + simpl. apply ->Nat.succ_lt_mono. eapply IH; [eassumption..|lia].
Qed.

(** The checks before a cancellation passed or failed. *)
Lemma Stopped_cancel_counts (keep_going : bool) (rs : list _Result) (len : nat) :
  Stopped keep_going rs len ->
  forall j, nth_error rs j = Some CANCEL ->
            (count PASS rs + count FAIL rs = Z.of_nat j)%Z.
Proof.
  induction 1 as [|r0 len H0|r0 rs len H0 St IH]; intros j Hj.
  - destruct j; discriminate.
  - destruct j as [|[|j]]; simpl in Hj; try discriminate.
    inversion Hj; subst. reflexivity.
  - destruct j as [|j]; simpl in Hj.
    + inversion Hj; subst. discriminate.
    + rewrite !count_cons. specialize (IH j Hj).
      destruct r0; cbn [_Result_eqb]; try lia. discriminate.
Qed.

Lemma planned_length (env : Env) (self : Presubmit) (n : nat)
      (program : list (_Check * list Path)) :
  n <= List.length program ->
  List.length (planned env self (firstn n program)) = n.
Proof.
  intros H. unfold planned. rewrite length_map, length_firstn. lia.
Qed.

Lemma _execute_checks_spec (env : Env) (self : Presubmit)
      (program : list (_Check * list Path)) (keep_going : bool) (tr : Trace) :
  exists new rs,
    snd (_execute_checks env self program keep_going tr) = tr ++ new
    /\ results_of new = combine (map fst program) rs
    /\ ((fst (_execute_checks env self program keep_going tr)
         = Normal (count PASS rs, count FAIL rs,
                   (Z.of_nat (List.length program) - count PASS rs - count FAIL rs)%Z)
         /\ invoked_of new = planned env self (firstn (List.length rs) program)
         /\ Stopped keep_going rs (List.length program))
        \/ (exists e,
               fst (_execute_checks env self program keep_going tr) = Propagates e
               /\ escaping env e
               /\ invoked_of new = planned env self (firstn (S (List.length rs)) program)
               /\ List.length rs < List.length program
               /\ Forall (fun r => continuing keep_going r = true) rs)).
Proof.
  destruct (_execute_loop_spec env self keep_going (List.length program)
              program 1 0 0 tr) as (new & rs & S & R & Cases).
  exists new, rs. unfold _execute_checks, bind, ret.
  destruct (_execute_loop env self keep_going (List.length program) 1 program
                          0 0 tr) as [o tr'].
  simpl in S, Cases. subst tr'.
  destruct Cases as [(F & I & St)|(e & F & E & I & L & A)]; subst o; simpl.
  - split; [reflexivity|]. split; [exact R|]. left.
    split; [reflexivity|]. split; [exact I | exact St].
  - split; [reflexivity|]. split; [exact R|]. right. exists e.
    split; [reflexivity|]. split; [exact E|]. split; [exact I|].
    split; [exact L | exact A].
Qed.

Lemma Forall_nth_error {A} (P : A -> Prop) (l : list A) (j : nat) (x : A) :
  Forall P l -> nth_error l j = Some x -> P x.
Proof.
  intros F H. rewrite Forall_forall in F. apply F. eapply nth_error_In, H.
Qed.

Lemma nth_error_lt {A} (l : list A) (j : nat) (x : A) :
  nth_error l j = Some x -> j < List.length l.
Proof. intros H. apply nth_error_Some. congruence. Qed.

(* ------------------------------------------------------------------ *)
(** ** Stop policy and counts *)

(** C1. In every run of an executed program, a failure stops the loop when
    [keep_going] is false, and when checks remain it stops the loop only
    then; the passes and failures produced are what is counted. On
    [A(pass), B(fail), C(pass)]: without [keep_going], A and B are called, C
    is not, the counts are 1 passed, 1 failed, 1 skipped and the run fails;
    with [keep_going], A, B and C are called, the counts are 2, 1, 0 and the
    run fails. *)
Theorem fail_stops_unless_keep_going (env : Env) (self : Presubmit)
        (program : list (_Check * list Path)) (keep_going : bool) (tr : Trace) :
  (exists new rs,
      snd (_execute_checks env self program keep_going tr) = tr ++ new
      /\ results_of new = combine (map fst program) rs
      /\ (exists n, invoked_of new = planned env self (firstn n program))
      /\ (forall j, nth_error rs j = Some FAIL ->
                    (keep_going = false -> List.length (invoked_of new) = S j)
                    /\ (S j < List.length program ->
                        (List.length (invoked_of new) = S j <-> keep_going = false)))
      /\ (forall passed failed skipped,
             fst (_execute_checks env self program keep_going tr)
             = Normal (passed, failed, skipped) ->
             passed = count PASS rs /\ failed = count FAIL rs)
      /\ (contained env ->
          exists passed failed skipped,
            fst (_execute_checks env self program keep_going tr)
            = Normal (passed, failed, skipped)))
  /\ (fst (abc_run false) = Normal false
      /\ invoked_names (snd (abc_run false)) = ["A"; "B"]%string
      /\ last (snd (abc_run false)) PrintLine = Summary 1 1 1)
  /\ (fst (abc_run true) = Normal false
      /\ invoked_names (snd (abc_run true)) = ["A"; "B"; "C"]%string
      /\ last (snd (abc_run true)) PrintLine = Summary 2 1 0).
Proof.
  split; [|split; repeat split; reflexivity].
  destruct (_execute_checks_spec env self program keep_going tr)
    as (new & rs & Hs & R & Cases).
  exists new, rs. split; [exact Hs|]. split; [exact R|].
  destruct Cases as [(F & I & St)|(e & F & E & I & L & A)].
  - pose proof (Stopped_length St) as Len.
    split; [eauto|]. split; [|split].
    + intros j Hj. rewrite I, planned_length by exact Len.
      split.
      * intros ->. eapply Stopped_halting; eauto.
      * intros Hlen. split.
        -- intros Hl. destruct keep_going; [|reflexivity].
           pose proof (Stopped_continuing St Hj eq_refl Hlen). lia.
        -- intros ->. eapply Stopped_halting; eauto.
    + intros p f s H. rewrite F in H. inversion H. auto.
    + intros _. rewrite F. eauto.
  - split; [eauto|]. split; [|split].
    + intros j Hj. rewrite I, planned_length by lia.
      pose proof (@Forall_nth_error _ _ _ _ _ A Hj) as Hc. simpl in Hc.
      pose proof (@nth_error_lt _ _ _ _ Hj) as Hlt.
      split; [intros ->; discriminate|].
      intros _. split; [intros Hl; lia | intros ->; discriminate].
    + intros p f s H. rewrite F in H. discriminate.
    + intros C. elim (contained_not_escaping C E).
Qed.

Lemma contained_abc_env : contained abc_env.
Proof.
  intros f tr ctx e. simpl.
  destruct (__name__ f =? "B")%string; [|discriminate].
  intros H. inversion H. now left.
Qed.

Lemma fail_stops_unless_keep_going_witness :
  contained abc_env
  /\ fst (_execute_checks abc_env sample_presubmit abc_checks false [])
     = Normal (1, 1, 1)%Z
  /\ fst (_execute_checks abc_env sample_presubmit abc_checks true [])
     = Normal (2, 1, 0)%Z.
Proof.
  split; [exact contained_abc_env|].
  destruct (fail_stops_unless_keep_going abc_env sample_presubmit abc_checks
              false []) as [(new & rs & _ & _ & _ & _ & _ & T) _].
  destruct (T contained_abc_env) as (p & f & s & E).
  split; [|reflexivity].
  rewrite E. vm_compute in E. symmetry. exact E.
Defined.

(** C2. In every run, with either value of [keep_going], a cancelled check
    is the last one that is called; it is counted neither as passed nor as
    failed, and the skipped count is this check plus the checks that were
    not reached. *)
Theorem cancel_stops_the_run (env : Env) (self : Presubmit)
        (program : list (_Check * list Path)) (keep_going : bool) (tr : Trace) :
  exists new rs,
    snd (_execute_checks env self program keep_going tr) = tr ++ new
    /\ results_of new = combine (map fst program) rs
    /\ forall j,
        nth_error rs j = Some CANCEL ->
        invoked_of new = planned env self (firstn (S j) program)
        /\ List.length (invoked_of new) = S j
        /\ List.length rs = S j
        /\ exists passed failed skipped,
            fst (_execute_checks env self program keep_going tr)
            = Normal (passed, failed, skipped)
            /\ passed = count PASS rs /\ failed = count FAIL rs
            /\ (passed + failed = Z.of_nat j)%Z
            /\ (skipped
                = 1 + (Z.of_nat (List.length program)
                       - Z.of_nat (List.length (invoked_of new))))%Z.
Proof.
  destruct (_execute_checks_spec env self program keep_going tr)
    as (new & rs & Hs & R & Cases).
  exists new, rs. split; [exact Hs|]. split; [exact R|].
  intros j Hj.
  destruct Cases as [(F & I & St)|(e & F & E & I & L & A)].
  - pose proof (Stopped_length St) as Len.
    assert (Hl : List.length rs = S j)
      by (eapply Stopped_halting; eauto).
    pose proof (Stopped_cancel_counts St) as Hc. specialize (Hc j Hj).
    rewrite I, planned_length by exact Len. rewrite Hl.
    split; [reflexivity|]. split; [reflexivity|]. split; [reflexivity|].
    do 3 eexists. split; [exact F|].
    split; [reflexivity|]. split; [reflexivity|]. split; [exact Hc | lia].
  - pose proof (@Forall_nth_error _ _ _ _ _ A Hj) as Hc. discriminate Hc.
Qed.

Lemma cancel_stops_the_run_witness :
  exists passed failed,
    fst (_execute_checks cancel_env sample_presubmit abc_checks true [])
    = Normal (passed, failed, 2%Z)
    /\ (passed + failed = 1)%Z
    /\ invoked_names
         (snd (_execute_checks cancel_env sample_presubmit abc_checks true []))
       = ["A"; "B"]%string.
Proof.
  destruct (cancel_stops_the_run cancel_env sample_presubmit abc_checks true [])
    as (new & rs & Hs & R & H).
  vm_compute in Hs. subst new. vm_compute in R.
  destruct rs as [|r1 [|r2 [|r3 rs]]]; try discriminate R.
  assert (Hc : r2 = CANCEL) by (inversion R; reflexivity).
  subst r2.
  destruct (H 1 eq_refl) as (_ & _ & _ & p & f & s & F & _ & _ & Hpf & Hskip).
  exists p, f. vm_compute in Hskip. subst s.
  split; [exact F|]. split; [exact Hpf | reflexivity].
Defined.

(* ------------------------------------------------------------------ *)
(** ** The summary of a run *)

Lemma run_unfold {re : ReEngine} (env : Env) (self : Presubmit)
      (full_program : list ProgramItem) (keep_going : bool) (tr : Trace) :
  run env self full_program keep_going tr
  = match _apply_filters full_program (_paths self) with
    | Propagates e => (Propagates e, tr)
    | Normal program =>
        match _execute_checks env self program keep_going tr with
        | (Normal (passed, failed, skipped), tr') =>
            (Normal ((failed =? 0)%Z && (skipped =? 0)%Z),
             tr' ++ [Summary passed failed skipped])
        | (Propagates e, tr') => (Propagates e, tr')
        end
    end.
Proof.
  unfold run, bind, lift.
  destruct (_apply_filters full_program (_paths self)) as [program|e];
    [|reflexivity].
  destruct (_execute_checks env self program keep_going tr)
    as [[[[passed failed] skipped]|e] tr']; reflexivity.
Qed.



(* ------------------------------------------------------------------ *)
(** ** Dictionaries *)

Section DictFacts.
Variables K V : Type.
Variable eq_dec : forall a b : K, {a = b} + {a <> b}.

Lemma get_set (d : dict K V) (k k' : K) (v : V) :
  get eq_dec (set eq_dec d k v) k'
  = if eq_dec k' k then Some v else get eq_dec d k'.
Proof.
  induction d as [|[k0 v0] d IH]; simpl.
  - destruct (eq_dec k' k); reflexivity.
  - destruct (eq_dec k k0) as [->|N]; simpl.
    + destruct (eq_dec k' k0); reflexivity.
    + destruct (eq_dec k' k0) as [->|N'].
      * destruct (eq_dec k0 k); [congruence | reflexivity].
      * exact IH.
Qed.

Lemma get_In (d : dict K V) (k : K) (v : V) :
  get eq_dec d k = Some v -> In (k, v) d.
Proof.
  induction d as [|[k0 v0] d IH]; simpl; [discriminate|].
  destruct (eq_dec k k0) as [->|N].
  - intros H. inversion H. now left.
  - intros H. right. auto.
Qed.

Lemma In_set_same (d : dict K V) (k : K) (v : V) :
  In (k, v) (set eq_dec d k v).
Proof.
  induction d as [|[k0 v0] d IH]; simpl; [now left|].
  destruct (eq_dec k k0) as [->|N]; [now left | now right].
Qed.

(** An entry of the updated dictionary is the new one or an old one. *)
Lemma In_set_inv (d : dict K V) (k k' : K) (v v' : V) :
  In (k', v') (set eq_dec d k v) -> (k' = k /\ v' = v) \/ In (k', v') d.
Proof.
  induction d as [|[k0 v0] d IH]; simpl.
  - intros [H|[]]. inversion H. now left.
  - destruct (eq_dec k k0) as [->|N]; simpl.
    + intros [H|H]; [inversion H; now left | right; now right].
    + intros [H|H]; [right; now left|].
      destruct (IH H) as [E|E]; [now left | right; now right].
Qed.

(** An old entry stays, or it is the one that the update replaced. *)
Lemma In_set_cases (d : dict K V) (k k' : K) (v v' : V) :
  In (k', v') d ->
  In (k', v') (set eq_dec d k v) \/ (k' = k /\ get eq_dec d k = Some v').
Proof.
  induction d as [|[k0 v0] d IH]; simpl; [intros []|].
  destruct (eq_dec k k0) as [->|N]; simpl.
  - intros [H|H]; [inversion H; subst; now right | left; now right].
  - intros [H|H]; [left; now left|].
    destruct (IH H) as [E|E]; [left; now right | now right].
Qed.

(** The keys after an update: a new key goes to the end. *)
Lemma keys_set (d : dict K V) (k : K) (v : V) :
  map fst (set eq_dec d k v)
  = if in_dec eq_dec k (map fst d) then map fst d else map fst d ++ [k].
Proof.
  induction d as [|[k0 v0] d IH]; simpl; [reflexivity|].
  destruct (eq_dec k k0) as [->|N]; simpl.
  - destruct (eq_dec k0 k0); [reflexivity | congruence].
  - destruct (eq_dec k0 k); [congruence|].
    rewrite IH. destruct (in_dec eq_dec k (map fst d)); reflexivity.
Qed.

End DictFacts.

(* ------------------------------------------------------------------ *)
(** ** Grouping of the checks by filter *)

Section Grouping.
Context {re : ReEngine}.
Variable paths : list Path.

Lemma mem_cons (c c0 : _Check) (cs : list _Check) :
  mem c (c0 :: cs) = (if _Check_eq_dec c c0 then true else false) || mem c cs.
Proof.
  unfold mem. destruct (in_dec _Check_eq_dec c (c0 :: cs)) as [I|N];
    destruct (_Check_eq_dec c c0) as [E|E];
    destruct (in_dec _Check_eq_dec c cs) as [I'|N']; simpl; try reflexivity.
  - destruct I; [congruence | contradiction].
  - elim N. now left.
  - elim N. now left.
  - elim N. now right.
Qed.

Lemma mem_true (c : _Check) (cs : list _Check) : mem c cs = true <-> In c cs.
Proof.
  unfold mem. destruct (in_dec _Check_eq_dec c cs); split; auto; discriminate.
Qed.

Lemma assign_get (cs : list _Check) (filtered : list Path) :
  forall (d : dict _Check (list Path)) (c : _Check),
    get _Check_eq_dec (assign cs filtered d) c
    = if mem c cs && keeps filtered c then Some filtered
      else get _Check_eq_dec d c.
Proof.
  induction cs as [|c0 cs IH]; intros d c; [reflexivity|].
  simpl assign. fold (keeps filtered c0). rewrite IH, mem_cons.
  destruct (mem c cs) eqn:M; simpl.
  - rewrite orb_true_r. simpl. destruct (keeps filtered c) eqn:Kc; [reflexivity|].
    destruct (keeps filtered c0) eqn:K0; [|reflexivity].
    rewrite get_set. destruct (_Check_eq_dec c c0) as [->|]; [congruence | reflexivity].
  - rewrite orb_false_r.
    destruct (_Check_eq_dec c c0) as [->|N]; simpl.
    + destruct (keeps filtered c0); [|reflexivity].
      rewrite get_set. destruct (_Check_eq_dec c0 c0); [reflexivity | congruence].
    + destruct (keeps filtered c0); [|reflexivity].
      rewrite get_set. destruct (_Check_eq_dec c c0); [congruence | reflexivity].
Qed.

Lemma first_error_none (fs : list _PathFilter) :
  first_error paths fs = None ->
  forall f, In f fs -> filtered_paths f paths = Normal (subset_of paths f).
Proof.
  induction fs as [|f0 fs IH]; simpl; [intros _ f []|].
  destruct (filtered_paths f0 paths) as [l|e] eqn:E; [|discriminate].
  intros H f [<-|Hf]; [|auto].
  unfold subset_of. now rewrite E.
Qed.

Lemma _map_loop_error (items : dict _PathFilter (list _Check)) :
  forall (d : dict _Check (list Path)) (e : Exc),
    first_error paths (map fst items) = Some e ->
    _map_loop items paths d = Propagates e.
Proof.
  induction items as [|[f cs] items IH]; intros d e; simpl; [discriminate|].
  destruct (filtered_paths f paths) as [l|e0]; simpl.
  - apply IH.
  - intros H. now inversion H.
Qed.

Lemma _map_loop_get (items : dict _PathFilter (list _Check)) :
  consistent items ->
  first_error paths (map fst items) = None ->
  forall d : dict _Check (list Path),
  exists d',
    _map_loop items paths d = Normal d'
    /\ forall c,
        get _Check_eq_dec d' c
        = if grouped items c && keeps (subset_of paths (path_filter c)) c
          then Some (subset_of paths (path_filter c))
          else get _Check_eq_dec d c.
Proof.
  induction items as [|[f cs] items IH]; intros C E d.
  - exists d. split; [reflexivity|]. intros c. reflexivity.
  - simpl in E. simpl _map_loop.
    destruct (filtered_paths f paths) as [l|e0] eqn:F; [|discriminate].
    assert (Hl : l = subset_of paths f) by (unfold subset_of; now rewrite F).
    subst l. simpl obind.
    destruct (IH (fun f' cs' H => C f' cs' (or_intror H)) E
                 (assign cs (subset_of paths f) d)) as (d' & Hd & Hg).
    exists d'. split; [exact Hd|].
    intros c. rewrite Hg, assign_get. unfold grouped. simpl existsb.
    fold (grouped items c).
    destruct (mem c cs) eqn:M; simpl; [|reflexivity].
    apply mem_true in M.
    rewrite (C f cs (or_introl eq_refl) c M).
    destruct (keeps (subset_of paths f) c), (grouped items c); reflexivity.
Qed.

(** *** The groups that [_apply_filters] builds *)

Lemma append_to_consistent (d : dict _PathFilter (list _Check)) (c0 : _Check) :
  consistent d -> consistent (append_to d c0).
Proof.
  intros C f cs H c Hc. unfold append_to in H.
  apply In_set_inv in H. destruct H as [[E1 E2]|H]; [|exact (C f cs H c Hc)].
  subst f cs.
  destruct (get _PathFilter_eq_dec d (path_filter c0)) as [l|] eqn:G.
  - apply in_app_or in Hc. destruct Hc as [Hc|[<-|[]]]; [|reflexivity].
    apply get_In in G. exact (C _ _ G c Hc).
  - destruct Hc as [<-|[]]. reflexivity.
Qed.

Lemma grouped_In (d : dict _PathFilter (list _Check)) (c : _Check) :
  grouped d c = true <-> exists f cs, In (f, cs) d /\ In c cs.
Proof.
  unfold grouped. rewrite existsb_exists. split.
  - intros ([f cs] & H & M). apply mem_true in M. eauto.
  - intros (f & cs & H & M). exists (f, cs). split; [exact H|].
    now apply mem_true.
Qed.

Lemma append_to_grouped (d : dict _PathFilter (list _Check)) (c0 c : _Check) :
  grouped d c = true \/ c = c0 -> grouped (append_to d c0) c = true.
Proof.
  intros H. apply grouped_In. unfold append_to.
  destruct H as [H | ->].
  - apply grouped_In in H. destruct H as (f & cs & H & M).
    destruct (@In_set_cases _ _ _PathFilter_eq_dec d (path_filter c0) f
                (match get _PathFilter_eq_dec d (path_filter c0) with
                 | Some l => l ++ [c0]
                 | None => [c0]
                 end) cs H) as [S|[-> G]].
    + eauto.
    + rewrite G. exists (path_filter c0), (cs ++ [c0]).
      split; [apply In_set_same | apply in_or_app; now left].
  - eexists _, _. split; [apply In_set_same|].
    destruct (get _PathFilter_eq_dec d (path_filter c0));
      [apply in_or_app; right|]; now left.
Qed.

Lemma groups_spec (checks : list _Check) :
  forall d : dict _PathFilter (list _Check),
    consistent d ->
    consistent (fold_left append_to checks d)
    /\ (forall c, grouped d c = true \/ In c checks ->
                  grouped (fold_left append_to checks d) c = true)
    /\ map fst (fold_left append_to checks d)
       = fold_left add_key (map path_filter checks) (map fst d).
Proof.
  induction checks as [|c0 checks IH]; intros d C; simpl.
  - split; [exact C|]. split; [|reflexivity]. intros c [H|[]]. exact H.
  - destruct (IH (append_to d c0) (append_to_consistent c0 C)) as (C' & G & K).
    split; [exact C'|]. split.
    + intros c H. apply G.
      destruct H as [H|[<-|H]]; [left|left|right; exact H];
        apply append_to_grouped; auto.
    + rewrite K. f_equal. unfold append_to. apply keys_set.
Qed.

Lemma first_error_app (ks fs : list _PathFilter) :
  first_error paths (ks ++ fs)
  = match first_error paths ks with
    | Some e => Some e
    | None => first_error paths fs
    end.
Proof.
  induction ks as [|k ks IH]; simpl; [reflexivity|].
  destruct (filtered_paths k paths); [exact IH | reflexivity].
Qed.

(** Resolving each distinct filter once, in the order of first occurrence,
    raises the same first error as resolving the filter of every check. *)
Lemma first_error_add_key (fs : list _PathFilter) :
  forall ks,
    first_error paths (fold_left add_key fs ks)
    = match first_error paths ks with
      | Some e => Some e
      | None => first_error paths fs
      end.
Proof.
  induction fs as [|f fs IH]; intros ks; simpl.
  - destruct (first_error paths ks); reflexivity.
  - rewrite IH. unfold add_key.
    destruct (in_dec _PathFilter_eq_dec f ks) as [I|N].
    + destruct (first_error paths ks) eqn:E; [reflexivity|].
      now rewrite (first_error_none _ E f I).
    + rewrite first_error_app. simpl.
      destruct (first_error paths ks); [reflexivity|].
      destruct (filtered_paths f paths); reflexivity.
Qed.

(** *** The two resolutions *)

Lemma resolve_independently_spec (checks : list _Check) :
  resolve_independently checks paths
  = match first_error paths (map path_filter checks) with
    | Some e => Propagates e
    | None => Normal (kept paths checks)
    end.
Proof.
  unfold resolve_independently, kept.
  induction checks as [|c checks IH]; [reflexivity|].
  simpl.
  destruct (filtered_paths (path_filter c) paths) as [l|e] eqn:F; simpl;
    [|reflexivity].
  assert (Hl : subset_of paths (path_filter c) = l)
    by (unfold subset_of; now rewrite F).
  destruct (omap _ checks) as [resolved|e]; simpl in *.
  - destruct (first_error paths (map path_filter checks)); [discriminate|].
    inversion IH as [H]. simpl. now rewrite H, Hl.
  - destruct (first_error paths (map path_filter checks)); [|discriminate].
    exact IH.
Qed.

Lemma kept_flat_map (checks : list _Check) (d : dict _Check (list Path)) :
  (forall c, In c checks ->
             get _Check_eq_dec d c
             = if keeps (subset_of paths (path_filter c)) c
               then Some (subset_of paths (path_filter c)) else None) ->
  flat_map (fun c => match get _Check_eq_dec d c with
                     | Some ps => [(c, ps)]
                     | None => []
                     end) checks
  = kept paths checks.
Proof.
  unfold kept. induction checks as [|c checks IH]; intros H; [reflexivity|].
  simpl. rewrite (H c (or_introl eq_refl)), IH by (intros; apply H; now right).
  destruct (keeps (subset_of paths (path_filter c)) c); reflexivity.
Qed.

Lemma _apply_filters_spec (program : list ProgramItem) :
  _apply_filters program paths
  = match first_error paths (map path_filter (wrap_all (first_free program) program)) with
    | Some e => Propagates e
    | None => Normal (kept paths (wrap_all (first_free program) program))
    end.
Proof.
  unfold _apply_filters, _map_checks_to_paths.
  set (checks := wrap_all (first_free program) program).
  assert (C0 : consistent []) by (intros f cs []).
  destruct (groups_spec checks C0) as (C & G & K).
  pose proof (first_error_add_key (map path_filter checks) []) as E.
  simpl in K, E. rewrite <- K in E.
  destruct (first_error paths (map path_filter checks)) as [e|].
  - rewrite (_map_loop_error _ [] E). reflexivity.
  - destruct (_map_loop_get C E []) as (d & Hd & Hg).
    rewrite Hd. simpl. f_equal. apply kept_flat_map.
    intros c Hc. rewrite Hg, (G c (or_intror Hc)). reflexivity.
Qed.

End Grouping.

(* ------------------------------------------------------------------ *)
(** ** The executed program *)

Lemma kept_map {re : ReEngine} (paths : list Path) (checks : list _Check) :
  kept paths checks
  = map (fun c => (c, subset_of paths (path_filter c)))
        (List.filter (fun c => keeps (subset_of paths (path_filter c)) c) checks).
Proof.
  unfold kept. induction checks as [|c checks IH]; [reflexivity|].
  simpl. rewrite IH.
  destruct (keeps (subset_of paths (path_filter c)) c); reflexivity.
Qed.


(** C7. Resolving the program through the groups of equal filters gives
    what resolving the filter of every check on its own gives, the error of
    a malformed pattern included; filters are grouped by the equality of
    their fields, so two checks of the executed program whose filters have
    equal fields get the same paths. *)
Theorem grouping_is_not_observable {re : ReEngine} (program : list ProgramItem)
        (paths : list Path) :
  _apply_filters program paths
  = resolve_independently (wrap_all (first_free program) program) paths
  /\ (forall resolved c1 c2 ps1 ps2,
         _apply_filters program paths = Normal resolved ->
         In (c1, ps1) resolved -> In (c2, ps2) resolved ->
         endswith (path_filter c1) = endswith (path_filter c2) ->
         exclude (path_filter c1) = exclude (path_filter c2) ->
         ps1 = ps2)
  /\ _apply_filters [IsCheck header_check; IsCheck source_check;
                     IsCheck header_check']
                    [Path_of "a.h"; Path_of "b.c"; Path_of "c.H"]
     = Normal [(header_check, [Path_of "a.h"]);
               (header_check', [Path_of "a.h"])].
Proof.
  split; [|split; [|reflexivity]].
  - rewrite _apply_filters_spec, resolve_independently_spec. reflexivity.
  - intros resolved c1 c2 ps1 ps2 H H1 H2 He Hx.
    rewrite _apply_filters_spec in H.
    destruct (first_error _ _) in H; [discriminate|].
    inversion H; subst resolved. rewrite kept_map in H1, H2.
    apply in_map_iff in H1, H2.
    destruct H1 as (c1' & E1 & _), H2 as (c2' & E2 & _).
    inversion E1; inversion E2; subst.
    replace (path_filter c2) with (path_filter c1); [reflexivity|].
    destruct (path_filter c1), (path_filter c2); simpl in *; congruence.
Qed.

Lemma run_trace {re : ReEngine} (env : Env) (self : Presubmit)
      (full_program : list ProgramItem) (keep_going : bool) (tr : Trace)
      (program : list (_Check * list Path)) :
  _apply_filters full_program (_paths self) = Normal program ->
  exists new n,
    snd (run env self full_program keep_going tr) = tr ++ new
    /\ invoked_of new = planned env self (firstn n program).
Proof.
  intros Hp. rewrite run_unfold, Hp.
  destruct (_execute_checks_spec env self program keep_going tr)
    as (new & rs & Hs & R & Cases).
  destruct (_execute_checks env self program keep_going tr) as [o tr'].
  simpl in Hs, Cases. subst tr'.
  destruct Cases as [(F & I & St)|(e & F & E & I & L & A)]; subst o.
  - exists (new ++ [Summary (count PASS rs) (count FAIL rs)
                      (Z.of_nat (List.length program) - count PASS rs
                       - count FAIL rs)]), (List.length rs).
    simpl. split; [now rewrite app_assoc|].
    rewrite invoked_of_app, I. simpl. now rewrite app_nil_r.
  - exists new, (S (List.length rs)). simpl. split; [reflexivity | exact I].
Qed.



(* ------------------------------------------------------------------ *)
(** ** Plain callables *)





(* ================================================================== *)
(** * Further properties *)

(* ------------------------------------------------------------------ *)
(** ** The events of a run *)

Lemma run_one_block (env : Env) (self : Presubmit) (check : _Check)
      (ps : list Path) (i total : nat) (tr : Trace) :
  exists tail,
    snd (run_one env self check ps i total tr)
    = tr ++ block env self total i (check, ps) tail
    /\ forallb tail_event tail = true.
Proof.
  unfold run_one, _context, _Check_run, _call_function, try_except, call,
    finally, bind, emit, ret, block.
  fold (context_for env self check ps).
  cbn [fst snd].
  replace (List.length ps)
    with (List.length (paths (context_for env self check ps)))
    by (simpl; apply length_map).
  destruct (binds_one_positional (parameters (_check check))).
  - match goal with
    | |- context [body env ?f ?t ?c] => destruct (body env f t c) as [|e] eqn:B
    end.
    + exists [Finished check PASS].
      split; [norm_trace; reflexivity | reflexivity].
    + destruct e as [message|message|pattern|cls message| |cls]; simpl.
      * destruct (message =? "")%string; simpl.
        -- exists [Finished check FAIL].
           split; [norm_trace; reflexivity | reflexivity].
        -- exists [LogWarning message; Finished check FAIL].
           split; [norm_trace; reflexivity | reflexivity].
      * exists [LogException (name check) (TypeError message);
                Finished check FAIL].
        split; [norm_trace; reflexivity | reflexivity].
      * exists [LogException (name check) (re_error pattern);
                Finished check FAIL].
        split; [norm_trace; reflexivity | reflexivity].
      * exists [LogException (name check) (ExceptionSubclass cls message);
                Finished check FAIL].
        split; [norm_trace; reflexivity | reflexivity].
      * exists [PrintLine; Finished check CANCEL].
        split; [norm_trace; reflexivity | reflexivity].
      * exists [].
        split; [norm_trace; reflexivity | reflexivity].
  - simpl.
    exists [LogException (name check)
              (TypeError (name check ++ "() cannot take 1 positional argument"));
            Finished check FAIL].
    split; [norm_trace; reflexivity | reflexivity].
Qed.

Lemma blocks_nil (env : Env) (self : Presubmit) (total i : nat)
      (program : list (_Check * list Path)) :
  blocks env self total i program [] = [].
Proof. destruct program; reflexivity. Qed.

Lemma _execute_loop_blocks (env : Env) (self : Presubmit) (keep_going : bool)
      (total : nat) (rest : list (_Check * list Path)) :
  forall (i : nat) (passed failed : Z) (tr : Trace),
  exists tails,
    snd (_execute_loop env self keep_going total i rest passed failed tr)
    = tr ++ blocks env self total i rest tails
    /\ Forall (fun tail => forallb tail_event tail = true) tails
    /\ List.length tails <= List.length rest.
Proof.
  induction rest as [|[check paths] rest IH]; intros i passed failed tr.
  - exists []. simpl. rewrite app_nil_r. repeat split; constructor.
  - rewrite _execute_loop_cons.
    destruct (run_one_block env self check paths i total tr) as (tail & Hs & Ht).
    destruct (run_one env self check paths i total tr) as [o tr1].
    simpl in Hs. subst tr1.
    assert (Stop : exists tails,
               tr ++ block env self total i (check, paths) tail
               = tr ++ blocks env self total i ((check, paths) :: rest) tails
               /\ Forall (fun tail => forallb tail_event tail = true) tails
               /\ List.length tails <= List.length ((check, paths) :: rest)).
    { exists [tail]. cbn [blocks]. rewrite blocks_nil, app_nil_r.
      split; [reflexivity|]. split; [now constructor | simpl; lia]. }
    assert (Go : forall p f,
               exists tails,
                 snd (_execute_loop env self keep_going total (S i) rest p f
                        (tr ++ block env self total i (check, paths) tail))
                 = tr ++ blocks env self total i ((check, paths) :: rest) tails
                 /\ Forall (fun tail => forallb tail_event tail = true) tails
                 /\ List.length tails <= List.length ((check, paths) :: rest)).
    { intros p f.
      destruct (IH (S i) p f (tr ++ block env self total i (check, paths) tail))
        as (tails & Hs & Hf & Hl).
      exists (tail :: tails). split; [|split; [now constructor | simpl; lia]].
      rewrite Hs. cbn [blocks]. now rewrite app_assoc. }
    destruct o as [[]|e]; simpl.
    + apply Go.
    + destruct keep_going; simpl; [apply Go | exact Stop].
    + exact Stop.
    + exact Stop.
Qed.

Lemma _execute_checks_blocks (env : Env) (self : Presubmit)
      (program : list (_Check * list Path)) (keep_going : bool) (tr : Trace) :
  exists tails,
    snd (_execute_checks env self program keep_going tr)
    = tr ++ blocks env self (List.length program) 1 program tails
    /\ Forall (fun tail => forallb tail_event tail = true) tails
    /\ List.length tails <= List.length program.
Proof.
  destruct (_execute_loop_blocks env self keep_going (List.length program)
              program 1 0 0 tr) as (tails & Hs & Hf & Hl).
  exists tails. split; [|split; assumption].
  unfold _execute_checks, bind, ret.
  destruct (_execute_loop env self keep_going (List.length program) 1 program
                          0 0 tr) as [[pf|e] tr']; exact Hs.
Qed.

Lemma handlers_app (a : option Path) (x y : Trace) :
  handlers a (x ++ y)
  = match handlers a x with
    | Some a' => handlers a' y
    | None => None
    end.
Proof.
  revert a. induction x as [|e x IH]; intros a; [reflexivity|].
  destruct e; simpl; try (destruct a; [apply IH | reflexivity]); try apply IH.
  - destruct a; [reflexivity | apply IH].
  - destruct a as [g|]; [|reflexivity].
    destruct (Path_eq_dec file g); [apply IH | reflexivity].
Qed.

Lemma handlers_tail (f : Path) (tail : list Event) :
  forallb tail_event tail = true -> handlers (Some f) tail = Some (Some f).
Proof.
  induction tail as [|e tail IH]; [reflexivity|].
  simpl. rewrite andb_true_iff. intros [He Ht].
  destruct e; try discriminate He; simpl; auto.
Qed.

Lemma calls_with_log_app_tail (a : option Path) (tail rest : list Event) :
  forallb tail_event tail = true ->
  calls_with_log a (tail ++ rest) = calls_with_log a rest.
Proof.
  induction tail as [|e tail IH]; [reflexivity|].
  simpl. rewrite andb_true_iff. intros [He Ht].
  destruct e; try discriminate He; simpl; auto.
Qed.

Lemma announced_of_app (a b : Trace) :
  announced_of (a ++ b) = announced_of a ++ announced_of b.
Proof. apply flat_map_app. Qed.

Lemma announced_of_tail (tail : list Event) :
  forallb tail_event tail = true -> announced_of tail = [].
Proof.
  induction tail as [|e tail IH]; [reflexivity|].
  simpl. rewrite andb_true_iff. intros [He Ht].
  destruct e; try discriminate He; simpl; auto.
Qed.

Lemma blocks_facts (env : Env) (self : Presubmit) (total : nat)
      (program : list (_Check * list Path)) :
  forall (i : nat) (tails : list (list Event)),
    Forall (fun tail => forallb tail_event tail = true) tails ->
    List.length tails <= List.length program ->
    handlers None (blocks env self total i program tails) = Some None
    /\ calls_with_log None (blocks env self total i program tails)
       = map (fun cp => (fst cp, Some (log_file self (name (fst cp)))))
             (firstn (List.length tails) program)
    /\ announced_of (blocks env self total i program tails)
       = numbered total i (firstn (List.length tails) program).
Proof.
  induction program as [|cp program IH]; intros i tails F L.
  - destruct tails; [|simpl in L; lia]. repeat split; reflexivity.
  - destruct tails as [|tail tails]; [repeat split; reflexivity|].
    inversion F as [|? ? Ht Hts]; subst.
    destruct (IH (S i) tails Hts) as (H1 & H2 & H3); [simpl in L; lia|].
    cbn [blocks]. unfold block.
    split; [|split].
    + rewrite handlers_app. cbn [app handlers].
      rewrite handlers_app, (@handlers_tail _ _ Ht). cbn [handlers].
      destruct (Path_eq_dec _ _); [exact H1 | congruence].
    + cbn [app calls_with_log List.length firstn map]. f_equal.
      rewrite <- app_assoc.
      rewrite calls_with_log_app_tail by exact Ht.
      cbn [app calls_with_log]. exact H2.
    + rewrite announced_of_app. cbn [List.length firstn numbered].
      change (announced_of ([Makedirs (check_directory self (name (fst cp)));
                             OpenLog (log_file self (name (fst cp)));
                             Started (fst cp) i total (List.length (snd cp));
                             Invoke (fst cp) (context_for env self (fst cp) (snd cp))]
                            ++ tail
                            ++ [RemoveHandler (log_file self (name (fst cp)))]))
        with ((fst cp, i, total, List.length (snd cp))
                :: announced_of
                     (tail ++ [RemoveHandler (log_file self (name (fst cp)))])).
      rewrite announced_of_app, (@announced_of_tail _ Ht). simpl. f_equal.
      exact H3.
Qed.

(** X1. The log handlers of a run are bracketed, also when an exception
    leaves a check: a log is opened only while none is attached and removed
    before the next is opened, none is left attached at the end, and every
    check is called while its own log file is the attached one. *)
Theorem logs_are_bracketed (env : Env) (self : Presubmit)
        (program : list (_Check * list Path)) (keep_going : bool) (tr : Trace) :
  exists new n,
    snd (_execute_checks env self program keep_going tr) = tr ++ new
    /\ n <= List.length program
    /\ handlers None new = Some None
    /\ calls_with_log None new
       = map (fun cp => (fst cp, Some (log_file self (name (fst cp)))))
             (firstn n program).
Proof.
  destruct (_execute_checks_blocks env self program keep_going tr)
    as (tails & Hs & Hf & Hl).
  destruct (blocks_facts env self (List.length program) program 1 Hf Hl)
    as (H1 & H2 & _).
  eexists _, (List.length tails). split; [exact Hs|].
  split; [exact Hl|]. split; [exact H1 | exact H2].
Qed.

Lemma nth_error_numbered (total : nat) (program : list (_Check * list Path)) :
  forall (i k : nat) (x : _Check * nat * nat * nat),
    nth_error (numbered total i program) k = Some x ->
    exists cp, nth_error program k = Some cp
               /\ x = (fst cp, i + k, total, List.length (snd cp)).
Proof.
  induction program as [|cp program IH]; intros i k x H.
  - destruct k; discriminate.
  - destruct k as [|k]; simpl in H.
    + inversion H. exists cp. split; [reflexivity|]. now rewrite Nat.add_0_r.
    + destruct (IH (S i) k x H) as (cp' & Hn & Hx).
      exists cp'. split; [exact Hn|]. rewrite Hx.
      replace (i + S k) with (S i + k) by lia. reflexivity.
Qed.

Lemma nth_error_firstn_some {A} (n : nat) (l : list A) (k : nat) (x : A) :
  nth_error (firstn n l) k = Some x -> nth_error l k = Some x.
Proof.
  revert l k. induction n as [|n IH]; intros l k H.
  - destruct k; discriminate.
  - destruct l as [|y l]; [destruct k; discriminate|].
    destruct k as [|k]; simpl in *; [exact H | auto].
Qed.

(** X2. The upper box of the k-th check that a run starts (counting from
    zero) announces that check with the index k + 1, the size of the
    executed program as the total and the number of its paths. *)
Theorem checks_are_numbered (env : Env) (self : Presubmit)
        (program : list (_Check * list Path)) (keep_going : bool) (tr : Trace) :
  exists new,
    snd (_execute_checks env self program keep_going tr) = tr ++ new
    /\ List.length (announced_of new) <= List.length program
    /\ forall k c count total files,
        nth_error (announced_of new) k = Some (c, count, total, files) ->
        count = S k /\ total = List.length program
        /\ exists ps, nth_error program k = Some (c, ps)
                      /\ files = List.length ps.
Proof.
  destruct (_execute_checks_blocks env self program keep_going tr)
    as (tails & Hs & Hf & Hl).
  destruct (blocks_facts env self (List.length program) program 1 Hf Hl)
    as (_ & _ & H3).
  eexists. split; [exact Hs|]. rewrite H3. split.
  - clear. generalize 1 at 1. generalize (List.length program) at 1.
    generalize (List.length tails).
    intros n total i. revert n i.
    induction program as [|cp program IH]; intros n i.
    + rewrite firstn_nil. simpl. lia.
    + destruct n; simpl; [lia|]. specialize (IH n (S i)). lia.
  - intros k c count total files H.
    destruct (nth_error_numbered _ _ _ _ H) as ([c' ps] & Hn & Hx).
    inversion Hx; subst. apply nth_error_firstn_some in Hn.
    split; [reflexivity|]. split; [reflexivity|]. eauto.
Qed.

(* ------------------------------------------------------------------ *)
(** ** Outcomes of a run *)







Lemma Stopped_all_continuing (keep_going : bool) (rs : list _Result) (len : nat) :
  Stopped keep_going rs len ->
  Forall (fun r => continuing keep_going r = true) rs ->
  List.length rs = len.
Proof.
  induction 1 as [|r0 len H0|r0 rs len H0 St IH]; intros F.
  - reflexivity.
  - inversion F; subst. congruence.
  - inversion F; subst. simpl. f_equal. auto.
Qed.

Lemma count_no_cancel (rs : list _Result) :
  ~ In CANCEL rs -> (count PASS rs + count FAIL rs = Z.of_nat (List.length rs))%Z.
Proof.
  induction rs as [|r rs IH]; intros H; [reflexivity|].
  rewrite !count_cons. cbn [List.length].
  assert (Hr : ~ In CANCEL rs) by (intros X; apply H; now right).
  specialize (IH Hr).
  destruct r; cbn [_Result_eqb]; try lia. elim H. now left.
Qed.

(** X4. With [keep_going], a run in which no check is cancelled calls every
    check of the executed program, in order, and skips none. *)
Theorem keep_going_runs_every_check (env : Env) (self : Presubmit)
        (program : list (_Check * list Path)) (tr : Trace) :
  exists new rs,
    snd (_execute_checks env self program true tr) = tr ++ new
    /\ results_of new = combine (map fst program) rs
    /\ List.length rs <= List.length program
    /\ (~ In CANCEL rs ->
        forall passed failed skipped,
          fst (_execute_checks env self program true tr)
          = Normal (passed, failed, skipped) ->
          skipped = 0%Z
          /\ (passed + failed = Z.of_nat (List.length program))%Z
          /\ invoked_of new = planned env self program).
Proof.
  destruct (_execute_checks_spec env self program true tr)
    as (new & rs & Hs & R & Cases).
  exists new, rs. split; [exact Hs|]. split; [exact R|].
  split.
  { destruct Cases as [(_ & _ & St)|(e & _ & _ & _ & L & _)];
      [exact (Stopped_length St) | lia]. }
  intros NC p f s H.
  destruct Cases as [(F & I & St)|(e & F & _)]; rewrite F in H;
    [|discriminate].
  injection H as <- <- <-.
  assert (Hl : List.length rs = List.length program).
  { apply (Stopped_all_continuing St). apply Forall_forall.
    intros r Hr. destruct r; try reflexivity. contradiction. }
  pose proof (count_no_cancel rs NC) as C.
  split; [lia|]. split; [lia|].
  rewrite I, Hl, firstn_all. reflexivity.
Qed.

Lemma keep_going_runs_every_check_witness :
  fst (_execute_checks flaky_env sample_presubmit abc_checks true [])
  = Normal (1, 2, 0)%Z
  /\ invoked_names
       (snd (_execute_checks flaky_env sample_presubmit abc_checks true []))
     = ["A"; "B"; "C"]%string.
Proof.
  destruct (keep_going_runs_every_check flaky_env sample_presubmit abc_checks [])
    as (new & rs & Hs & R & L & H).
  vm_compute in Hs. subst new. vm_compute in R.
  destruct rs as [|r1 [|r2 [|r3 rs]]]; try discriminate R.
  destruct rs; [|simpl in L; lia].
  assert (NC : ~ In CANCEL [r1; r2; r3]).
  { inversion R; subst. intros [X|[X|[X|[]]]]; discriminate X. }
  destruct (H NC 1%Z 2%Z 0%Z eq_refl) as (_ & _ & _).
  split; reflexivity.
Defined.

Lemma Stopped_fail_fast (rs : list _Result) (len : nat) :
  Stopped false rs len ->
  (forall j r, nth_error rs j = Some r -> S j < List.length rs -> r = PASS)
  /\ (count FAIL rs <= 1)%Z.
Proof.
  induction 1 as [|r0 len H0|r0 rs len H0 St [IH1 IH2]].
  - split; [intros [] r H; discriminate | unfold count; simpl; lia].
  - split.
    + intros j r Hj Hl. simpl in Hl. lia.
    + rewrite count_cons. replace (count FAIL []) with 0%Z by reflexivity.
      destruct (_Result_eqb FAIL r0); lia.
  - destruct r0; try discriminate H0. split.
    + intros [|j] r Hj Hl; simpl in Hj, Hl.
      * now inversion Hj.
      * apply (IH1 j r Hj). lia.
    + rewrite count_cons. cbn [_Result_eqb]. lia.
Qed.

(** X5. Without [keep_going], every check that ran before the last one
    passed, and at most one failure is counted. *)
Theorem fail_fast_counts_one_failure (env : Env) (self : Presubmit)
        (program : list (_Check * list Path)) (tr : Trace) :
  exists new rs,
    snd (_execute_checks env self program false tr) = tr ++ new
    /\ results_of new = combine (map fst program) rs
    /\ List.length rs <= List.length program
    /\ (forall j r, nth_error rs j = Some r -> S j < List.length rs -> r = PASS)
    /\ (forall passed failed skipped,
           fst (_execute_checks env self program false tr)
           = Normal (passed, failed, skipped) ->
           failed = 0%Z \/ failed = 1%Z).
Proof.
  destruct (_execute_checks_spec env self program false tr)
    as (new & rs & Hs & R & Cases).
  exists new, rs. split; [exact Hs|]. split; [exact R|].
  split.
  { destruct Cases as [(_ & _ & St)|(e & _ & _ & _ & L & _)];
      [exact (Stopped_length St) | lia]. }
  destruct Cases as [(F & I & St)|(e & F & _ & _ & _ & A)].
  - destruct (Stopped_fail_fast St) as [H1 H2]. split; [exact H1|].
    intros p f s H. rewrite F in H. injection H as <- <- <-.
    pose proof (count_nonneg FAIL rs). lia.
  - split.
    + intros j r Hj _. pose proof (@Forall_nth_error _ _ _ _ _ A Hj) as Hc.
      destruct r; [reflexivity | discriminate..].
    + intros p f s H. rewrite F in H. discriminate.
Qed.

(* ------------------------------------------------------------------ *)
(** ** Sanitized names *)

Section Collapse.
Variable cls : ascii -> bool.
Hypothesis cls_underscore : cls "_" = true.

Lemma sub_class_plus_collapsed (s : string) :
  forall b,
    collapsed cls (Str.sub_class_plus cls "_" b s) = true
    /\ (b = true -> starts_in cls (Str.sub_class_plus cls "_" b s) = false).
Proof.
  induction s as [|c s IH]; intros b; [split; reflexivity|].
  simpl. destruct (cls c) eqn:C.
  - destruct (IH true) as [H1 H2]. destruct b.
    + split; [exact H1 | exact H2].
    + split; [|discriminate]. simpl. rewrite cls_underscore, H1, H2 by reflexivity.
      reflexivity.
  - destruct (IH false) as [H1 _]. split.
    + simpl. rewrite C. exact H1.
    + intros _. simpl. exact C.
Qed.


End Collapse.

Lemma lower_char_class (c : ascii) :
  (negb (Str.is_word (Str.lower_char c)) || (Str.lower_char c =? "_")%char)
  = (negb (Str.is_word c) || (c =? "_")%char).
Proof. all_chars c; reflexivity. Qed.





Lemma has_double_underscore_cons (a b : ascii) (s : string) :
  has_double_underscore (String a (String b s))
  = ((a =? "_")%char && (b =? "_")%char) || has_double_underscore (String b s).
Proof. reflexivity. Qed.

Lemma collapsed_lower (s : string) :
  collapsed (fun c => negb (Str.is_word c) || (c =? "_")%char) s = true ->
  has_double_underscore (Str.lower s) = false.
Proof.
  induction s as [|a s IH]; [reflexivity|].
  intros H. simpl in H. apply andb_true_iff in H. destruct H as [Ha Hs].
  specialize (IH Hs). destruct s as [|b s]; [reflexivity|].
  change (Str.lower (String a (String b s)))
    with (String (Str.lower_char a) (Str.lower (String b s))).
  change (Str.lower (String b s))
    with (String (Str.lower_char b) (Str.lower s)) in *.
  rewrite has_double_underscore_cons, IH, orb_false_r.
  destruct ((Str.lower_char a =? "_")%char) eqn:Ea; [|reflexivity].
  destruct ((Str.lower_char b =? "_")%char) eqn:Eb; [|reflexivity].
  exfalso.
  assert (Ca : (negb (Str.is_word a) || (a =? "_")%char) = true).
  { rewrite <- lower_char_class, Ea. apply orb_true_r. }
  assert (Cb : (negb (Str.is_word b) || (b =? "_")%char) = true).
  { rewrite <- lower_char_class, Eb. apply orb_true_r. }
  rewrite Ca in Ha. simpl in Ha. rewrite Cb in Ha.
  rewrite andb_false_r in Ha. discriminate.
Qed.

(** X7. A sanitized name never holds two underscores in a row. *)
Theorem sanitized_name_no_double_underscore (name : string) :
  has_double_underscore (sanitized_name name) = false.
Proof.
  unfold sanitized_name. apply collapsed_lower.
  apply (@sub_class_plus_collapsed
           (fun c => negb (Str.is_word c) || (c =? "_")%char) eq_refl name false).
Qed.

(* ------------------------------------------------------------------ *)
(** ** Edge cases of the resolution *)

Section ResolutionEdges.
Context {re : ReEngine}.

Lemma compile_all_outcome (exps : list string) (e : Exc) :
  compile_all exps = Propagates e ->
  exists x, In x exps /\ compile x = None /\ e = re_error x.
Proof.
  unfold compile_all. induction exps as [|y exps IH]; simpl; [discriminate|].
  destruct (compile y) as [pat|] eqn:C; simpl.
  - destruct (omap _ exps) as [pats|e0]; simpl; [discriminate|].
    intros H. injection H as <-.
    destruct (IH eq_refl) as (x & I & Cx & E).
    exists x. split; [now right|]. split; assumption.
  - intros H. injection H as <-. exists y.
    split; [now left|]. split; [exact C | reflexivity].
Qed.

Lemma filtered_paths_outcome (filt : _PathFilter) (paths : list Path) (e : Exc) :
  filtered_paths filt paths = Propagates e ->
  exists x, In x (exclude filt) /\ compile x = None /\ e = re_error x.
Proof.
  unfold filtered_paths.
  destruct (compile_all (exclude filt)) as [pats|e0] eqn:C; simpl; [discriminate|].
  intros H. injection H as <-. now apply compile_all_outcome.
Qed.

Lemma first_error_compiles (paths : list Path) (fs : list _PathFilter) :
  (forall f x, In f fs -> In x (exclude f) -> compile x <> None) ->
  first_error paths fs = None.
Proof.
  induction fs as [|f fs IH]; intros H; [reflexivity|].
  simpl. destruct (filtered_paths f paths) as [l|e] eqn:F.
  - apply IH. intros g x Hg. apply H. now right.
  - destruct (filtered_paths_outcome _ _ F) as (x & I & C & _).
    elim (H f x (or_introl eq_refl) I C).
Qed.

Lemma first_error_malformed (paths : list Path) (fs : list _PathFilter) :
  (exists f x, In f fs /\ In x (exclude f) /\ compile x = None) ->
  exists x, compile x = None /\ first_error paths fs = Some (re_error x).
Proof.
  induction fs as [|g fs IH]; intros (f & x & Hf & Hx & C); [destruct Hf|].
  simpl. destruct (filtered_paths g paths) as [l|e] eqn:F.
  - destruct Hf as [->|Hf].
    + destruct (filtered_paths_error f paths (ex_intro _ x (conj Hx C)))
        as (y & _ & _ & E). congruence.
    + apply IH. eauto.
  - destruct (filtered_paths_outcome _ _ F) as (y & _ & Cy & ->). eauto.
Qed.

Lemma subset_of_empty (f : _PathFilter) : subset_of [] f = [].
Proof.
  unfold subset_of, filtered_paths.
  destruct (compile_all (exclude f)); reflexivity.
Qed.

Lemma kept_empty (checks : list _Check) :
  kept [] checks = map (fun c => (c, [])) (List.filter always_run checks).
Proof.
  rewrite kept_map. induction checks as [|c cs IH]; [reflexivity|].
  cbn [List.filter]. rewrite subset_of_empty.
  change (keeps [] c) with (always_run c).
  destruct (always_run c); cbn [map]; rewrite ?subset_of_empty, IH;
    reflexivity.
Qed.

(** X8. On an empty universe of paths, when the exclude patterns compile,
    the executed program is the list of the [always_run] checks (the wrapped
    plain callables among them), in their order, each with no paths. *)
Theorem empty_universe_keeps_always_run (program : list ProgramItem) :
  (forall c x, In c (wrap_all (first_free program) program) ->
               In x (exclude (path_filter c)) -> compile x <> None) ->
  _apply_filters program []
  = Normal (map (fun c => (c, []))
                (List.filter always_run (wrap_all (first_free program) program))).
Proof.
  intros H. rewrite _apply_filters_spec, first_error_compiles.
  - f_equal. apply kept_empty.
  - intros f x Hf Hx. apply in_map_iff in Hf. destruct Hf as (c & <- & Hc).
    eauto.
Qed.

(** X9. A malformed exclude pattern in the filter of any registered check
    makes the run raise [re.error] before anything else happens: no check is
    called and no summary is written, whatever the paths are. *)
Theorem malformed_pattern_aborts_run (env : Env) (self : Presubmit)
        (program : list ProgramItem) (keep_going : bool) (tr : Trace)
        (c : _Check) (x : string) :
  In c (wrap_all (first_free program) program) ->
  In x (exclude (path_filter c)) ->
  compile x = None ->
  exists y, compile y = None
            /\ run env self program keep_going tr = (Propagates (re_error y), tr).
Proof.
  intros Hc Hx C.
  destruct (first_error_malformed (_paths self)
              (map path_filter (wrap_all (first_free program) program)))
    as (y & Cy & E).
  { exists (path_filter c), x. split; [now apply in_map|]. now split. }
  exists y. split; [exact Cy|].
  rewrite run_unfold, _apply_filters_spec, E. reflexivity.
Qed.

End ResolutionEdges.

Lemma empty_universe_keeps_always_run_witness :
  _apply_filters (re := Fragment.engine)
                 [IsCheck header_check; Plain fA; IsCheck always_check] []
  = Normal [(_Check_init 14 fA _PathFilter_default true, []);
            (always_check, [])].
Proof.
  apply (empty_universe_keeps_always_run (re := Fragment.engine)
           [IsCheck header_check; Plain fA; IsCheck always_check]).
  intros c x [<-|[<-|[<-|[]]]] [].
Defined.

Lemma malformed_pattern_aborts_run_witness :
  exists y,
    run (re := Fragment.engine) quiet_env
        (mkPresubmit (mkPath true ["repo"%string]) (mkPath true ["out"%string]) [])
        [Plain fA; IsCheck broken_check] true []
    = (Propagates (re_error y), []).
Proof.
  destruct (malformed_pattern_aborts_run (re := Fragment.engine) quiet_env
              (mkPresubmit (mkPath true ["repo"%string])
                           (mkPath true ["out"%string]) [])
              [Plain fA; IsCheck broken_check] true [] broken_check "*")
    as (y & _ & H).
  - right. now left.
  - now left.
  - reflexivity.
  - now exists y.
Defined.

(* ------------------------------------------------------------------ *)
(** ** Edge cases of a check *)

Lemma append_not_empty (a b : string) :
  b <> EmptyString -> (a ++ b)%string <> EmptyString.
Proof. destruct a; simpl; [auto | discriminate]. Qed.

(** X10. A [PresubmitFailure] raised with a path is always logged, also
    with an empty description: its message is the path, a colon and the
    description. *)
Theorem failure_with_path_is_logged (env : Env) (self : _Check)
        (ctx : PresubmitContext) (tr : Trace) (description : string)
        (path : option PathOrStr) :
  binds_one_positional (parameters (_check self)) = true ->
  truthy path = true ->
  body env (_check self) (tr ++ [Invoke self ctx]) ctx
  = Raises (PresubmitFailure_init description path) ->
  _call_function env self ctx tr
  = (Normal FAIL,
     tr ++ [Invoke self ctx;
            LogWarning (format_path path ++ ": " ++ description)]).
Proof.
  intros B T R.
  unfold _call_function, try_except, call, bind, emit, ret.
  rewrite B, R. unfold PresubmitFailure_init. rewrite T.
  assert (N : ((format_path path ++ ": " ++ description) =? "")%string = false).
  { apply String.eqb_neq. apply append_not_empty. discriminate. }
  rewrite N. simpl. norm_trace. reflexivity.
Qed.

Lemma failure_with_path_is_logged_witness :
  _call_function (reporting_env (Path_of "src/a.h")) (check_named "pragma_once")
                 empty_context []
  = (Normal FAIL, [Invoke (check_named "pragma_once") empty_context;
                   LogWarning "src/a.h: "]).
Proof.
  exact (@failure_with_path_is_logged (reporting_env (Path_of "src/a.h"))
           (check_named "pragma_once") empty_context [] ""
           (Some (APath (Path_of "src/a.h"))) eq_refl eq_refl eq_refl).
Defined.

(** X11. The validation of [filter_paths] counts parameters and does not
    look at their kind: a function whose only parameter is keyword-only or
    [**kwargs] is accepted, and every run of its check fails with a
    [TypeError] logged, the function never being entered; with any other
    kind of parameter the call is bound. *)
Theorem accepted_function_need_not_bind (env : Env)
        (endswith exclude : StrOrIterable) (always_run : bool) (addr : nat)
        (function : Callable) (p : Param) :
  parameters function = [p] ->
  exists c,
    filter_paths endswith exclude always_run addr function = Normal c
    /\ _check c = function
    /\ match kind p with
       | KEYWORD_ONLY | VAR_KEYWORD =>
           forall ctx tr,
           exists message,
             _call_function env c ctx tr
             = (Normal FAIL,
                tr ++ [Invoke c ctx; LogException (name c) (TypeError message)])
       | _ => binds_one_positional (parameters (_check c)) = true
       end.
Proof.
  intros P. unfold filter_paths. rewrite P. simpl.
  eexists. split; [reflexivity|]. split; [reflexivity|].
  destruct p as [[] d]; simpl;
    first [ rewrite P; unfold binds_one_positional; simpl; now destruct d
          | intros ctx tr; eexists;
            unfold _call_function, try_except, call, bind, emit, ret; simpl;
            rewrite P; simpl; norm_trace; reflexivity ].
Qed.

Lemma accepted_function_need_not_bind_witness :
  exists c,
    filter_paths (OneStr ".h") (Strs []) false 20 keyword_only_function
    = Normal c
    /\ fst (_call_function quiet_env c empty_context []) = Normal FAIL.
Proof.
  destruct (accepted_function_need_not_bind quiet_env (OneStr ".h") (Strs [])
              false 20 keyword_only_function eq_refl) as (c & E & _ & H).
  exists c. split; [exact E|].
  destruct (H empty_context []) as [message F]. now rewrite F.
Defined.

(* ------------------------------------------------------------------ *)
(** ** Words and summaries *)

Lemma endswith_append (a b e : string) :
  Str.endswith b e = true -> Str.endswith (a ++ b) e = true.
Proof.
  intros H. apply endswith_spec in H. destruct H as [pre ->].
  apply endswith_spec. exists (a ++ pre)%string.
  induction a as [|c a IH]; simpl; [reflexivity | now rewrite IH].
Qed.

Lemma drop_last_append (s : string) (x : ascii) :
  drop_last (s ++ String x EmptyString) = s.
Proof.
  induction s as [|c s IH]; [reflexivity|].
  change (drop_last (String c s ++ String x EmptyString))
    with (match (s ++ String x EmptyString)%string with
          | EmptyString => EmptyString
          | _ => String c (drop_last (s ++ String x EmptyString))
          end).
  rewrite IH. destruct s; reflexivity.
Qed.

Lemma drop_last_y (s : string) :
  Str.endswith s "y" = true -> (drop_last s ++ "y")%string = s.
Proof.
  intros H. apply endswith_spec in H. destruct H as [pre ->].
  now rewrite drop_last_append.
Qed.

Lemma prefix_append (a b : string) : prefix a (a ++ b) = true.
Proof.
  induction a as [|c a IH]; simpl; [now destruct b|].
  destruct (ascii_dec c c); [exact IH | congruence].
Qed.

Lemma append_assoc (a b c : string) : ((a ++ b) ++ c = a ++ (b ++ c))%string.
Proof. induction a as [|x a IH]; simpl; [reflexivity | now rewrite IH]. Qed.

(** X12. [plural]: for a count of one the result is the count and the
    singular unchanged, whatever its ending (also for a word in y); for any
    other count the word gets an ending in s; the result always starts with
    the rendered count and a space. *)
Theorem plural_forms (render : Z -> string) (items_or_count : ItemsOrCount)
        (singular : string) :
  let count := match items_or_count with
               | Items len => Z.of_nat len
               | Count n => n
               end in
  (count = 1%Z ->
   plural render items_or_count singular = (render 1%Z ++ " " ++ singular)%string)
  /\ (count <> 1%Z ->
      Str.endswith (plural render items_or_count singular) "s" = true)
  /\ Str.startswith (plural render items_or_count singular)
                    (render count ++ " ") = true.
Proof.
  intros count. unfold plural. fold count.
  destruct (Str.endswith singular "y") eqn:Y;
    [|destruct (Str.endswith singular "s") eqn:S].
  - split; [|split].
    + intros E. rewrite E. change (1 =? 1)%Z with true. cbv iota.
      now rewrite (@drop_last_y _ Y).
    + intros N. apply Z.eqb_neq in N. rewrite N.
      do 3 (apply endswith_append). reflexivity.
    + unfold Str.startswith. rewrite <- append_assoc. apply prefix_append.
  - split; [|split].
    + intros E. rewrite E. change (1 =? 1)%Z with true. cbv iota.
      now rewrite append_empty_r.
    + intros N. apply Z.eqb_neq in N. rewrite N.
      do 3 (apply endswith_append). reflexivity.
    + unfold Str.startswith. rewrite <- append_assoc. apply prefix_append.
  - split; [|split].
    + intros E. rewrite E. change (1 =? 1)%Z with true. cbv iota.
      now rewrite append_empty_r.
    + intros N. apply Z.eqb_neq in N. rewrite N.
      do 3 (apply endswith_append). reflexivity.
    + unfold Str.startswith. rewrite <- append_assoc. apply prefix_append.
Qed.

Lemma plural_forms_witness :
  plural decimal (Count 1) "directory" = "1 directory"%string
  /\ Str.endswith (plural decimal (Items 3) "directory") "s" = true.
Proof.
  destruct (plural_forms decimal (Count 1) "directory") as (H1 & _ & _).
  destruct (plural_forms decimal (Items 3) "directory") as (_ & H2 & _).
  split; [exact (H1 eq_refl) | apply H2; discriminate].
Defined.

Lemma decimal_head (n : Z) :
  exists c s, decimal n = String c s /\ c <> "n"%char.
Proof.
  unfold decimal.
  destruct (Z.to_int n) as [d|d]; simpl.
  - destruct d; simpl; eexists _, _; (split; [reflexivity | discriminate]).
  - eexists _, _. split; [reflexivity | discriminate].
Qed.

Lemma join_head (x : string) (l : list string) (c : ascii) (s : string) :
  x = String c s ->
  exists s', Str.join ", " (x :: l) = String c s'.
Proof.
  intros ->. unfold Str.join. destruct l; simpl; eauto.
Qed.

(** X13. The summary reads "nothing was done" exactly when nothing passed,
    failed or was skipped. *)
Theorem summary_nothing_was_done (passed failed skipped : Z) :
  summary_of passed failed skipped = "nothing was done"%string
  <-> passed = 0%Z /\ failed = 0%Z /\ skipped = 0%Z.
Proof.
  split.
  - unfold summary_of.
    assert (Head : forall n rest l,
               exists c s', Str.join ", " ((decimal n ++ rest)%string :: l)
                            = String c s' /\ c <> "n"%char).
    { intros n rest l. destruct (decimal_head n) as (c & s & E & N).
      destruct (@join_head (decimal n ++ rest)%string l c (s ++ rest)%string)
        as [s' J]; [now rewrite E|].
      exists c, s'. split; assumption. }
    destruct (Z.eqb_spec passed 0) as [->|P].
    + destruct (Z.eqb_spec failed 0) as [->|F].
      * destruct (Z.eqb_spec skipped 0) as [->|K]; [auto|].
        cbn [app].
        destruct (Head skipped " not run"%string []) as (c & s' & -> & N).
        simpl. intros H. inversion H. congruence.
      * cbn [app].
        destruct (Head failed " failed"%string
                       (if (skipped =? 0)%Z then []
                        else [(decimal skipped ++ " not run")%string]))
          as (c & s' & -> & N).
        simpl. intros H. inversion H. congruence.
    + cbn [app].
      destruct (Head passed " passed"%string
                     ((if (failed =? 0)%Z then []
                       else [(decimal failed ++ " failed")%string])
                      ++ (if (skipped =? 0)%Z then []
                          else [(decimal skipped ++ " not run")%string])))
        as (c & s' & -> & N).
      simpl. intros H. inversion H. congruence.
  - intros (-> & -> & ->). reflexivity.
Qed.

(** X14. The summary box shows PASSED exactly when [run] returns [True]:
    for the counts of the summary of a run, the result of [_log_summary] is
    PASS if and only if the run succeeded. *)
Theorem summary_box_agrees_with_run {re : ReEngine} (env : Env)
        (self : Presubmit) (full_program : list ProgramItem)
        (keep_going : bool) (tr : Trace) (success : bool) :
  fst (run env self full_program keep_going tr) = Normal success ->
  exists passed failed skipped,
    last (snd (run env self full_program keep_going tr)) PrintLine
    = Summary passed failed skipped
    /\ (box_result (_log_summary self passed failed skipped) = PASS
        <-> success = true).
Proof.
  rewrite run_unfold.
  destruct (_apply_filters full_program (_paths self)) as [program|e];
    [|discriminate].
  destruct (_execute_checks env self program keep_going tr)
    as [[[[p f] s]|e] tr']; [|discriminate].
  simpl. intros H. injection H as <-.
  exists p, f, s. split; [apply last_last|].
  destruct (f =? 0)%Z, (s =? 0)%Z; simpl; split; congruence.
Qed.

Lemma summary_box_agrees_with_run_witness :
  box_result (_log_summary sample_presubmit 1 1 1) = FAIL
  /\ box_text (_log_summary sample_presubmit 1 1 1)
     = "3 checks on 3 files: 1 passed, 1 failed, 1 not run"%string.
Proof.
  destruct (@summary_box_agrees_with_run Fragment.engine abc_env
              sample_presubmit abc_program false [] false eq_refl)
    as (p & f & s & L & H).
  vm_compute in L. injection L as <- <- <-.
  split; reflexivity.
Defined.



(* ------------------------------------------------------------------ *)
(** ** Python packages *)

Lemma prefix_spec (a b : string) :
  prefix a b = true <-> exists t, b = (a ++ t)%string.
Proof.
  revert b. induction a as [|c a IH]; intros b.
  - split; [intros _; now exists b | intros _; now destruct b].
  - destruct b as [|d b].
    + split; [discriminate | intros [t H]; discriminate].
    + change (prefix (String c a) (String d b))
        with (match ascii_dec c d with
              | left _ => prefix a b
              | right _ => false
              end).
      destruct (ascii_dec c d) as [->|N].
      * rewrite IH. split; intros [t H]; exists t; simpl in *; congruence.
      * split; [discriminate | intros [t H]; simpl in H; congruence].
Qed.

Lemma prefix_refl (a : string) : prefix a a = true.
Proof. apply prefix_spec. exists ""%string. now rewrite append_empty_r. Qed.

Lemma prefix_trans (a b c : string) :
  prefix a b = true -> prefix b c = true -> prefix a c = true.
Proof.
  rewrite !prefix_spec. intros [t ->] [u ->].
  exists (t ++ u)%string. apply append_assoc.
Qed.

(** Two prefixes of one string: one is a prefix of the other. *)
Lemma prefix_comparable (a b p : string) :
  prefix a p = true -> prefix b p = true ->
  prefix a b = true \/ prefix b a = true.
Proof.
  revert b p. induction a as [|c a IH]; intros b p Ha Hb.
  - left. now destruct b.
  - destruct b as [|d b]; [right; reflexivity|].
    destruct p as [|e p]; [discriminate Ha|].
    change (prefix (String c a) (String e p))
      with (match ascii_dec c e with
            | left _ => prefix a p | right _ => false end) in Ha.
    change (prefix (String d b) (String e p))
      with (match ascii_dec d e with
            | left _ => prefix b p | right _ => false end) in Hb.
    destruct (ascii_dec c e) as [->|]; [|discriminate].
    destruct (ascii_dec d e) as [->|]; [|discriminate].
    change (prefix (String e a) (String e b))
      with (match ascii_dec e e with
            | left _ => prefix a b | right _ => false end).
    change (prefix (String e b) (String e a))
      with (match ascii_dec e e with
            | left _ => prefix b a | right _ => false end).
    destruct (ascii_dec e e); [|congruence].
    exact (IH b p Ha Hb).
Qed.

Lemma ascii_compare_refl (c : ascii) : (c ?= c)%char = Eq.
Proof.
  destruct (c ?= c)%char eqn:E; [reflexivity|..];
    pose proof (Ascii.compare_antisym c c) as A; rewrite E in A; discriminate.
Qed.

(** A prefix is not greater than the string. *)
Lemma prefix_not_greater (a b : string) :
  prefix a b = true -> (a ?= b)%string <> Gt.
Proof.
  revert b. induction a as [|c a IH]; intros b H.
  - destruct b; discriminate.
  - destruct b as [|d b]; [discriminate H|].
    change (prefix (String c a) (String d b))
      with (match ascii_dec c d with
            | left _ => prefix a b | right _ => false end) in H.
    destruct (ascii_dec c d) as [->|]; [|discriminate].
    simpl. rewrite ascii_compare_refl. now apply IH.
Qed.

Lemma ltb_prefix_cases (m x p : string) :
  prefix m p = true -> prefix x p = true ->
  if String.ltb m x then prefix m x = true else prefix x m = true.
Proof.
  intros Hm Hx. unfold String.ltb.
  destruct (prefix_comparable _ _ _ Hm Hx) as [H|H].
  - pose proof (prefix_not_greater _ _ H) as G.
    destruct (m ?= x)%string eqn:E; [|exact H|congruence].
    apply String.compare_eq_iff in E. subst. apply prefix_refl.
  - pose proof (prefix_not_greater _ _ H) as G.
    pose proof (String.compare_antisym x m) as A.
    destruct (m ?= x)%string eqn:E; simpl in A; [exact H | | exact H].
    congruence.
Qed.

Lemma max_string_longest (p : string) (rest : list string) :
  forall first,
    prefix first p = true ->
    Forall (fun x => prefix x p = true) rest ->
    In (max_string first rest) (first :: rest)
    /\ prefix first (max_string first rest) = true
    /\ Forall (fun x => prefix x (max_string first rest) = true) rest.
Proof.
  unfold max_string.
  induction rest as [|x rest IH]; intros first Hf Hr.
  - simpl. split; [now left|]. split; [apply prefix_refl | constructor].
  - inversion Hr as [|? ? Hx Hrest]; subst. simpl.
    pose proof (ltb_prefix_cases _ _ _ Hf Hx) as C.
    destruct (String.ltb first x).
    + destruct (IH x Hx Hrest) as (I & P & F).
      split; [now right|]. split; [eapply prefix_trans; eassumption|].
      constructor; assumption.
    + destruct (IH first Hf Hrest) as (I & P & F).
      split; [destruct I as [I|I]; [now left | right; now right]|].
      split; [exact P|]. constructor; [eapply prefix_trans; eassumption | exact F].
Qed.

(** X16. The setup directory chosen for a path is, among the setup
    directories that the path starts with, the one that all the others are
    prefixes of, hence the longest; none is chosen exactly when the path
    starts with no setup directory. *)
Theorem best_setup_is_longest (setup_pys : list string) (path : string) :
  (forall s, best_setup setup_pys path = Some s ->
             In s setup_pys
             /\ Str.startswith path s = true
             /\ forall s', In s' setup_pys -> Str.startswith path s' = true ->
                           prefix s' s = true
                           /\ String.length s' <= String.length s)
  /\ (best_setup setup_pys path = None
      <-> forall s', In s' setup_pys -> Str.startswith path s' = false).
Proof.
  unfold best_setup.
  destruct (List.filter (Str.startswith path) setup_pys) as [|first rest] eqn:F.
  - split; [discriminate|]. split; [|reflexivity].
    intros _ s' Hs. destruct (Str.startswith path s') eqn:E; [|reflexivity].
    assert (I : In s' (List.filter (Str.startswith path) setup_pys))
      by (apply filter_In; now split).
    rewrite F in I. destruct I.
  - assert (All : forall x, In x (first :: rest) ->
                            In x setup_pys /\ prefix x path = true).
    { intros x Hx. rewrite <- F in Hx. apply filter_In in Hx. exact Hx. }
    destruct (@max_string_longest path rest first) as (I & P & R).
    { apply All. now left. }
    { apply Forall_forall. intros x Hx. apply All. now right. }
    split.
    + intros s H. injection H as <-.
      destruct (All _ I) as [Is Ps]. split; [exact Is|]. split; [exact Ps|].
      intros s' Hs' Hp.
      assert (I' : In s' (first :: rest))
        by (rewrite <- F; apply filter_In; now split).
      assert (Q : prefix s' (max_string first rest) = true).
      { destruct I' as [<-|I']; [exact P|].
        rewrite Forall_forall in R. now apply R. }
      split; [exact Q|].
      apply prefix_spec in Q. destruct Q as [t ->].
      clear. induction s' as [|c s' IH]; simpl; lia.
    + split; [discriminate|]. intros H.
      destruct (All first (or_introl eq_refl)) as [If Pf].
      unfold Str.startswith in H. rewrite (H first If) in Pf. discriminate.
Qed.

Lemma best_setup_is_longest_witness :
  best_setup ["/repo"; "/repo/pw_cli/py"]%string "/repo/pw_cli/py/pw_cli/log.py"
  = Some "/repo/pw_cli/py"%string
  /\ prefix "/repo" "/repo/pw_cli/py" = true.
Proof.
  destruct (best_setup_is_longest ["/repo"; "/repo/pw_cli/py"]%string
              "/repo/pw_cli/py/pw_cli/log.py") as [H _].
  destruct (H "/repo/pw_cli/py"%string eq_refl) as (_ & _ & L).
  split; [reflexivity|].
  apply (L "/repo"%string); [now left | reflexivity].
Defined.

Lemma append_path_In (d : dict string (list string)) (k path k' p : string)
      (fs : list string) :
  In (k', fs) (append_path d k path) -> In p fs ->
  (exists fs0, In (k', fs0) d /\ In p fs0) \/ (k' = k /\ p = path).
Proof.
  unfold append_path. intros H Hp.
  apply In_set_inv in H. destruct H as [[E1 E2]|H]; [|left; eauto].
  subst k' fs.
  destruct (get string_dec d k) as [old|] eqn:G.
  - apply in_app_or in Hp. destruct Hp as [Hp|[<-|[]]]; [|now right].
    left. exists old. split; [now apply get_In in G | exact Hp].
  - destruct Hp as [<-|[]]. now right.
Qed.

Lemma append_path_get (d : dict string (list string)) (k path : string) :
  (exists fs, get string_dec (append_path d k path) k = Some fs /\ In path fs)
  /\ forall k' fs p,
      get string_dec d k' = Some fs -> In p fs ->
      exists fs', get string_dec (append_path d k path) k' = Some fs'
                  /\ In p fs'.
Proof.
  unfold append_path. split.
  - rewrite get_set. destruct (string_dec k k); [|congruence].
    eexists. split; [reflexivity|].
    destruct (get string_dec d k); [apply in_or_app; right|]; now left.
  - intros k' fs p G Hp. rewrite get_set.
    destruct (string_dec k' k) as [->|N].
    + rewrite G. eexists. split; [reflexivity|]. apply in_or_app. now left.
    + eauto.
Qed.

Lemma file_packages_spec (sys : System) (setups : list string)
      (paths : list string) :
  forall d : dict string (list string),
    (forall key files path,
        In (key, files) (fold_left (file_package sys setups) paths d) ->
        In path files ->
        (exists files0, In (key, files0) d /\ In path files0)
        \/ (In path paths
            /\ exists s, best_setup setups path = Some s /\ key = abspath sys s))
    /\ (forall path s,
           In path paths -> best_setup setups path = Some s ->
           exists files,
             get string_dec (fold_left (file_package sys setups) paths d)
                 (abspath sys s) = Some files
             /\ In path files)
    /\ (forall key files path,
           get string_dec d key = Some files -> In path files ->
           exists files',
             get string_dec (fold_left (file_package sys setups) paths d) key
             = Some files'
             /\ In path files').
Proof.
  induction paths as [|p paths IH]; intros d.
  - split; [|split].
    + intros key files path H Hp. left. eauto.
    + intros path s [].
    + intros key files path G Hp. eauto.
  - simpl fold_left. destruct (IH (file_package sys setups d p)) as (A & B & C).
    assert (Keep : forall key files path,
               get string_dec d key = Some files -> In path files ->
               exists files',
                 get string_dec (file_package sys setups d p) key = Some files'
                 /\ In path files').
    { intros key files path G Hp. unfold file_package.
      destruct (best_setup setups p); [|eauto].
      now apply (proj2 (append_path_get d (abspath sys s) p) key files path). }
    split; [|split].
    + intros key files path H Hp.
      destruct (A key files path H Hp) as [(files0 & H0 & Hp0)|(I & s & E & K)].
      * unfold file_package in H0.
        destruct (best_setup setups p) as [s|] eqn:E; [|left; eauto].
        destruct (@append_path_In _ _ _ _ _ _ H0 Hp0) as [?|[-> ->]];
          [now left|].
        right. split; [now left | eauto].
      * right. split; [now right | eauto].
    + intros path s [<-|I] E.
      * assert (G : exists files,
                   get string_dec (file_package sys setups d p) (abspath sys s)
                   = Some files /\ In p files).
        { unfold file_package. rewrite E. apply append_path_get. }
        destruct G as (files & G & Hp). eauto.
      * eauto.
    + intros key files path G Hp.
      destruct (Keep key files path G Hp) as (files' & G' & Hp'). eauto.
Qed.

Lemma file_package_no_setup (sys : System) (paths : list string) :
  forall d, fold_left (file_package sys []) paths d = d.
Proof. induction paths as [|p paths IH]; intros d; [reflexivity | apply IH]. Qed.

(** X17. [find_python_packages] files every path, made absolute, under the
    absolute form of the longest setup directory that it starts with, and
    nowhere else; a path that starts with no setup directory is left out. *)
Theorem python_files_are_filed (sys : System) (python_paths : list string)
        (repo : string) :
  (forall key files path,
      In (key, files) (find_python_packages sys python_paths repo) ->
      In path files ->
      exists q s,
        In q python_paths /\ path = abspath sys q
        /\ best_setup (setup_dirs sys repo) path = Some s
        /\ key = abspath sys s)
  /\ (forall q s,
         In q python_paths ->
         best_setup (setup_dirs sys repo) (abspath sys q) = Some s ->
         exists files,
           get string_dec (find_python_packages sys python_paths repo)
               (abspath sys s) = Some files
           /\ In (abspath sys q) files)
  /\ (_git_ls_files sys ["setup.py"; "*/setup.py"]%string repo = [] ->
      find_python_packages sys python_paths repo = []).
Proof.
  unfold find_python_packages.
  destruct (file_packages_spec sys (setup_dirs sys repo)
              (map (abspath sys) python_paths) []) as (A & B & _).
  split; [|split].
  - intros key files path H Hp.
    destruct (A key files path H Hp) as [(files0 & [] & _)|(I & s & E & K)].
    apply in_map_iff in I. destruct I as (q & <- & Hq). eauto 8.
  - intros q s Hq E. apply B; [now apply in_map | exact E].
  - intros E. unfold setup_dirs. rewrite E. apply file_package_no_setup.
Qed.

Lemma python_files_are_filed_witness :
  find_python_packages nested_packages
    ["/repo/pw_cli/py/pw_cli/log.py"; "/tmp/x.py"; "/repo/build.py"]%string "."
  = [("/repo/pw_cli/py", ["/repo/pw_cli/py/pw_cli/log.py"]);
     ("/repo", ["/repo/build.py"])]%string.
Proof.
  destruct (python_files_are_filed nested_packages
              ["/repo/pw_cli/py/pw_cli/log.py"; "/tmp/x.py"; "/repo/build.py"]%string
              ".") as (_ & B & _).
  destruct (B "/repo/build.py"%string "/repo"%string) as (files & G & I);
    [right; right; now left | reflexivity |].
  reflexivity.
Defined.

(* ------------------------------------------------------------------ *)
(** ** Listing the files *)

Lemma list_compare_antisym (a b : list string) :
  list_compare a b = CompOpp (list_compare b a).
Proof.
  revert b. induction a as [|x a IH]; intros [|y b]; simpl; try reflexivity.
  rewrite (String.compare_antisym x y).
  destruct (y ?= x)%string; simpl; [apply IH | reflexivity..].
Qed.

Lemma Path_ltb_asym (p q : Path) : Path_ltb p q = true -> Path_ltb q p = false.
Proof.
  unfold Path_ltb. rewrite (list_compare_antisym (cparts q) (cparts p)).
  destruct (list_compare (cparts p) (cparts q)); simpl; congruence.
Qed.

Lemma insert_sorted_In (p x : Path) (l : list Path) :
  In x (insert_sorted p l) <-> x = p \/ In x l.
Proof.
  induction l as [|q l IH]; simpl.
  - split; [intros [H|[]]; now left | intros [H|[]]; now left].
  - destruct (Path_ltb p q); simpl.
    + split; [intros [H|H]; auto | intros [H|H]; auto].
    + rewrite IH. split.
      * intros [H|[H|H]]; auto.
      * intros [H|[H|H]]; auto.
Qed.

Lemma insert_sorted_Sorted (p : Path) (l : list Path) :
  Sorted Path_le l -> Sorted Path_le (insert_sorted p l).
Proof.
  induction 1 as [|q l S IH Hd]; simpl.
  - repeat constructor.
  - destruct (Path_ltb p q) eqn:E.
    + constructor; [now constructor|]. constructor.
      unfold Path_le. now apply Path_ltb_asym.
    + constructor; [exact IH|].
      destruct l as [|r l]; simpl.
      * constructor. exact E.
      * destruct (Path_ltb p r); constructor; [exact E|].
        now inversion Hd.
Qed.

Lemma insert_sorted_NoDup (p : Path) (l : list Path) :
  ~ In p l -> NoDup l -> NoDup (insert_sorted p l).
Proof.
  induction l as [|q l IH]; intros N D; simpl.
  - constructor; [intros [] | constructor].
  - inversion D as [|? ? Nq Dl]; subst.
    destruct (Path_ltb p q).
    + constructor; assumption.
    + constructor.
      * rewrite insert_sorted_In. intros [->|H]; [apply N; now left | contradiction].
      * apply IH; [intros H; apply N; now right | exact Dl].
Qed.

Lemma sorted_spec (l : list Path) :
  NoDup l ->
  Sorted Path_le (sorted l) /\ NoDup (sorted l)
  /\ forall x, In x (sorted l) <-> In x l.
Proof.
  induction 1 as [|p l N D (S & U & I)]; simpl.
  - split; [constructor|]. split; [constructor | reflexivity].
  - split; [now apply insert_sorted_Sorted|]. split.
    + apply insert_sorted_NoDup; [now rewrite I | exact U].
    + intros x. rewrite insert_sorted_In, I. split; intros [H|H]; auto.
Qed.

(** X18. [list_git_files] returns the paths of the listed files that no
    exclude pattern is found in (a search, not a full match), each once, in
    increasing order. *)
Theorem list_git_files_is_a_sorted_set {re : ReEngine} (sys : System)
        (commit : option string) (paths : list string)
        (exclude : list Pattern) (repo : string) :
  Sorted Path_le (list_git_files sys commit paths exclude repo)
  /\ NoDup (list_git_files sys commit paths exclude repo)
  /\ forall p,
      In p (list_git_files sys commit paths exclude repo)
      <-> exists file,
          In file (listed_files sys commit paths repo)
          /\ p = Path_of file
          /\ forall exp, In exp exclude -> search exp file = false.
Proof.
  unfold list_git_files.
  destruct (sorted_spec (NoDup_nodup Path_eq_dec
              (map Path_of
                 (List.filter
                    (fun path => negb (existsb (fun exp => search exp path) exclude))
                    (listed_files sys commit paths repo)))))
    as (S & U & I).
  split; [exact S|]. split; [exact U|].
  intros p. rewrite I, nodup_In, in_map_iff. split.
  - intros (file & <- & H). apply filter_In in H. destruct H as [Hf Hx].
    exists file. split; [exact Hf|]. split; [reflexivity|].
    intros exp He. apply negb_true_iff in Hx.
    destruct (search exp file) eqn:E; [|reflexivity].
    assert (X : existsb (fun exp => search exp file) exclude = true)
      by (apply existsb_exists; eauto).
    congruence.
  - intros (file & Hf & -> & Hx). exists file. split; [reflexivity|].
    apply filter_In. split; [exact Hf|]. apply negb_true_iff.
    destruct (existsb (fun exp => search exp file) exclude) eqn:E;
      [|reflexivity].
    apply existsb_exists in E. destruct E as (exp & He & Hs).
    rewrite (Hx exp He) in Hs. discriminate.
Qed.

Lemma list_git_files_is_a_sorted_set_witness :
  list_git_files (re := Fragment.engine) sample_system None []
                 generated_pattern "."
  = [Path_of "/repo/src/a.py"; Path_of "/repo/src/b.py"]
  /\ NoDup (list_git_files (re := Fragment.engine) sample_system None []
                           generated_pattern ".").
Proof.
  split; [vm_compute; reflexivity|].
  exact (proj1 (proj2 (list_git_files_is_a_sorted_set
                         (re := Fragment.engine) sample_system
                         None [] generated_pattern "."))).
Defined.

(* ------------------------------------------------------------------ *)
(** ** The check [pragma_once] *)

Lemma pragma_once_is_filter_paths (addr : nat) :
  filter_paths (OneStr ".h") (Strs []) false addr pragma_once_function
  = Normal (pragma_once addr).
Proof. reflexivity. Qed.

Lemma pragma_once_body_returns (fs : Path -> FileState) (paths : list Path) :
  pragma_once_body fs paths = Returns <-> Forall (header_ok fs) paths.
Proof.
  induction paths as [|p paths IH]; simpl.
  - split; [constructor | reflexivity].
  - destruct (fs p) as [e|lines] eqn:F.
    + split; [discriminate|]. intros H. inversion H as [|? ? (l & E & _) _].
      congruence.
    + destruct (scan lines) eqn:S.
      * rewrite IH. split.
        -- intros H. constructor; [exists lines; now split | exact H].
        -- intros H. now inversion H.
      * split; [discriminate|]. intros H.
        inversion H as [|? ? (l & E & S') _]. congruence.
      * split; [discriminate|]. intros H.
        inversion H as [|? ? (l & E & S') _]. congruence.
Qed.

(** X19. [pragma_once] returns exactly when every file opens and has a line
    that starts with [#pragma once] before any line that cannot be read.
    Otherwise it stops at the first file that is not so: when that file
    lacks the line, the failure names it, and the files after it are not
    looked at. *)
Theorem pragma_once_reports_first_header (fs : Path -> FileState)
        (paths : list Path) :
  (pragma_once_body fs paths = Returns <-> Forall (header_ok fs) paths)
  /\ forall before path after lines,
      paths = before ++ path :: after ->
      Forall (header_ok fs) before ->
      fs path = Opened lines -> scan lines = Missing ->
      pragma_once_body fs paths
      = Raises (PresubmitFailure (str path ++ ": #pragma once is missing!")).
Proof.
  split; [apply pragma_once_body_returns|].
  intros before path after lines -> Hb Hf Hs.
  induction Hb as [|p before (l & E & S) Hb IH]; simpl.
  - rewrite Hf, Hs. reflexivity.
  - rewrite E, S. exact IH.
Qed.

Lemma pragma_once_reports_first_header_witness :
  pragma_once_body sample_files
                   [Path_of "/repo/a.h"; Path_of "/repo/b.h"; Path_of "/repo/c.h"]
  = Raises (PresubmitFailure "/repo/b.h: #pragma once is missing!").
Proof.
  apply (proj2 (pragma_once_reports_first_header sample_files
                  [Path_of "/repo/a.h"; Path_of "/repo/b.h"; Path_of "/repo/c.h"])
               [Path_of "/repo/a.h"] (Path_of "/repo/b.h") [Path_of "/repo/c.h"]
               [Line "#include <x>"]).
  - reflexivity.
  - constructor; [|constructor]. eexists. split; reflexivity.
  - reflexivity.
  - reflexivity.
Defined.




(* ------------------------------------------------------------------ *)
(** ** [run_presubmit] *)

Lemma list_prefix_skipn (a b : list string) :
  list_prefix a b = true -> a ++ skipn (List.length a) b = b.
Proof.
  revert b. induction a as [|x a IH]; intros b H; [reflexivity|].
  destruct b as [|y b]; [discriminate H|].
  simpl in H. apply andb_true_iff in H. destruct H as [E H].
  apply String.eqb_eq in E. subst y. simpl. f_equal. now apply IH.
Qed.

(** Joining the root and the path relative to the root gives the path
    back. *)
Lemma relative_to_joinpath (path root r : Path) :
  relative_to path root = Normal r -> joinpath root r = path.
Proof.
  unfold relative_to.
  destruct (Bool.eqb (has_root path) (has_root root)
            && list_prefix (parts root) (parts path)) eqn:C; [|discriminate].
  apply andb_true_iff in C. destruct C as [R P].
  apply eqb_prop in R. intros H. injection H as <-.
  unfold joinpath. simpl. rewrite (list_prefix_skipn _ _ P), <- R.
  now destruct path.
Qed.

Lemma omap_Forall2 {A B} (f : A -> Outcome B) (l : list A) (l' : list B) :
  omap f l = Normal l' -> Forall2 (fun x y => f x = Normal y) l l'.
Proof.
  revert l'. induction l as [|x l IH]; intros l' H; simpl in H.
  - injection H as <-. constructor.
  - destruct (f x) as [y|e] eqn:F; simpl in H; [|discriminate].
    destruct (omap f l) as [ys|e]; simpl in H; [|discriminate].
    injection H as <-. constructor; [exact F | now apply IH].
Qed.

Lemma omap_fails {A B} (f : A -> Outcome B) (l : list A) (x : A) (e : Exc) :
  In x l -> f x = Propagates e -> exists e', omap f l = Propagates e'.
Proof.
  induction l as [|y l IH]; intros H F; [destruct H|].
  destruct H as [<- | H]; simpl.
  - rewrite F. simpl. eauto.
  - destruct (f y); simpl; [|eauto].
    destruct (IH H F) as [e' ->]. simpl. eauto.
Qed.

Lemma In_firstn {A} (n : nat) (l : list A) (x : A) :
  In x (firstn n l) -> In x l.
Proof.
  revert l. induction n as [|n IH]; intros [|y l] H; simpl in H;
    try solve [destruct H].
  destruct H as [<- | H]; [now left | right; now apply IH].
Qed.

Lemma kept_incl {re : ReEngine} (paths : list Path) (checks : list _Check)
      (c : _Check) (ps : list Path) :
  In (c, ps) (kept paths checks) -> incl ps paths.
Proof.
  rewrite kept_map. intros H. apply in_map_iff in H.
  destruct H as (c' & E & _). injection E as _ <-.
  unfold subset_of, filtered_paths.
  destruct (compile_all (exclude (path_filter c'))); simpl.
  - intros p Hp. now apply filter_In in Hp.
  - intros p [].
Qed.

Lemma run_calls_within_universe {re : ReEngine} (env : Env) (self : Presubmit)
      (program : list ProgramItem) (keep_going : bool) (tr : Trace) :
  exists new,
    snd (run env self program keep_going tr) = tr ++ new
    /\ forall c ctx p,
        In (c, ctx) (invoked_of new) -> In p (paths ctx) ->
        exists r, In r (_paths self) /\ p = joinpath (_repository_root self) r.
Proof.
  destruct (_apply_filters program (_paths self)) as [resolved|e] eqn:R.
  - destruct (@run_trace re env self program keep_going tr resolved R)
      as (new & n & Hs & Hi).
    exists new. split; [exact Hs|].
    intros c ctx p Hc Hp. rewrite Hi in Hc. unfold planned in Hc.
    apply in_map_iff in Hc. destruct Hc as ([c' ps] & E & Hin).
    injection E as -> <-. simpl in Hp.
    apply in_map_iff in Hp. destruct Hp as (r & <- & Hr).
    exists r. split; [|reflexivity].
    apply In_firstn in Hin.
    rewrite _apply_filters_spec in R.
    destruct (first_error _ _) in R; [discriminate|].
    injection R as <-. eapply kept_incl; eassumption.
  - exists []. rewrite run_unfold, R. simpl. rewrite app_nil_r.
    split; [reflexivity | intros c ctx p []].
Qed.

(** X21. In a git repository, every path that a check of [run_presubmit]
    receives is one of the paths that [list_git_files] returned: the filters
    see the path relative to the root, and the check gets it back under the
    root. *)
Theorem checks_receive_listed_files {re : ReEngine} (sys : System)
        (repo : Repository) (env : Env) (program : list ProgramItem)
        (base : option string) (pathspecs : list string) (exclude : list Pattern)
        (repository : string) (output_directory : option PathOrStr)
        (keep_going : bool) (tr : Trace) :
  exists new,
    snd (fst (run_presubmit sys repo env program base pathspecs exclude repository
                            output_directory keep_going tr)) = tr ++ new
    /\ forall c ctx p,
        In (c, ctx) (invoked_of new) -> In p (paths ctx) ->
        In p (list_git_files sys base pathspecs exclude repository).
Proof.
  unfold run_presubmit.
  assert (Nothing : exists new,
             tr = tr ++ new
             /\ forall c ctx p,
                 In (c, ctx) (invoked_of new) -> In p (paths ctx) ->
                 In p (list_git_files sys base pathspecs exclude repository)).
  { exists []. rewrite app_nil_r. split; [reflexivity | intros c ctx p []]. }
  destruct (is_git_repo repo repository); simpl; [|exact Nothing].
  destruct (if samefile repo (git_repo_path repo repository) repository
            then Normal []
            else obind (relative_to (cwd env) (git_repo_path repo repository))
                       (fun subdirectory =>
                          Normal [Info subdirectory
                                       (git_repo_path repo repository)]))
    as [notices|e]; simpl; [|exact Nothing].
  destruct (omap (fun path => relative_to path (git_repo_path repo repository))
                 (list_git_files sys base pathspecs exclude repository))
    as [files|e] eqn:O; simpl; [|exact Nothing].
  destruct (run_calls_within_universe env
              (presubmit_of (git_repo_path repo repository) output_directory files)
              program keep_going tr) as (new & Hs & H).
  exists new. split; [exact Hs|].
  intros c ctx p Hc Hp. destruct (H c ctx p Hc Hp) as (r & Hr & ->).
  simpl in Hr. simpl _repository_root.
  apply omap_Forall2 in O.
  clear - O Hr. induction O as [|x y l l' F O IH]; [destruct Hr|].
  destruct Hr as [<-|Hr].
  - left. symmetry. now apply relative_to_joinpath.
  - right. now apply IH.
Qed.

Lemma checks_receive_listed_files_witness :
  invoked_of
    (snd (fst (run_presubmit (re := Fragment.engine) sample_system
                 sample_repository quiet_env [IsCheck source_check] None []
                 generated_pattern "." None false [])))
  = [(source_check,
      mkPresubmitContext (mkPath true ["repo"%string])
        (mkPath true ["repo"; ".presubmit"; "c"]%string)
        [Path_of "/repo/src/a.py"; Path_of "/repo/src/b.py"])]
  /\ forall c ctx p,
      In (c, ctx)
         (invoked_of
            (snd (fst (run_presubmit (re := Fragment.engine) sample_system
                         sample_repository quiet_env [IsCheck source_check]
                         None [] generated_pattern "." None false [])))) ->
      In p (paths ctx) ->
      In p (list_git_files (re := Fragment.engine) sample_system None []
                           generated_pattern ".").
Proof.
  split; [vm_compute; reflexivity|].
  destruct (checks_receive_listed_files (re := Fragment.engine) sample_system
              sample_repository quiet_env [IsCheck source_check] None []
              generated_pattern "." None false []) as (new & Hs & H).
  rewrite Hs. exact H.
Defined.

(** X22. When the directory is not a git repository, [run_presubmit] logs
    the critical record and returns [False]; when a listed file does not lie
    under the root that git reports, it raises. In both cases nothing is
    run: the trace is left as it was. *)
Theorem run_presubmit_stops_before_the_run {re : ReEngine} (sys : System)
        (repo : Repository) (env : Env) (program : list ProgramItem)
        (base : option string) (paths : list string) (exclude : list Pattern)
        (repository : string) (output_directory : option PathOrStr)
        (keep_going : bool) (tr : Trace) :
  (is_git_repo repo repository = false ->
   run_presubmit sys repo env program base paths exclude repository
                 output_directory keep_going tr
   = ((Normal false, tr),
      [Critical "Presubmit checks must be run from a Git repo"]))
  /\ (is_git_repo repo repository = true ->
      forall file e,
        In file (list_git_files sys base paths exclude repository) ->
        relative_to file (git_repo_path repo repository) = Propagates e ->
        exists e' notices,
          run_presubmit sys repo env program base paths exclude repository
                        output_directory keep_going tr
          = ((Propagates e', tr), notices)).
Proof.
  unfold run_presubmit. split.
  - intros ->. reflexivity.
  - intros -> file e Hf He. simpl.
    destruct (if samefile repo (git_repo_path repo repository) repository
              then Normal []
              else obind (relative_to (cwd env) (git_repo_path repo repository))
                         (fun subdirectory =>
                            Normal [Info subdirectory
                                         (git_repo_path repo repository)]))
      as [notices|e0]; [|eauto].
    destruct (@omap_fails _ _
                (fun path => relative_to path (git_repo_path repo repository))
                _ file e Hf He) as [e' ->]. eauto.
Qed.

Lemma run_presubmit_stops_before_the_run_witness :
  exists e' notices,
    run_presubmit (re := Fragment.engine) sample_system other_repository
                  quiet_env abc_program None [] [] "." None false []
    = ((Propagates e', []), notices).
Proof.
  destruct (run_presubmit_stops_before_the_run (re := Fragment.engine)
              sample_system other_repository quiet_env abc_program None [] []
              "." None false []) as [_ H].
  apply (H eq_refl (Path_of "/repo/src/a.py")
           (ExceptionSubclass "ValueError"
              "/repo/src/a.py does not start with /elsewhere")).
  - vm_compute. right. left. reflexivity.
  - reflexivity.
Defined.
(* ------------------------------------------------------------------ *)
(** ** [file_summary] *)

Lemma length_insert_by {A} (lt : A -> A -> bool) (x : A) (l : list A) :
  List.length (insert_by lt x l) = S (List.length l).
Proof.
  induction l as [|y l IH]; simpl; [reflexivity|].
  destruct (lt y x); simpl; [now rewrite IH | reflexivity].
Qed.

Lemma length_sorted_by {A} (lt : A -> A -> bool) (l : list A) :
  List.length (sorted_by lt l) = List.length l.
Proof.
  induction l as [|x l IH]; simpl; [reflexivity|].
  now rewrite length_insert_by, IH.
Qed.

Lemma length_set {K V} (eq_dec : forall a b : K, {a = b} + {a <> b})
      (d : dict K V) (k : K) (v : V) :
  List.length (set eq_dec d k v) <= S (List.length d).
Proof.
  induction d as [|[k0 v0] d IH]; simpl; [lia|].
  destruct (eq_dec k k0); simpl; lia.
Qed.

Lemma length_parents (path : Path) :
  List.length (parents path) = List.length (parts path).
Proof. unfold parents. now rewrite length_map, length_rev, length_seq. Qed.

(** A round of the first loop goes wrong exactly for a path without
    components and for a number of levels below one, with [IndexError]. *)
Lemma tally_cases (levels : Z) (all_counts : dict Path Counter) (path : Path) :
  (parts path <> [] /\ (1 <= levels)%Z
   /\ exists parent counter,
       tally levels all_counts path
       = Normal (set Path_eq_dec all_counts parent counter))
  \/ ((parts path = [] \/ (levels <= 0)%Z)
      /\ exists index,
          tally levels all_counts path
          = Propagates (ExceptionSubclass "IndexError" index)).
Proof.
  unfold tally.
  destruct (nth_error (parents path) _) as [parent|] eqn:N.
  - left. assert (L : nth_error (parents path)
                        (Z.to_nat (Z.max (Z.of_nat (List.length (parents path))
                                          - levels) 0)) <> None)
      by now rewrite N.
    apply nth_error_Some in L. rewrite length_parents in L.
    split; [|split; [|eauto]].
    + intros E. rewrite E in L. simpl in L. lia.
    + lia.
  - right. apply nth_error_None in N. rewrite length_parents in N.
    split; [|eauto].
    destruct (parts path); [now left | right; simpl List.length in N; lia].
Qed.

Lemma count_all_length (levels : Z) (paths : list Path)
      (all_counts all_counts' : dict Path Counter) :
  count_all levels paths all_counts = Normal all_counts' ->
  List.length all_counts' <= List.length all_counts + List.length paths.
Proof.
  revert all_counts. induction paths as [|path paths IH]; intros d H; simpl in H.
  - injection H as <-. lia.
  - destruct (tally_cases levels d path)
      as [(_ & _ & parent & counter & E)|(_ & index & E)];
      rewrite E in H; simpl in H; [|discriminate].
    apply IH in H. pose proof (length_set Path_eq_dec d parent counter).
    simpl. lia.
Qed.

Lemma count_all_returns (levels : Z) (paths : list Path)
      (all_counts : dict Path Counter) :
  (1 <= levels)%Z -> Forall (fun path => parts path <> []) paths ->
  exists all_counts', count_all levels paths all_counts = Normal all_counts'.
Proof.
  intros Hl Hp. revert all_counts.
  induction Hp as [|path paths Hpath Hp IH]; intros d; simpl; [eauto|].
  destruct (tally_cases levels d path)
    as [(_ & _ & parent & counter & E)|([N|N] & _)];
    [|contradiction|lia].
  rewrite E. simpl. apply IH.
Qed.

Lemma count_all_raises (levels : Z) (paths : list Path)
      (all_counts : dict Path Counter) (path : Path) :
  In path paths -> parts path = [] \/ (levels <= 0)%Z ->
  exists index,
    count_all levels paths all_counts
    = Propagates (ExceptionSubclass "IndexError" index).
Proof.
  intros Hin Hbad. revert all_counts.
  induction paths as [|p paths IH]; intros d; [destruct Hin|].
  simpl.
  destruct (tally_cases levels d p)
    as [(Np & Nl & parent & counter & E)|(_ & index & E)]; rewrite E; simpl.
  - destruct Hin as [-> | Hin]; [|now apply IH].
    destruct Hbad; [contradiction | lia].
  - eauto.
Qed.

Lemma slice_to_from {A} (k : Z) (l : list A) :
  slice_to k l ++ slice_from k l = l.
Proof.
  unfold slice_to, slice_from. destruct (0 <=? k)%Z; apply firstn_skipn.
Qed.

Lemma length_condensed (max_lines : Z) (all_counts : dict Path Counter) :
  (1 <= max_lines)%Z ->
  Z.of_nat (List.length (condensed max_lines all_counts))
  = Z.min max_lines (Z.of_nat (List.length all_counts)).
Proof.
  intros H. unfold condensed.
  destruct (max_lines <? Z.of_nat (List.length all_counts))%Z eqn:C.
  - apply Z.ltb_lt in C.
    rewrite length_app, length_map, length_sorted_by. unfold slice_to.
    replace (0 <=? max_lines - 1)%Z with true by (symmetry; apply Z.leb_le; lia).
    rewrite length_firstn, length_sorted_by. simpl List.length. lia.
  - apply Z.ltb_ge in C. rewrite length_map, length_sorted_by. lia.
Qed.

Lemma condensed_not_empty (max_lines : Z) (all_counts : dict Path Counter) :
  all_counts <> [] -> condensed max_lines all_counts <> [].
Proof.
  intros H E. apply (f_equal (@List.length _)) in E. unfold condensed in E.
  destruct (max_lines <? _)%Z.
  - rewrite length_app in E. simpl in E. lia.
  - rewrite length_map, length_sorted_by in E.
    destruct all_counts; [now elim H | discriminate E].
Qed.

Lemma omap_returns {A B} (f : A -> Outcome B) (l : list A) :
  (forall x, In x l -> exists y, f x = Normal y) ->
  exists l', omap f l = Normal l'.
Proof.
  induction l as [|x l IH]; intros H; simpl; [eauto|].
  destruct (H x (or_introl eq_refl)) as [y ->]. simpl.
  destruct IH as [l' ->]; [intros z Hz; apply H; now right|].
  simpl. eauto.
Qed.

Lemma omap_length {A B} (f : A -> Outcome B) (l : list A) (l' : list B) :
  omap f l = Normal l' -> List.length l' = List.length l.
Proof.
  intros H. apply omap_Forall2 in H.
  induction H; simpl; [reflexivity | now f_equal].
Qed.

Lemma length_append (a b : string) :
  String.length (a ++ b) = String.length a + String.length b.
Proof. induction a as [|c a IH]; simpl; [reflexivity | now rewrite IH]. Qed.

Lemma length_fill (c : ascii) (n : nat) :
  String.length (string_of_list_ascii (repeat c n)) = n.
Proof. induction n as [|n IH]; simpl; [reflexivity | now rewrite IH]. Qed.

(** [ljust] with a fill character gives a text of the width, if the text
    is not longer, and the text is its beginning. *)
Lemma ljust_spec (s : string) (width : nat) (fillchar root : string) :
  ljust s width fillchar = Normal root ->
  prefix s root = true
  /\ (String.length s <= width -> String.length root = width).
Proof.
  unfold ljust. destruct fillchar as [|c [|c' f]]; try discriminate.
  intros H. injection H as <-. split; [apply prefix_append|].
  intros L. rewrite length_append, length_fill. lia.
Qed.

Lemma ljust_raises (s : string) (width : nat) (fillchar : string) :
  String.length fillchar <> 1 ->
  ljust s width fillchar
  = Propagates
      (TypeError "The fill character must be exactly one character long").
Proof.
  unfold ljust. destruct fillchar as [|c [|c' f]]; simpl; intros H;
    [reflexivity | now elim H | reflexivity].
Qed.

Lemma Forall2_In_impl {A B} (R R' : A -> B -> Prop) (l : list A) (l' : list B) :
  Forall2 R l l' -> (forall x y, In x l -> R x y -> R' x y) -> Forall2 R' l l'.
Proof.
  induction 1 as [|x y l l' HR H IH]; intros Himp; constructor.
  - apply Himp; [now left | exact HR].
  - apply IH. intros x' y' Hin. apply Himp. now right.
Qed.

Lemma width_of_bound (pad_start : string) (counts : list (string * Counter))
      (entry : string * Counter) :
  In entry counts ->
  String.length (fst entry ++ "/" ++ pad_start) <= width_of pad_start counts.
Proof.
  intros Hin. unfold width_of.
  assert (B : String.length (fst entry) + 1
              <= list_max (map (fun dc => String.length (fst dc) + 1) counts)).
  { pose proof (proj1 (list_max_le
                         (map (fun dc => String.length (fst dc) + 1) counts)
                         _) (Nat.le_refl _)) as F.
    rewrite Forall_forall in F. apply F.
    apply in_map_iff. exists entry. split; [reflexivity | exact Hin]. }
  rewrite !length_append. simpl String.length.
  destruct counts; [destruct Hin | lia].
Qed.

Lemma count_all_grows (levels : Z) (paths : list Path)
      (all_counts all_counts' : dict Path Counter) :
  count_all levels paths all_counts = Normal all_counts' ->
  paths <> [] \/ all_counts <> [] -> all_counts' <> [].
Proof.
  revert all_counts. induction paths as [|path paths IH]; intros d H N;
    simpl in H.
  - injection H as <-. destruct N as [N|N]; [now elim N | exact N].
  - destruct (tally_cases levels d path)
      as [(_ & _ & parent & counter & E)|(_ & index & E)];
      rewrite E in H; simpl in H; [|discriminate].
    apply (IH _ H). right. now destruct d as [|[k v] d]; simpl;
      [|destruct (Path_eq_dec parent k)].
Qed.

(** X23. For at least one level and at least one line, and paths that all
    have a component, [file_summary] returns, with at most [max_lines]
    lines and at most one line for each path. *)
Theorem file_summary_is_bounded (paths : list Path)
        (levels max_lines max_types : Z) (pad : ascii)
        (pad_start pad_end : string) :
  (1 <= levels)%Z -> (1 <= max_lines)%Z ->
  Forall (fun path => parts path <> []) paths ->
  exists output,
    file_summary paths levels max_lines max_types (String pad "")
                 pad_start pad_end = Normal output
    /\ (Z.of_nat (List.length output) <= max_lines)%Z
    /\ List.length output <= List.length paths.
Proof.
  intros Hl Hm Hp. unfold file_summary.
  destruct (count_all_returns [] Hl Hp) as [all_counts C]. rewrite C. simpl.
  destruct (@omap_returns _ _
              (summary_line max_types (String pad "") pad_start pad_end
                 (width_of pad_start (condensed max_lines all_counts)))
              (condensed max_lines all_counts)) as [output O].
  { intros entry _. unfold summary_line, ljust. simpl. eauto. }
  exists output. split; [exact O|].
  apply omap_length in O. pose proof (length_condensed all_counts Hm) as L.
  apply count_all_length in C. simpl in C. lia.
Qed.

Lemma file_summary_is_bounded_witness :
  exists output,
    file_summary [Path_of "src/a.py"; Path_of "src/b.py"; Path_of "README"]
                 2 1 3 " " " " " " = Normal output
    /\ (Z.of_nat (List.length output) <= 1)%Z
    /\ List.length output <= 3.
Proof.
  apply (@file_summary_is_bounded
           [Path_of "src/a.py"; Path_of "src/b.py"; Path_of "README"]
           2 1 3 " "%char " " " "); [lia | lia |].
  repeat constructor; discriminate.
Defined.

(** X24. [file_summary] raises [IndexError] when one of the paths has no
    component (as [.] and [/]) and when [levels] is below one and there is
    a path; with good paths and levels it raises [TypeError] when there is a
    path and [pad] is not one character. *)
Theorem file_summary_raises (paths : list Path)
        (levels max_lines max_types : Z) (pad pad_start pad_end : string) :
  (forall path,
      In path paths -> parts path = [] \/ (levels <= 0)%Z ->
      exists index,
        file_summary paths levels max_lines max_types pad pad_start pad_end
        = Propagates (ExceptionSubclass "IndexError" index))
  /\ (paths <> [] -> (1 <= levels)%Z ->
      Forall (fun path => parts path <> []) paths ->
      String.length pad <> 1 ->
      file_summary paths levels max_lines max_types pad pad_start pad_end
      = Propagates
          (TypeError "The fill character must be exactly one character long")).
Proof.
  unfold file_summary. split.
  - intros path Hin Hbad.
    destruct (@count_all_raises levels paths [] path Hin Hbad) as [index ->].
    simpl. eauto.
  - intros Hne Hl Hp Hpad.
    destruct (count_all_returns [] Hl Hp) as [all_counts C]. rewrite C. simpl.
    pose proof (@condensed_not_empty max_lines all_counts
                  (@count_all_grows _ _ _ _ C (or_introl Hne))) as N.
    destruct (condensed max_lines all_counts) as [|entry counts];
      [now elim N|].
    cbn [omap]. unfold summary_line at 1. rewrite (@ljust_raises _ _ _ Hpad).
    reflexivity.
Qed.

Lemma file_summary_raises_witness :
  (exists index,
      file_summary [Path_of "src/a.py"; Path_of "."] 2 12 3 " " " " " "
      = Propagates (ExceptionSubclass "IndexError" index))
  /\ file_summary [Path_of "src/a.py"] 2 12 3 "" " " " "
     = Propagates
         (TypeError "The fill character must be exactly one character long").
Proof.
  split.
  - apply (proj1 (file_summary_raises
                    [Path_of "src/a.py"; Path_of "."] 2 12 3 " " " " " ")
                 (Path_of ".")); [right; now left | now left].
  - apply (proj2 (file_summary_raises [Path_of "src/a.py"] 2 12 3 "" " " " "));
      [discriminate | lia | repeat constructor; discriminate | discriminate].
Defined.

(** The lines of [file_summary], entry by entry. *)
Lemma file_summary_lines (paths : list Path)
      (levels max_lines max_types : Z) (pad pad_start pad_end : string)
      (output : list string) :
  file_summary paths levels max_lines max_types pad pad_start pad_end
  = Normal output ->
  exists all_counts,
    count_all levels paths [] = Normal all_counts
    /\ Forall2
         (fun entry line =>
            exists root,
              line = (root ++ pad_end
                           ++ plural decimal (Count (values_sum (snd entry)))
                                     "file"
                           ++ types_of max_types (values_sum (snd entry))
                                       (del (snd entry) ""))%string
              /\ String.length root
                 = width_of pad_start (condensed max_lines all_counts)
              /\ prefix (fst entry ++ "/" ++ pad_start) root = true)
         (condensed max_lines all_counts) output.
Proof.
  unfold file_summary. intros H.
  destruct (count_all levels paths []) as [all_counts|e]; [|discriminate].
  simpl in H. exists all_counts. split; [reflexivity|].
  apply omap_Forall2 in H. apply (@Forall2_In_impl _ _ _ _ _ _ H).
  intros entry line Hin Hline. unfold summary_line in Hline.
  destruct (ljust _ _ pad) as [root|e] eqn:J; [|discriminate].
  simpl in Hline. injection Hline as <-.
  apply ljust_spec in J. destruct J as [P L].
  exists root. split; [reflexivity|]. split; [|exact P].
  apply L. now apply width_of_bound.
Qed.

(** X25. The lines of [file_summary] are aligned: each line is the
    directory, a slash and [pad_start], filled up to a width that is the
    same for all the lines, then [pad_end], the number of files of the
    directory and its file types. *)
Theorem file_summary_columns_align (paths : list Path)
        (levels max_lines max_types : Z) (pad pad_start pad_end : string)
        (output : list string) :
  file_summary paths levels max_lines max_types pad pad_start pad_end
  = Normal output ->
  exists (width : nat) (counts : list (string * Counter)),
    Forall2
      (fun entry line =>
         exists root,
           line = (root ++ pad_end
                        ++ plural decimal (Count (values_sum (snd entry)))
                                  "file"
                        ++ types_of max_types (values_sum (snd entry))
                                    (del (snd entry) ""))%string
           /\ String.length root = width
           /\ prefix (fst entry ++ "/" ++ pad_start) root = true)
      counts output.
Proof.
  intros H. destruct (file_summary_lines _ _ _ _ _ _ _ H) as (all_counts & _ & F).
  exists (width_of pad_start (condensed max_lines all_counts)),
         (condensed max_lines all_counts).
  exact F.
Qed.

Lemma file_summary_columns_align_witness :
  file_summary [Path_of "src/a.py"; Path_of "src/b.py"; Path_of "docs/readme.md"]
               2 12 3 " " " " " "
  = Normal ["docs/  1 file (1 .md)"; "src/   2 files (2 .py)"]
  /\ exists (width : nat) (counts : list (string * Counter)),
      Forall2
        (fun entry line =>
           exists root,
             line = (root ++ " "
                          ++ plural decimal (Count (values_sum (snd entry)))
                                    "file"
                          ++ types_of 3 (values_sum (snd entry))
                                      (del (snd entry) ""))%string
             /\ String.length root = width
             /\ prefix (fst entry ++ "/" ++ " ") root = true)
        counts ["docs/  1 file (1 .md)"; "src/   2 files (2 .py)"].
Proof.
  split; [vm_compute; reflexivity|].
  apply (@file_summary_columns_align
           [Path_of "src/a.py"; Path_of "src/b.py"; Path_of "docs/readme.md"]
           2 12 3 " " " " " ").
  vm_compute. reflexivity.
Defined.

(* The accounting of [file_summary]. *)

Lemma get_None (counter : Counter) (elem : string) :
  get string_dec counter elem = None <-> ~ In elem (map fst counter).
Proof.
  induction counter as [|[k v] counter IH]; simpl; [tauto|].
  destruct (string_dec elem k) as [->|N].
  - split; [discriminate | intros H; elim H; now left].
  - rewrite IH. split; [intros H [E|E]; [congruence | auto] | tauto].
Qed.

Lemma set_new (counter : Counter) (elem : string) (n : Z) :
  ~ In elem (map fst counter) ->
  set string_dec counter elem n = counter ++ [(elem, n)].
Proof.
  induction counter as [|[k v] counter IH]; simpl; intros H; [reflexivity|].
  destruct (string_dec elem k) as [->|N]; [elim H; now left|].
  rewrite IH; [reflexivity | tauto].
Qed.

Lemma values_sum_app (a b : Counter) :
  values_sum (a ++ b) = (values_sum a + values_sum b)%Z.
Proof.
  unfold values_sum. induction a as [|[k v] a IH]; simpl; [reflexivity|].
  rewrite IH. lia.
Qed.

Lemma values_sum_set (counter : Counter) (elem : string) (n : Z) :
  values_sum (set string_dec counter elem n)
  = (values_sum counter - lookup counter elem + n)%Z.
Proof.
  unfold values_sum, lookup.
  induction counter as [|[k v] counter IH]; simpl; [lia|].
  destruct (string_dec elem k) as [->|N]; simpl; [lia|].
  rewrite IH. lia.
Qed.

Lemma lookup_counted (counter : Counter) (elem : string) :
  counted counter -> (0 <= lookup counter elem)%Z.
Proof.
  intros [_ P]. unfold lookup.
  destruct (get string_dec counter elem) as [n|] eqn:G; [|lia].
  apply get_In in G. rewrite Forall_forall in P. apply P in G. simpl in G. lia.
Qed.

Lemma counted_set (counter : Counter) (elem : string) (n : Z) :
  counted counter -> (0 < n)%Z -> counted (set string_dec counter elem n).
Proof.
  intros [D P] Hn. split.
  - rewrite keys_set. destruct (in_dec string_dec elem (map fst counter));
      [exact D|].
    apply NoDup_app; [exact D | repeat constructor; intros [] |].
    intros k Hk [<-|[]]. contradiction.
  - rewrite Forall_forall in *. intros [k v] H.
    apply In_set_inv in H. destruct H as [[_ ->]|H]; [exact Hn | now apply P].
Qed.

Lemma files_of_app {K} (a b : list (K * Counter)) :
  files_of (a ++ b) = (files_of a + files_of b)%Z.
Proof.
  unfold files_of. induction a as [|x a IH]; simpl; [reflexivity|].
  rewrite IH. lia.
Qed.

Lemma files_of_set (all_counts : dict Path Counter) (parent : Path)
      (counter : Counter) :
  files_of (set Path_eq_dec all_counts parent counter)
  = (files_of all_counts
     - values_sum (match get Path_eq_dec all_counts parent with
                   | Some old => old
                   | None => []
                   end)
     + values_sum counter)%Z.
Proof.
  unfold files_of.
  induction all_counts as [|[k v] d IH]; simpl; [unfold values_sum; simpl; lia|].
  destruct (Path_eq_dec parent k) as [->|N]; simpl; [lia|].
  rewrite IH. lia.
Qed.

(** A round of the first loop counts one more file, and keeps the counters
    well formed. *)
Lemma tally_counts (levels : Z) (all_counts all_counts' : dict Path Counter)
      (path : Path) :
  tally levels all_counts path = Normal all_counts' ->
  Forall (fun dc => counted (snd dc)) all_counts ->
  files_of all_counts' = (files_of all_counts + 1)%Z
  /\ Forall (fun dc => counted (snd dc)) all_counts'.
Proof.
  unfold tally. destruct (nth_error _ _) as [parent|]; [|discriminate].
  intros H F. injection H as <-.
  assert (C : counted (match get Path_eq_dec all_counts parent with
                       | Some counter => counter
                       | None => []
                       end)).
  { destruct (get Path_eq_dec all_counts parent) as [c|] eqn:G.
    - apply get_In in G. rewrite Forall_forall in F. exact (F _ G).
    - split; constructor. }
  split.
  - rewrite files_of_set, values_sum_set. lia.
  - rewrite Forall_forall in *. intros [k c] H.
    apply In_set_inv in H. destruct H as [[_ ->]|H]; [|now apply F].
    simpl. apply counted_set; [exact C|].
    pose proof (lookup_counted (suffix path) C). lia.
Qed.

Lemma count_all_counts (levels : Z) (paths : list Path)
      (all_counts all_counts' : dict Path Counter) :
  count_all levels paths all_counts = Normal all_counts' ->
  Forall (fun dc => counted (snd dc)) all_counts ->
  files_of all_counts'
  = (files_of all_counts + Z.of_nat (List.length paths))%Z
  /\ Forall (fun dc => counted (snd dc)) all_counts'.
Proof.
  revert all_counts. induction paths as [|path paths IH]; intros d H F;
    simpl in H.
  - injection H as <-. simpl. split; [lia | exact F].
  - destruct (tally levels d path) as [d1|e] eqn:T; simpl in H; [|discriminate].
    destruct (tally_counts _ _ T F) as [E1 F1].
    destruct (IH _ H F1) as [E2 F2]. split; [|exact F2].
    rewrite E2, E1. simpl List.length. lia.
Qed.

Lemma files_of_insert_by {K} (lt : K * Counter -> K * Counter -> bool)
      (x : K * Counter) (l : list (K * Counter)) :
  files_of (insert_by lt x l) = (values_sum (snd x) + files_of l)%Z.
Proof.
  unfold files_of. induction l as [|y l IH]; simpl; [reflexivity|].
  destruct (lt y x); simpl; [rewrite IH|]; lia.
Qed.

Lemma files_of_sorted_by {K} (lt : K * Counter -> K * Counter -> bool)
      (l : list (K * Counter)) :
  files_of (sorted_by lt l) = files_of l.
Proof.
  induction l as [|x l IH]; simpl; [reflexivity|].
  rewrite files_of_insert_by, IH. reflexivity.
Qed.

Lemma In_insert_by {A} (lt : A -> A -> bool) (x y : A) (l : list A) :
  In y (insert_by lt x l) -> y = x \/ In y l.
Proof.
  induction l as [|z l IH]; simpl.
  - intros [H|[]]; now left.
  - destruct (lt z x); simpl.
    + intros [H|H]; [right; now left|].
      destruct (IH H); [now left | right; now right].
    + intros [H|H]; [now left | now right].
Qed.

Lemma In_sorted_by {A} (lt : A -> A -> bool) (y : A) (l : list A) :
  In y (sorted_by lt l) -> In y l.
Proof.
  induction l as [|x l IH]; simpl; [auto|].
  intros H. apply In_insert_by in H. destruct H; [now left | right; auto].
Qed.

Lemma files_of_str (l : list (Path * Counter)) :
  files_of (map (fun dc => (str (fst dc), snd dc)) l) = files_of l.
Proof.
  unfold files_of. induction l as [|x l IH]; simpl; [reflexivity|].
  now rewrite IH.
Qed.

(** What [Counter.__add__] gives for counters with distinct elements and
    positive counts. *)
Lemma Counter_add_first (other : Counter) (self result : Counter) :
  counted self -> (forall elem, 0 <= lookup other elem)%Z ->
  (forall elem, In elem (map fst self) -> ~ In elem (map fst result)) ->
  fold_left (fun result ec =>
               let newcount := (snd ec + lookup other (fst ec))%Z in
               if (0 <? newcount)%Z then set string_dec result (fst ec) newcount
               else result)
            self result
  = result ++ map (fun ec => (fst ec, (snd ec + lookup other (fst ec))%Z)) self.
Proof.
  revert result. induction self as [|[k v] self IH]; intros result [D P] Ho Hd;
    simpl; [now rewrite app_nil_r|].
  inversion D as [|? ? Dk D']; subst. inversion P as [|? ? Pk P']; subst.
  simpl in Pk. pose proof (Ho k) as Hk.
  replace (0 <? v + lookup other k)%Z with true
    by (symmetry; apply Z.ltb_lt; lia).
  rewrite set_new by (apply Hd; now left).
  rewrite IH; [now rewrite <- app_assoc | now split | exact Ho |].
  intros elem He. rewrite map_app, in_app_iff. simpl.
  intros [Hr|[<-|[]]]; [|contradiction].
  revert Hr. apply Hd. now right.
Qed.

Lemma Counter_add_second (self : Counter) (other result : Counter) :
  counted other ->
  (forall elem, In elem (map fst other) -> In elem (map fst result) ->
                In elem (map fst self)) ->
  fold_left (fun result ec =>
               if match get string_dec self (fst ec) with
                  | Some _ => false
                  | None => true
                  end && (0 <? snd ec)%Z
               then set string_dec result (fst ec) (snd ec)
               else result)
            other result
  = result ++ List.filter (fun ec => match get string_dec self (fst ec) with
                                     | Some _ => false
                                     | None => true
                                     end) other.
Proof.
  revert result. induction other as [|[k v] other IH]; intros result [D P] Hd;
    simpl; [now rewrite app_nil_r|].
  inversion D as [|? ? Dk D']; subst. inversion P as [|? ? Pk P']; subst.
  simpl in Pk.
  replace (0 <? v)%Z with true by (symmetry; apply Z.ltb_lt; lia).
  destruct (get string_dec self k) as [n|] eqn:G; simpl.
  - apply IH; [now split|]. intros elem He. apply Hd. now right.
  - apply get_None in G. rewrite set_new.
    + rewrite IH; [now rewrite <- app_assoc | now split |].
      intros elem He. rewrite map_app, in_app_iff. simpl.
      intros [Hr|[<-|[]]]; [|contradiction].
      apply Hd; [now right | exact Hr].
    + intros H. apply G. apply Hd; [now left | exact H].
Qed.

Lemma Counter_add_counted (self other : Counter) :
  counted self -> counted other ->
  Counter_add self other
  = map (fun ec => (fst ec, (snd ec + lookup other (fst ec))%Z)) self
    ++ List.filter (fun ec => match get string_dec self (fst ec) with
                              | Some _ => false
                              | None => true
                              end) other.
Proof.
  intros Cs Co. unfold Counter_add.
  assert (E := @Counter_add_first other self [] Cs
                 (fun elem => lookup_counted elem Co) (fun elem _ H => H)).
  cbv zeta in E |- *. rewrite E. simpl app. apply Counter_add_second; [exact Co|].
  intros elem _ H. rewrite map_map in H. exact H.
Qed.

Lemma sum_of_lookups (other : Counter) (l : list string) :
  NoDup l -> NoDup (map fst other) ->
  fold_right Z.add 0%Z (map (lookup other) l)
  = values_sum (List.filter (fun ec => if in_dec string_dec (fst ec) l
                                       then true else false) other).
Proof.
  intros Dl. induction other as [|[k v] other IH]; intros Do.
  - simpl. unfold values_sum. simpl. clear Dl.
    induction l as [|x l IHl]; simpl; [reflexivity | rewrite IHl; reflexivity].
  - inversion Do as [|? ? Dk Do']; subst.
    assert (Z0 : lookup other k = 0%Z).
    { unfold lookup. now rewrite (proj2 (get_None other k) Dk). }
    assert (E : fold_right Z.add 0%Z (map (lookup ((k, v) :: other)) l)
                = (fold_right Z.add 0%Z (map (lookup other) l)
                   + if in_dec string_dec k l then v else 0)%Z).
    { clear IH Do Do'. induction Dl as [|x l Nx Dl IHl]; simpl; [reflexivity|].
      rewrite IHl. unfold lookup at 1. simpl.
      destruct (string_dec x k) as [->|N].
      - destruct (string_dec k k); [|congruence].
        destruct (in_dec string_dec k l); [contradiction|]. lia.
      - destruct (string_dec k x); [congruence|].
        fold (lookup other x).
        destruct (in_dec string_dec k l); lia. }
    rewrite E, (IH Do'). simpl.
    destruct (in_dec string_dec k l); unfold values_sum; simpl; lia.
Qed.

Lemma Counter_add_sum (self other : Counter) :
  counted self -> counted other ->
  values_sum (Counter_add self other)
  = (values_sum self + values_sum other)%Z
  /\ counted (Counter_add self other).
Proof.
  intros Cs Co. rewrite (Counter_add_counted Cs Co).
  destruct Cs as [Ds Ps], Co as [Do Po]. split.
  - rewrite values_sum_app.
    assert (A : values_sum
                  (map (fun ec => (fst ec, (snd ec + lookup other (fst ec))%Z))
                       self)
                = (values_sum self
                   + fold_right Z.add 0%Z (map (lookup other) (map fst self)))%Z).
    { unfold values_sum. clear. induction self as [|[k v] self IH]; simpl;
        [reflexivity | rewrite IH; lia]. }
    rewrite A, (@sum_of_lookups other (map fst self) Ds Do).
    assert (B : forall l : Counter,
               (values_sum
                  (List.filter (fun ec => if in_dec string_dec (fst ec)
                                                    (map fst self)
                                          then true else false) l)
                + values_sum
                    (List.filter (fun ec => match get string_dec self (fst ec) with
                                            | Some _ => false
                                            | None => true
                                            end) l)
                = values_sum l)%Z).
    { induction l as [|[k v] l IH]; [reflexivity|]. simpl.
      destruct (in_dec string_dec k (map fst self)) as [I|N].
      - destruct (get string_dec self k) eqn:G;
          [|apply get_None in G; contradiction].
        unfold values_sum in *. simpl. lia.
      - rewrite (proj2 (get_None self k) N). unfold values_sum in *. simpl. lia. }
    specialize (B other). lia.
  - split.
    + rewrite map_app, map_map. simpl. apply NoDup_app.
      * exact Ds.
      * clear - Do. induction other as [|[k v] other IH]; simpl; [constructor|].
        inversion Do as [|? ? Dk Do']; subst.
        destruct (get string_dec self k); [now apply IH|].
        simpl. constructor; [|now apply IH].
        intros H. apply Dk. apply in_map_iff in H. destruct H as (x & <- & H).
        apply filter_In in H. apply in_map. tauto.
      * intros k Hk H. apply in_map_iff in H. destruct H as ([k' v] & <- & H).
        apply filter_In in H. destruct H as [_ H]. simpl in *.
        destruct (get string_dec self k') eqn:G; [discriminate|].
        apply get_None in G. contradiction.
    + apply Forall_app. split.
      * rewrite Forall_forall in *. intros [k v] H. apply in_map_iff in H.
        destruct H as ([k' v'] & E & H). injection E as <- <-. simpl.
        pose proof (Ps _ H) as Q. simpl in Q.
        pose proof (@lookup_counted other k' (conj Do (proj2 (Forall_forall _ _) Po))).
        lia.
      * rewrite Forall_forall in *. intros x H. apply filter_In in H.
        apply Po. tauto.
Qed.

Lemma sum_of_counters (counters : list Counter) (start : Counter) :
  counted start -> Forall counted counters ->
  values_sum (fold_left Counter_add counters start)
  = (values_sum start + fold_right Z.add 0%Z (map values_sum counters))%Z.
Proof.
  revert start. induction counters as [|c counters IH]; intros start Cs F;
    simpl; [lia|].
  inversion F as [|? ? Cc F']; subst.
  destruct (Counter_add_sum Cs Cc) as [E C].
  rewrite (IH _ C F'), E. lia.
Qed.

Lemma files_of_condensed (max_lines : Z) (all_counts : dict Path Counter) :
  Forall (fun dc => counted (snd dc)) all_counts ->
  files_of (condensed max_lines all_counts) = files_of all_counts.
Proof.
  intros F. unfold condensed. destruct (max_lines <? _)%Z.
  - rewrite files_of_app, files_of_str, files_of_sorted_by.
    set (counts := sorted_by _ all_counts).
    assert (E : files_of all_counts
                = (files_of (slice_to (max_lines - 1) counts)
                   + files_of (slice_from (max_lines - 1) counts))%Z).
    { rewrite <- files_of_app, slice_to_from. unfold counts.
      now rewrite files_of_sorted_by. }
    rewrite E. f_equal. unfold files_of at 1. simpl.
    rewrite sum_of_counters.
    + unfold values_sum at 1, files_of. simpl. rewrite map_map. lia.
    + split; constructor.
    + rewrite Forall_forall in *. intros c H. apply in_map_iff in H.
      destruct H as (dc & <- & H). apply F.
      apply (@In_sorted_by _ (fun a b =>
                                (- values_sum (snd a) <? - values_sum (snd b))%Z)).
      fold counts. rewrite <- (slice_to_from (max_lines - 1) counts).
      apply in_or_app. now right.
  - now rewrite files_of_str, files_of_sorted_by.
Qed.

(** X26. No file is lost in the summary: the numbers of files that the
    lines of [file_summary] show add up to the number of paths, also when
    directories are put together in the line of the others. *)
Theorem file_summary_accounts_for_every_path (paths : list Path)
        (levels max_lines max_types : Z) (pad pad_start pad_end : string)
        (output : list string) :
  file_summary paths levels max_lines max_types pad pad_start pad_end
  = Normal output ->
  exists counts : list (string * Counter),
    Forall2
      (fun entry line =>
         exists root,
           line = (root ++ pad_end
                        ++ plural decimal (Count (values_sum (snd entry)))
                                  "file"
                        ++ types_of max_types (values_sum (snd entry))
                                    (del (snd entry) ""))%string)
      counts output
    /\ files_of counts = Z.of_nat (List.length paths).
Proof.
  intros H. destruct (file_summary_lines _ _ _ _ _ _ _ H) as (all_counts & C & F).
  exists (condensed max_lines all_counts). split.
  - apply (@Forall2_In_impl _ _ _ _ _ _ F).
    intros entry line _ (root & E & _). eauto.
  - destruct (count_all_counts _ _ C (Forall_nil _)) as [E G].
    rewrite (files_of_condensed max_lines G), E. reflexivity.
Qed.

Lemma file_summary_accounts_for_every_path_witness :
  exists counts : list (string * Counter),
    Forall2
      (fun entry line =>
         exists root,
           line = (root ++ " "
                        ++ plural decimal (Count (values_sum (snd entry)))
                                  "file"
                        ++ types_of 3 (values_sum (snd entry))
                                    (del (snd entry) ""))%string)
      counts ["src/         2 files (2 .py)"; "(2 others)/  2 files (1 .md, 1 other)"]
    /\ files_of counts = 4%Z.
Proof.
  apply (@file_summary_accounts_for_every_path
           [Path_of "src/a.py"; Path_of "src/b.py"; Path_of "docs/readme.md";
            Path_of "README"] 2 2 3 " " " " " ").
  vm_compute. reflexivity.
Defined.
